(** * Plugin manager of otto: a shallow embedding of
      [command/plugin_manager.go] and the properties of its specification.

    The Go code works on pointers to [Plugin] structs that are shared between
    the manager's slice, the closures installed by [Load] and the core
    configuration.  The embedding therefore keeps the plugins in a heap
    (a list indexed by address) and threads one [State] through every
    operation; a dereference of an address outside the heap stands for a nil
    pointer dereference and panics. *)

From Stdlib Require Import ZArith Strings.Ascii Strings.Byte.
From stdpp Require Import gmap strings list fin_maps.

Set Warnings "-register-all".

(** ** Data model *)

(** A pointer to a [Plugin]: its index in the heap. *)
Abbreviation addr := nat (only parsing).

(** Modelled from the spec: [app.Tuple] is declared in another package; the
    specification describes it as an opaque key (domain x variant). *)
Definition Tuple : Type := (string * string)%type.

(** [app.Meta]: the capability tuples a plugin offers. *)
Record Meta := { Tuples : list Tuple }.

(** An RPC client is identified by the position of its command in the list
    of commands executed so far. *)
Definition Client := nat.

(** The closure [func() (app.App, error) { p.used = true; return client.App() }]
    built by [Load], with the two variables it captures. *)
Record Factory := { fac_plugin : addr; fac_client : Client }.

(** What a call of a factory returns: the result of [client.App()], which is
    left uninterpreted. *)
Inductive AppResult := client_App (c : Client).

Record Plugin := {
  Path : string;
  Args : list string;
  MD5 : string;
  App : option Factory;      (* nil before Load *)
  AppMeta : option Meta;     (* nil before Load *)
  used : bool
}.

(** [plugin.ServeMuxMap] maps a name to a serve mux; only the keys are used. *)
Inductive ServeMux := serveMux (id : nat).

Record PluginManager := {
  PluginDirs : list string;
  PluginMap : gmap string ServeMux;
  plugins : option (list addr)     (* None is the nil slice *)
}.

(** [otto.CoreConfig], restricted to the field this file touches.  A Go map
    may hold a nil function value, hence the [option Factory]. *)
Record CoreConfig := { Apps : option (gmap Tuple (option Factory)) }.

(** Error values.  The messages built with [fmt.Errorf] are kept as
    constructors carrying the values that are formatted into them. *)
Inductive error :=
| ErrOpen (path : string)                        (* os.Open: the path does not exist *)
| ErrRead (path : string)                        (* reading a directory *)
| ErrCreate (path : string)                      (* os.Create is refused *)
| ErrDecode (path : string)                      (* encoding/json cannot decode the file *)
| ErrExternal (msg : string)                     (* an error of osext or of the plugin client *)
| ErrCalcMD5 (path : string) (cause : error)     (* "Error calculating MD5 of %s: %s" *)
| ErrLoadPlugin (path : string) (cause : error)  (* "Error loading plugin %s: %s" *)
| ErrUsedVersion                                 (* "Couldn't load used plugins because the format ..." *)
| MultiError (errs : list error).                (* *multierror.Error *)

Inductive result (A : Type) :=
| Val (a : A)
| Err (e : error).
Arguments Val {A} a.
Arguments Err {A} e.

(** What launching a plugin binary yields, step by step as [Load] asks. *)
Inductive Launch :=
| ClientFails (e : error)                              (* pluginClient.Client() fails *)
| AppFails (e : error)                                 (* client.App() fails *)
| MetaReturns (meta : option Meta) (e : option error). (* appImpl.Meta() returns (meta, e) *)

(** The manifest as encoding/json sees it: the fields of [usedPluginWrapper]
    and of [Plugin] that carry a json name.  [App] and [AppMeta] are tagged
    [json:"-"] and [used] is not exported.  The list is one of pointers: an
    entry is [None] where the document has [null], which the decoder turns
    into a nil pointer and the encoder writes for one. *)
Record plugin_doc := { doc_path : string; doc_args : list string; doc_md5 : string }.
Record manifest_doc := {
  doc_version : Z;
  doc_plugins : option (list (option plugin_doc))
}.

(** [usedPluginWrapper] *)
Record usedPluginWrapper := {
  wrapper_Version : Z;
  wrapper_Plugins : option (list addr)
}.

(** A path of the file system is absent, a regular file or a directory.
    Paths are compared as they are written. *)
Inductive node :=
| File (data : list byte)
| Dir.

Record State := {
  heap : list Plugin;                    (* the Plugin structs allocated so far *)
  fs : gmap string node;                 (* the file system *)
  execs : list (string * list string);   (* commands handed to the plugin client *)
  logs : list string;                    (* lines written by log.Printf *)
  testingMode : bool;                    (* the package variable of that name *)
  exe : result string;                   (* what osext.Executable() returns *)
  ranges : nat;                          (* map iterations performed so far *)
  unwritable : gset string               (* paths the process may not create or truncate *)
}.

Inductive outcome (A : Type) :=
| Returns (a : A) (s : State)
| Panics.
Arguments Returns {A} a s.
Arguments Panics {A}.

(** The state monad with panics in which the Go functions are written. *)
Definition M (A : Type) : Type := State -> outcome A.

Definition ret {A} (a : A) : M A := fun s => Returns a s.

Definition bind {A B} (c : M A) (k : A -> M B) : M B :=
  fun s => match c s with
           | Returns a s' => k a s'
           | Panics => Panics
           end.

Definition panic {A} : M A := fun _ => Panics.

Declare Scope go_scope.
Delimit Scope go_scope with go.
Notation "x <- c ;; k" := (bind c (fun x => k))
  (at level 20, c at level 99, k at level 200, only parsing) : go_scope.
Notation "' p <- c ;; k" := (bind c (fun x => let 'p := x in k))
  (at level 20, p pattern, c at level 99, k at level 200, only parsing) : go_scope.
Open Scope go_scope.

Definition get : M State := fun s => Returns s s.
Definition modify (f : State -> State) : M unit := fun s => Returns tt (f s).

(** Record updates. *)
Definition with_heap (h : list Plugin) (s : State) : State :=
  {| heap := h; fs := fs s; execs := execs s; logs := logs s;
     testingMode := testingMode s; exe := exe s; ranges := ranges s;
     unwritable := unwritable s |}.
Definition with_fs (f : gmap string node) (s : State) : State :=
  {| heap := heap s; fs := f; execs := execs s; logs := logs s;
     testingMode := testingMode s; exe := exe s; ranges := ranges s;
     unwritable := unwritable s |}.
Definition with_execs (e : list (string * list string)) (s : State) : State :=
  {| heap := heap s; fs := fs s; execs := e; logs := logs s;
     testingMode := testingMode s; exe := exe s; ranges := ranges s;
     unwritable := unwritable s |}.
Definition with_logs (l : list string) (s : State) : State :=
  {| heap := heap s; fs := fs s; execs := execs s; logs := l;
     testingMode := testingMode s; exe := exe s; ranges := ranges s;
     unwritable := unwritable s |}.
Definition with_ranges (n : nat) (s : State) : State :=
  {| heap := heap s; fs := fs s; execs := execs s; logs := logs s;
     testingMode := testingMode s; exe := exe s; ranges := n;
     unwritable := unwritable s |}.

Definition with_MD5 (h : string) (p : Plugin) : Plugin :=
  {| Path := Path p; Args := Args p; MD5 := h; App := App p;
     AppMeta := AppMeta p; used := used p |}.
Definition with_App (f : option Factory) (p : Plugin) : Plugin :=
  {| Path := Path p; Args := Args p; MD5 := MD5 p; App := f;
     AppMeta := AppMeta p; used := used p |}.
Definition with_AppMeta (m : option Meta) (p : Plugin) : Plugin :=
  {| Path := Path p; Args := Args p; MD5 := MD5 p; App := App p;
     AppMeta := m; used := used p |}.
Definition with_used (b : bool) (p : Plugin) : Plugin :=
  {| Path := Path p; Args := Args p; MD5 := MD5 p; App := App p;
     AppMeta := AppMeta p; used := b |}.
Definition with_plugins (l : option (list addr)) (m : PluginManager) : PluginManager :=
  {| PluginDirs := PluginDirs m; PluginMap := PluginMap m; plugins := l |}.

(** ** Memory *)

(** [*p]: reading through a pointer. *)
Definition deref (p : addr) : M Plugin :=
  fun s => match heap s !! p with
           | Some pl => Returns pl s
           | None => Panics
           end.

(** [p.field = v]: the struct at [p] is read and written back changed. *)
Definition update (p : addr) (f : Plugin -> Plugin) : M unit :=
  pl <- deref p ;;
  modify (fun s => with_heap (<[p := f pl]> (heap s)) s).

(** [&Plugin{...}]: a fresh struct. *)
Definition new_Plugin (pl : Plugin) : M addr :=
  fun s => Returns (length (heap s)) (with_heap (heap s ++ [pl]) s).

(** The elements a [range] over a slice visits; a nil slice has none. *)
Definition elems {A} (sl : option (list A)) : list A := default [] sl.

(** [for _, x := range l { acc = body(x, acc) }] *)
Fixpoint range_acc {A B} (body : A -> B -> M B) (l : list A) (acc : B) : M B :=
  match l with
  | [] => ret acc
  | x :: l' => acc' <- body x acc ;; range_acc body l' acc'
  end.

(** ** Collaborators outside the package *)

(** [os.Open] *)
Definition os_Open (path : string) : M (result node) :=
  s <- get ;;
  match fs s !! path with
  | Some nd => ret (Val nd)
  | None => ret (Err (ErrOpen path))
  end.

(** Reading an open file to its end, as [io.Copy] and the json decoder do. *)
Definition read_all (path : string) (f : node) : result (list byte) :=
  match f with
  | File data => Val data
  | Dir => Err (ErrRead path)
  end.

(** The directory a path lies in: what precedes its last slash.  There is
    none to look up when the path has no slash (it lies in the working
    directory); the empty string is the root. *)
Fixpoint dir_chars (cs : list ascii) : option (list ascii) :=
  match cs with
  | [] => None
  | c :: cs' =>
      match dir_chars cs' with
      | Some d => Some (c :: d)
      | None => if Ascii.eqb c "/" then Some [] else None
      end
  end.

Definition dirname (path : string) : option string :=
  String.string_of_list_ascii <$> dir_chars (String.list_ascii_of_string path).

(** Whether the operating system lets the process create or truncate a file
    at [path]: the path is not a directory, the directory it lies in exists
    (the working directory and the root always do) and is a directory, and
    nothing else stands in the way (permissions, a read-only medium). *)
Definition creatable (s : State) (path : string) : bool :=
  match fs s !! path with
  | Some Dir => false
  | _ => true
  end
  && match dirname path with
     | None | Some "" => true
     | Some d => match fs s !! d with
                 | Some Dir => true
                 | _ => false
                 end
     end
  && bool_decide (path ∉ unwritable s).

(** [os.Create]: creates the file, or truncates it, where the operating
    system allows it. *)
Definition os_Create (path : string) : M (option error) :=
  s <- get ;;
  if creatable s path
  then _ <- modify (fun s => with_fs (<[path := File []]> (fs s)) s) ;; ret None
  else ret (Some (ErrCreate path)).

(** Writing to the file just created. *)
Definition write_file (path : string) (data : list byte) : M unit :=
  modify (fun s => with_fs (<[path := File data]> (fs s)) s).

(** [log.Printf] *)
Definition log_Printf (line : string) : M unit :=
  modify (fun s => with_logs (logs s ++ [line]) s).

(** [hex.EncodeToString]: two lower-case digits for each byte. *)
Definition hex_digit (n : N) : ascii :=
  nth (N.to_nat n) (String.list_ascii_of_string "0123456789abcdef") "0"%char.

Definition hex_byte (b : byte) : string :=
  let n := Byte.to_N b in
  String (hex_digit (n / 16)%N) (String (hex_digit (n mod 16)%N) EmptyString).

Fixpoint hex_EncodeToString (bs : list byte) : string :=
  match bs with
  | [] => ""
  | b :: bs' => hex_byte b +:+ hex_EncodeToString bs'
  end.

(** [multierror.Append(err, e)]: [err] may be nil, a multierror or any other
    error; a multierror among the arguments is flattened. *)
Definition flatten (e : error) : list error :=
  match e with
  | MultiError es => es
  | _ => [e]
  end.

Definition multierror_Append (err : option error) (e : error) : error :=
  MultiError (match err with
              | None => []
              | Some e0 => flatten e0
              end ++ flatten e).

(** ** The operations of [plugin_manager.go] *)

(** [PluginGlob] is the glob pattern used to find plugins. *)
Definition PluginGlob : string := "otto-*".

(** [usedPluginVersion] is the version of the used-plugin format that this
    build understands. *)
Definition usedPluginVersion : Z := 1.

(** [Used] *)
Definition Used (p : addr) : M bool :=
  pl <- deref p ;;
  ret (used pl).

(** [String]: [fmt.Sprintf("%s %v", p.Path, p.Args)] *)
Definition Plugin_String (pl : Plugin) : string :=
  Path pl +:+ " [" +:+ String.concat " " (Args pl) +:+ "]".

(** [Plugins] returns the slice of the manager. *)
Definition Plugins (m : PluginManager) : option (list addr) := plugins m.

(** Calling a function value of type [app.Factory]; [None] is the nil
    function.  The only factories are the closures built by [Load]. *)
Definition call (f : option Factory) : M AppResult :=
  match f with
  | None => panic
  | Some f =>
      _ <- update (fac_plugin f) (with_used true) ;;
      ret (client_App (fac_client f))
  end.

(** [exec.Command(p.Path, p.Args...)] handed to [plugin.NewClient]: the
    command is recorded and the new client is named after its position. *)
Definition exec_Command (path : string) (args : list string) : M Client :=
  s <- get ;;
  _ <- modify (with_execs (execs s ++ [(path, args)])) ;;
  ret (length (execs s)).

(** The variables of [StoreUsed]'s hashing goroutine that are called [err]:
    the one declared by [var err error] in the function, and the one
    declared by [if err := p.CalcMD5(); ...] which shadows it. *)
Record hash_vars := {
  err_func : option error;
  err_if : option error
}.

(** [ConfigureCore] *)
Definition ConfigureCore (m : PluginManager) (core : CoreConfig)
  : M (CoreConfig * option error) :=
  let apps := match Apps core with
              | None => ∅     (* make(map[app.Tuple]app.Factory) *)
              | Some t => t
              end in
  apps <- range_acc (fun p (apps : gmap Tuple (option Factory)) =>
            pl <- deref p ;;
            match AppMeta pl with
            | None => panic     (* p.AppMeta.Tuples on a nil *app.Meta *)
            | Some meta =>
                range_acc (fun tuple apps => ret (<[tuple := App pl]> apps))
                          (Tuples meta) apps
            end) (elems (Plugins m)) apps ;;
  ret ({| Apps := Some apps |}, None).

(** ** A concrete environment

    The statements below are exercised on concrete states.  The plugin
    binaries, the digest and the codec that stand in there for the real
    ones are defined here. *)

(** A stand-in for encoding/json: numbers in unary, strings and lists
    preceded by their length. *)
Fixpoint enc_nat (n : nat) : list byte :=
  match n with
  | 0 => [x00]
  | S k => x01 :: enc_nat k
  end.

Fixpoint dec_nat (bs : list byte) : option (nat * list byte) :=
  match bs with
  | x00 :: r => Some (0, r)
  | x01 :: r =>
      match dec_nat r with
      | Some (n, r') => Some (S n, r')
      | None => None
      end
  | _ => None
  end.

Definition enc_string (s : string) : list byte :=
  let bs := String.list_byte_of_string s in
  enc_nat (length bs) ++ bs.

Definition dec_string (bs : list byte) : option (string * list byte) :=
  match dec_nat bs with
  | Some (n, r) =>
      if decide (n <= length r)
      then Some (String.string_of_list_byte (take n r), drop n r)
      else None
  | None => None
  end.

Fixpoint dec_list {A} (dec : list byte -> option (A * list byte)) (n : nat)
         (bs : list byte) : option (list A * list byte) :=
  match n with
  | 0 => Some ([], bs)
  | S k =>
      match dec bs with
      | Some (x, r) =>
          match dec_list dec k r with
          | Some (xs, r') => Some (x :: xs, r')
          | None => None
          end
      | None => None
      end
  end.

Definition enc_list {A} (enc : A -> list byte) (l : list A) : list byte :=
  enc_nat (length l) ++ concat (enc <$> l).

Definition dec_plugin_doc (bs : list byte) : option (plugin_doc * list byte) :=
  match dec_string bs with
  | Some (path, r1) =>
      match dec_nat r1 with
      | Some (n, r2) =>
          match dec_list dec_string n r2 with
          | Some (args, r3) =>
              match dec_string r3 with
              | Some (md5, r4) =>
                  Some ({| doc_path := path; doc_args := args; doc_md5 := md5 |}, r4)
              | None => None
              end
          | None => None
          end
      | None => None
      end
  | None => None
  end.

Definition enc_plugin_doc (d : plugin_doc) : list byte :=
  enc_string (doc_path d) ++ enc_list enc_string (doc_args d) ++ enc_string (doc_md5 d).

Definition enc_entry (e : option plugin_doc) : list byte :=
  match e with
  | None => [x00]
  | Some d => x01 :: enc_plugin_doc d
  end.

Definition dec_entry (bs : list byte) : option (option plugin_doc * list byte) :=
  match bs with
  | x00 :: r => Some (None, r)
  | x01 :: r =>
      match dec_plugin_doc r with
      | Some (d, r') => Some (Some d, r')
      | None => None
      end
  | _ => None
  end.

Definition ex_Encode (d : manifest_doc) : list byte :=
  (if (doc_version d <? 0)%Z then x01 else x00)
    :: enc_nat (Z.abs_nat (doc_version d))
    ++ match doc_plugins d with
       | None => [x00]
       | Some docs => x01 :: enc_list enc_entry docs
       end.

Definition ex_Decode (bs : list byte) : option manifest_doc :=
  match bs with
  | sign :: r =>
      match dec_nat r with
      | Some (n, r1) =>
          let version := match sign with
                         | x01 => (- Z.of_nat n)%Z
                         | _ => Z.of_nat n
                         end in
          match r1 with
          | [x00] => Some {| doc_version := version; doc_plugins := None |}
          | x01 :: r2 =>
              match dec_nat r2 with
              | Some (k, r3) =>
                  match dec_list dec_entry k r3 with
                  | Some (docs, []) =>
                      Some {| doc_version := version; doc_plugins := Some docs |}
                  | _ => None
                  end
              | None => None
              end
          | _ => None
          end
      | None => None
      end
  | [] => None
  end.

(** The documents the stand-in codec reads back as they were written. *)
Definition ex_exact (d : manifest_doc) : Prop := ex_Decode (ex_Encode d) = Some d.

(** A stand-in for crypto/md5: 16 bytes, the first of which depends on the
    length of the data. *)
Definition ex_md5_Sum (data : list byte) : list byte :=
  default x00 (Byte.of_N (N.of_nat (length data) mod 256)) :: replicate 15 x00.

(** A map is iterated in the order of its list of entries. *)
Definition ex_range_keys (n : nat) (pm : gmap string ServeMux) : list string :=
  (map_to_list pm).*1.

(** The plugin binaries: the host binary serves a built-in plugin for the
    application named by its last argument; nothing else can be started. *)
Definition ex_launch (path : string) (args : list string) : Launch :=
  if String.eqb path "/bin/otto"
  then MetaReturns (Some {| Tuples := (fun a => (a, "aws")) <$> drop 1 args |}) None
  else ClientFails (ErrExternal "fork/exec: no such file or directory").

(** The content of the host binary. *)
Definition ex_binary : list byte := [x7f; x45; x4c; x46].

(** A host with two built-in plugins that has not discovered anything yet. *)
Definition ex_manager : PluginManager :=
  {| PluginDirs := [];
     PluginMap := {[ "build" := serveMux 0; "deploy" := serveMux 1 ]};
     plugins := None |}.

(** The files: the host binary in its directory. *)
Definition ex_fs : gmap string node :=
  {[ "/bin" := Dir; "/bin/otto" := File ex_binary ]}.

Definition ex_state : State :=
  {| heap := []; fs := ex_fs; execs := []; logs := [];
     testingMode := false; exe := Val "/bin/otto"; ranges := 0;
     unwritable := ∅ |}.

(** A handle of the host binary and a handle of a binary that is missing. *)
Definition ex_good (k : string) : Plugin :=
  {| Path := "/bin/otto"; Args := ["plugin-builtin"; k]; MD5 := "";
     App := None; AppMeta := None; used := false |}.

Definition ex_missing : Plugin :=
  {| Path := "/bin/gone"; Args := []; MD5 := "";
     App := None; AppMeta := None; used := false |}.

(** The two built-in handles once [LoadAll] has discovered and loaded them. *)
Definition ex_loaded (p : addr) (k : string) (u : bool) : Plugin :=
  {| Path := "/bin/otto"; Args := ["plugin-builtin"; k]; MD5 := "";
     App := Some {| fac_plugin := p; fac_client := p |};
     AppMeta := Some {| Tuples := [(k, "aws")] |}; used := u |}.

Definition ex_loaded_manager : PluginManager := with_plugins (Some [0; 1]) ex_manager.

Definition ex_loaded_state (build_used : bool) : State :=
  {| heap := [ex_loaded 0 "build" build_used; ex_loaded 1 "deploy" false];
     fs := ex_fs;
     execs := [("/bin/otto", ["plugin-builtin"; "build"]);
               ("/bin/otto", ["plugin-builtin"; "deploy"])];
     logs := ["[DEBUG] Detected plugin: /bin/otto [plugin-builtin build]";
              "[DEBUG] Detected plugin: /bin/otto [plugin-builtin deploy]"];
     testingMode := false; exe := Val "/bin/otto"; ranges := 1;
     unwritable := ∅ |}.

(** A set with a handle of the host binary and a handle of the missing one. *)
Definition ex_mixed_state : State :=
  with_heap [ex_good "build"; ex_missing] ex_state.

(** A handle that was loaded and used, and whose binary is gone since; a
    path that [exec.Command] resolves through PATH and [os.Open] does not
    find behaves the same. *)
Definition ex_stale : Plugin :=
  {| Path := "/bin/gone"; Args := []; MD5 := "";
     App := Some {| fac_plugin := 0; fac_client := 0 |};
     AppMeta := Some {| Tuples := [("build", "aws")] |}; used := true |}.

Definition ex_stale_manager : PluginManager := with_plugins (Some [0]) ex_manager.

Definition ex_stale_state : State := with_heap [ex_stale] ex_state.

(** A handle of the host binary that carries the hash of another file. *)
Definition ex_pinned : Plugin :=
  {| Path := "/bin/otto"; Args := ["plugin-builtin"; "build"];
     MD5 := "d41d8cd98f00b204e9800998ecf8427e";
     App := None; AppMeta := None; used := false |}.

Definition ex_pinned_state : State := with_heap [ex_pinned] ex_state.

(** Two handles that were loaded and declare the same tuple. *)
Definition ex_rival (p : addr) : Plugin :=
  {| Path := "/bin/otto"; Args := ["plugin-builtin"; "build"]; MD5 := "";
     App := Some {| fac_plugin := p; fac_client := p |};
     AppMeta := Some {| Tuples := [("build", "aws")] |}; used := false |}.

Definition ex_rival_state : State := with_heap [ex_rival 0; ex_rival 1] ex_state.

(** A manifest of a format that is one version ahead. *)
Definition ex_newer_doc : manifest_doc :=
  {| doc_version := usedPluginVersion + 1;
     doc_plugins := Some [Some {| doc_path := "/bin/otto";
                                  doc_args := ["plugin-builtin"; "build"];
                                  doc_md5 := "04000000000000000000000000000000" |}] |}.

Definition ex_newer_state : State :=
  with_fs (<["used.json" := File (ex_Encode ex_newer_doc)]> (fs ex_state))
    (ex_loaded_state true).

(** The manifest [StoreUsed] writes when only the build plugin was used, and
    the state it leaves. *)
Definition ex_manifest : manifest_doc :=
  {| doc_version := usedPluginVersion;
     doc_plugins := Some [Some {| doc_path := "/bin/otto";
                                  doc_args := ["plugin-builtin"; "build"];
                                  doc_md5 := "04000000000000000000000000000000" |}] |}.

Definition ex_stored_state : State :=
  with_fs (<["used.json" := File (ex_Encode ex_manifest)]> (fs ex_state))
    (with_heap [with_MD5 "04000000000000000000000000000000" (ex_loaded 0 "build" true);
                ex_loaded 1 "deploy" false]
       (ex_loaded_state true)).

(** A host that cannot tell where its executable is. *)
Definition ex_lost_state : State :=
  {| heap := []; fs := ∅; execs := []; logs := []; testingMode := false;
     exe := Err (ErrExternal "readlink /proc/self/exe: no such file or directory");
     ranges := 0; unwritable := ∅ |}.

(** The state of the scenario with a directory named "out". *)
Definition ex_dir_state : State :=
  with_fs (<["out" := Dir]> (fs ex_state)) (ex_loaded_state true).

(** A manifest of an older version that has no list of plugins. *)
Definition ex_listless_doc : manifest_doc :=
  {| doc_version := 0; doc_plugins := None |}.

Definition ex_listless_state : State :=
  with_fs (<["used.json" := File (ex_Encode ex_listless_doc)]> (fs ex_state)) ex_state.

(** The encoder of encoding/json writes every string as valid UTF-8: a byte
    that does not begin a valid encoding is replaced by U+FFFD.  The
    stand-in below does so before it writes the document; what begins a
    valid encoding is decided as [utf8.DecodeRuneInString] does. *)
Definition in_range (lo hi b : N) : bool := ((lo <=? b) && (b <=? hi))%N.

Definition continuation (b : N) : bool := in_range 128 191 b.

(** The length of the valid encoding at the head of [bs]; 0 when there is
    none. *)
Definition rune_size (bs : list N) : nat :=
  match bs with
  | [] => 0
  | b0 :: r =>
      if (b0 <? 128)%N then 1
      else if in_range 194 223 b0 then
        match r with
        | b1 :: _ => if continuation b1 then 2 else 0
        | _ => 0
        end
      else if in_range 224 239 b0 then
        match r with
        | b1 :: b2 :: _ =>
            if in_range (if (b0 =? 224)%N then 160 else 128)
                        (if (b0 =? 237)%N then 159 else 191) b1
               && continuation b2
            then 3 else 0
        | _ => 0
        end
      else if in_range 240 244 b0 then
        match r with
        | b1 :: b2 :: b3 :: _ =>
            if in_range (if (b0 =? 240)%N then 144 else 128)
                        (if (b0 =? 244)%N then 143 else 191) b1
               && continuation b2 && continuation b3
            then 4 else 0
        | _ => 0
        end
      else 0
  end.

Fixpoint coerce_bytes (fuel : nat) (bs : list N) : list N :=
  match fuel with
  | 0 => []
  | S fuel' =>
      match bs with
      | [] => []
      | _ :: r =>
          match rune_size bs with
          | 0 => [239; 191; 189]%N ++ coerce_bytes fuel' r
          | n => take n bs ++ coerce_bytes fuel' (drop n bs)
          end
      end
  end.

Definition utf8_coerce (s : string) : string :=
  let bs := N_of_ascii <$> String.list_ascii_of_string s in
  String.string_of_list_ascii (ascii_of_N <$> coerce_bytes (length bs) bs).

Definition coerce_doc (d : plugin_doc) : plugin_doc :=
  {| doc_path := utf8_coerce (doc_path d);
     doc_args := utf8_coerce <$> doc_args d;
     doc_md5 := utf8_coerce (doc_md5 d) |}.

Definition utf8_Encode (d : manifest_doc) : list byte :=
  ex_Encode {| doc_version := doc_version d;
               doc_plugins := (fun es : list (option plugin_doc) =>
                                 (fun e : option plugin_doc => coerce_doc <$> e) <$> es)
                                <$> doc_plugins d |}.

(** A plugin binary whose name ends with the byte FF, which no UTF-8
    encoding contains, loaded and used. *)
Definition ex_odd_path : string := "/bin/ott" +:+ String (ascii_of_nat 255) "".

Definition ex_odd : Plugin :=
  {| Path := ex_odd_path; Args := []; MD5 := "";
     App := Some {| fac_plugin := 0; fac_client := 0 |};
     AppMeta := Some {| Tuples := [("build", "aws")] |}; used := true |}.

Definition ex_odd_state : State :=
  with_fs (<[ex_odd_path := File ex_binary]> (fs ex_state))
    (with_heap [ex_odd] ex_state).

(** A manifest of the current version whose list holds [null]. *)
Definition ex_null_doc : manifest_doc :=
  {| doc_version := usedPluginVersion; doc_plugins := Some [None] |}.

Definition ex_null_state : State :=
  with_fs (<["used.json" := File (ex_Encode ex_null_doc)]> (fs ex_state)) ex_state.

(** Three handles, the second of which has lost its binary. *)
Definition ex_trio_state : State :=
  with_heap [ex_good "build"; ex_missing; ex_good "deploy"] ex_state.

Section Model.

(** The libraries and the environment the package relies on. *)
Context (md5_Sum : list byte -> list byte)                       (* crypto/md5 *)
        (json_Encode : manifest_doc -> list byte)                (* encoding/json *)
        (json_Decode : list byte -> option manifest_doc)
        (range_keys : nat -> gmap string ServeMux -> list string) (* order of the n-th map iteration *)
        (launch : string -> list string -> Launch)               (* the plugin binaries *)
        (NumCPU : nat).                                          (* runtime.NumCPU() *)

(** [CalcMD5] calculates the MD5 hash of the plugin and saves it to MD5. *)
Definition CalcMD5 (p : addr) : M (option error) :=
  pl <- deref p ;;
  f <- os_Open (Path pl) ;;
  match f with
  | Err e => ret (Some e)
  | Val f =>
      match read_all (Path pl) f with      (* io.Copy(hash, f) *)
      | Err e => ret (Some e)
      | Val data =>
          _ <- update p (with_MD5 (hex_EncodeToString (md5_Sum data))) ;;
          ret None
      end
  end.

(** [Load] *)
Definition Load (p : addr) : M (option error) :=
  pl <- deref p ;;
  client <- exec_Command (Path pl) (Args pl) ;;
  match launch (Path pl) (Args pl) with
  | ClientFails e => ret (Some e)
  | AppFails e => ret (Some e)
  | MetaReturns meta e =>
      _ <- update p (with_AppMeta meta) ;;     (* p.AppMeta, err = appImpl.Meta() *)
      match e with
      | Some e => ret (Some e)
      | None =>
          _ <- update p (with_used false) ;;
          _ <- update p (with_App (Some {| fac_plugin := p; fac_client := client |})) ;;
          ret None
      end
  end.

(** [for k, _ := range m.PluginMap]: the keys in the order of this iteration. *)
Definition range_map (pm : gmap string ServeMux) : M (list string) :=
  s <- get ;;
  _ <- modify (with_ranges (S (ranges s))) ;;
  ret (range_keys (ranges s) pm).

(** [Discover] *)
Definition Discover (m : PluginManager) : M (PluginManager * option error) :=
  s <- get ;;
  found <- (if testingMode s then ret (Val [])
            else match exe s with
                 | Err e => ret (Err e)
                 | Val exePath =>
                     keys <- range_map (PluginMap m) ;;
                     result <- range_acc (fun k result =>
                                 p <- new_Plugin {| Path := exePath;
                                                    Args := ["plugin-builtin"; k];
                                                    MD5 := ""; App := None;
                                                    AppMeta := None; used := false |} ;;
                                 ret (result ++ [p])) keys [] ;;
                     ret (Val result)
                 end) ;;
  match found with
  | Err e => ret (m, Some e)
  | Val result =>
      _ <- range_acc (fun r (_ : unit) =>
             pl <- deref r ;;
             log_Printf ("[DEBUG] Detected plugin: " +:+ Plugin_String pl))
           result tt ;;
      ret (with_plugins (Some result) m, None)
  end.

(** The body of the goroutine that [LoadAll] starts for each plugin. *)
Definition load_task (plugin : addr) (merr : option error) : M (option error) :=
  err <- Load plugin ;;
  match err with
  | Some e =>
      pl <- deref plugin ;;
      ret (Some (multierror_Append merr (ErrLoadPlugin (Path pl) e)))
  | None => ret merr
  end.

(** [LoadAll].  The goroutines are run one after the other in the order of
    the slice.  [pool_step] below describes their interleavings: this run is
    one of them ([pool_in_order]), and each of them amounts to such a run in
    some order of the slice ([pool_serial]). *)
Definition LoadAll (m : PluginManager) : M (PluginManager * option error) :=
  '(m, err) <- match Plugins m with
               | None => Discover m
               | Some _ => ret (m, None)
               end ;;
  match err with
  | Some e => ret (m, Some e)
  | None =>
      merr <- range_acc load_task (elems (Plugins m)) None ;;
      ret (m, merr)
  end.

(** The body of the goroutine that [StoreUsed] starts for each used plugin.
    It takes and returns the [err] of the enclosing function. *)
Definition hash_task (p : addr) (err : option error) : M (option error) :=
  r <- CalcMD5 p ;;
  let vars := {| err_func := err; err_if := r |} in
  match err_if vars with
  | Some e =>
      pl <- deref p ;;
      (* err = multierror.Append(err, fmt.Errorf(..., p.Path, err)) *)
      let vars := {| err_func := err_func vars;
                     err_if := Some (multierror_Append (err_if vars)
                                       (ErrCalcMD5 (Path pl) e)) |} in
      ret (err_func vars)
  | None => ret (err_func vars)
  end.

(** What the encoder writes for a wrapper: the exported fields of the
    plugins its slice points to. *)
Definition plugin_to_doc (pl : Plugin) : plugin_doc :=
  {| doc_path := Path pl; doc_args := Args pl; doc_md5 := MD5 pl |}.

Definition wrapper_to_doc (w : usedPluginWrapper) : M manifest_doc :=
  match wrapper_Plugins w with
  | None => ret {| doc_version := wrapper_Version w; doc_plugins := None |}
  | Some l =>
      docs <- range_acc (fun p docs =>
                pl <- deref p ;;
                ret (docs ++ [Some (plugin_to_doc pl)])) l [] ;;
      ret {| doc_version := wrapper_Version w; doc_plugins := Some docs |}
  end.

(** What the decoder builds for a document: a fresh [Plugin] per entry that
    is an object, and a nil pointer per entry that is [null].  A nil pointer
    is an address outside the heap.  The one used here is outside the heap
    when the decoder is done and stays so until [LoadUsed] is: the decoder
    allocates at most one struct per entry, and nothing is allocated after
    it when the slice is not nil. *)
Definition doc_to_plugin (d : plugin_doc) : Plugin :=
  {| Path := doc_path d; Args := doc_args d; MD5 := doc_md5 d;
     App := None; AppMeta := None; used := false |}.

Definition doc_to_wrapper (d : manifest_doc) : M usedPluginWrapper :=
  match doc_plugins d with
  | None => ret {| wrapper_Version := doc_version d; wrapper_Plugins := None |}
  | Some entries =>
      s <- get ;;
      let nil := length (heap s) + length entries in
      l <- range_acc (fun entry l =>
             match entry with
             | None => ret (l ++ [nil])
             | Some pd =>
                 p <- new_Plugin (doc_to_plugin pd) ;;
                 ret (l ++ [p])
             end) entries [] ;;
      ret {| wrapper_Version := doc_version d; wrapper_Plugins := Some l |}
  end.

(** [StoreUsed] *)
Definition StoreUsed (m : PluginManager) (path : string) : M (option error) :=
  plugins <- range_acc (fun p plugins =>
               u <- Used p ;;
               ret (if u then plugins ++ [p] else plugins))
             (elems (Plugins m)) [] ;;
  err <- range_acc hash_task plugins None ;;
  match err with
  | Some e => ret (Some e)
  | None =>
      err <- os_Create path ;;
      match err with
      | Some e => ret (Some e)
      | None =>
          doc <- wrapper_to_doc {| wrapper_Version := usedPluginVersion;
                                   wrapper_Plugins := Some plugins |} ;;
          _ <- write_file path (json_Encode doc) ;;
          ret None
      end
  end.

(** [LoadUsed] *)
Definition LoadUsed (m : PluginManager) (path : string)
  : M (PluginManager * option error) :=
  f <- os_Open path ;;
  match f with
  | Err e => ret (m, Some e)
  | Val f =>
      match read_all path f with
      | Err e => ret (m, Some e)
      | Val data =>
          match json_Decode data with
          | None => ret (m, Some (ErrDecode path))
          | Some doc =>
              wrapper <- doc_to_wrapper doc ;;
              if (wrapper_Version wrapper >? usedPluginVersion)%Z
              then ret (m, Some ErrUsedVersion)
              else LoadAll (with_plugins (wrapper_Plugins wrapper) m)
          end
      end
  end.

(** ** Auxiliary definitions used in the statements *)

(** The command line of a plugin. *)
Definition cmd (pl : Plugin) : string * list string := (Path pl, Args pl).

(** The error [Load] returns for a plugin, if any. *)
Definition load_error (pl : Plugin) : option error :=
  match launch (Path pl) (Args pl) with
  | ClientFails e => Some e
  | AppFails e => Some e
  | MetaReturns _ e => e
  end.

(** The struct [Load] leaves behind when run at address [p] with client [c]. *)
Definition loaded (p : addr) (c : Client) (pl : Plugin) : Plugin :=
  match launch (Path pl) (Args pl) with
  | ClientFails _ => pl
  | AppFails _ => pl
  | MetaReturns meta (Some _) => with_AppMeta meta pl
  | MetaReturns meta None =>
      with_App (Some {| fac_plugin := p; fac_client := c |})
               (with_used false (with_AppMeta meta pl))
  end.

(** What one goroutine of [LoadAll] does to the state. *)
Definition after_Load (p : addr) (pl : Plugin) (s : State) : State :=
  with_heap (<[p := loaded p (length (execs s)) pl]> (heap s))
    (with_execs (execs s ++ [cmd pl]) s).

(** Every pointer of a slice points to a struct. *)
Definition valid (s : State) (l : list addr) : Prop :=
  Forall (fun p => is_Some (heap s !! p)) l.

(** The error to report for each plugin of [l] that fails to load, in the
    order of [l]. *)
Definition load_failures (s : State) (l : list addr) : list error :=
  omap (fun p => match heap s !! p with
                 | Some pl => ErrLoadPlugin (Path pl) <$> load_error pl
                 | None => None
                 end) l.

(** nil when there is no error, one multierror holding them all otherwise. *)
Definition aggregate (errs : list error) : option error :=
  match errs with
  | [] => None
  | _ => Some (MultiError errs)
  end.

(** The fields of a plugin that are written to the manifest. *)
Definition ident (pl : Plugin) : string * list string * string :=
  (Path pl, Args pl, MD5 pl).

(** The command lines of the plugins of a slice. *)
Definition cmds (s : State) (l : list addr) : list (string * list string) :=
  omap (fun p => cmd <$> heap s !! p) l.

(** Everything but the heap and the executed commands is the same. *)
Definition same_env (s s' : State) : Prop :=
  fs s' = fs s /\ logs s' = logs s /\ testingMode s' = testingMode s /\
  exe s' = exe s /\ ranges s' = ranges s /\ unwritable s' = unwritable s.

(** [multierror.Append] applied to each error in turn. *)
Definition append_errors (merr : option error) (errs : list error) : option error :=
  foldl (fun acc e => Some (multierror_Append acc e)) merr errs.

(** The struct [Discover] builds for the built-in plugin [k]. *)
Definition builtin (exePath k : string) : Plugin :=
  {| Path := exePath; Args := ["plugin-builtin"; k]; MD5 := "";
     App := None; AppMeta := None; used := false |}.

(** The line [Discover] logs for a plugin. *)
Definition detected (pl : Plugin) : string :=
  "[DEBUG] Detected plugin: " +:+ Plugin_String pl.

(** The state [Discover] leaves when it finds the executable at [exePath]. *)
Definition after_Discover (exePath : string) (m : PluginManager) (s : State) : State :=
  let keys := range_keys (ranges s) (PluginMap m) in
  with_logs (logs s ++ (detected ∘ builtin exePath <$> keys))
    (with_heap (heap s ++ (builtin exePath <$> keys))
       (with_ranges (S (ranges s)) s)).

(** The tuples a plugin declares; none while it has no metadata. *)
Definition tuples_of (pl : Plugin) : list Tuple :=
  match AppMeta pl with
  | Some meta => Tuples meta
  | None => []
  end.

(** The table after the factory of [pl] is stored under each of its tuples. *)
Definition install (pl : Plugin) (apps : gmap Tuple (option Factory))
  : gmap Tuple (option Factory) :=
  foldl (fun t tuple => <[tuple := App pl]> t) apps (tuples_of pl).

(** The table after the plugins [pls] are installed one after the other. *)
Definition configure (pls : list Plugin) (apps : gmap Tuple (option Factory))
  : gmap Tuple (option Factory) :=
  foldl (fun t pl => install pl t) apps pls.

(** The handles [l] point to the structs [pls], all of which have metadata. *)
Definition with_metadata (s : State) (l : list addr) (pls : list Plugin) : Prop :=
  Forall2 (fun p pl => heap s !! p = Some pl /\ is_Some (AppMeta pl)) l pls.

(** The struct [CalcMD5] leaves behind: the hash is stored when the file
    could be read. *)
Definition hashed (s : State) (pl : Plugin) : Plugin :=
  match fs s !! Path pl with
  | Some (File data) => with_MD5 (hex_EncodeToString (md5_Sum data)) pl
  | _ => pl
  end.

(** The error [CalcMD5] returns for a plugin, if any. *)
Definition hash_error (s : State) (pl : Plugin) : option error :=
  match fs s !! Path pl with
  | Some (File _) => None
  | Some Dir => Some (ErrRead (Path pl))
  | None => Some (ErrOpen (Path pl))
  end.

(** The fields of a plugin other than its hash. *)
Definition unhashed (pl : Plugin)
  : string * list string * option Factory * option Meta * bool :=
  (Path pl, Args pl, App pl, AppMeta pl, used pl).

(** Whether the handle [p] is marked as used. *)
Definition is_used (s : State) (p : addr) : bool :=
  match heap s !! p with
  | Some pl => used pl
  | None => false
  end.

(** The handles of a slice that are marked as used, in the order of the slice. *)
Definition used_of (s : State) (l : list addr) : list addr :=
  filter (fun p => is_used s p = true) l.

(** The document that encodes the plugins of [l] under the current version. *)
Definition manifest_of (s : State) (l : list addr) : manifest_doc :=
  {| doc_version := usedPluginVersion;
     doc_plugins := Some (Some <$> omap (fun p => plugin_to_doc <$> heap s !! p) l) |}.

(** The objects among the entries of a manifest. *)
Definition objects (entries : list (option plugin_doc)) : list plugin_doc :=
  omap id entries.

(** The slice the decoder builds for the entries of a manifest when [next]
    is the first free address and [nil] the nil pointer. *)
Fixpoint decoded_slice (nil next : addr) (entries : list (option plugin_doc))
  : list addr :=
  match entries with
  | [] => []
  | None :: es => nil :: decoded_slice nil next es
  | Some _ :: es => next :: decoded_slice nil (S next) es
  end.

(** The slice and the heap the decoder leaves for a manifest. *)
Definition decoded (s : State) (d : manifest_doc) : option (list addr) :=
  (fun es => decoded_slice (length (heap s) + length es) (length (heap s)) es)
    <$> doc_plugins d.

Definition after_decode (s : State) (d : manifest_doc) : State :=
  with_heap (heap s ++ (doc_to_plugin <$> objects (elems (doc_plugins d)))) s.

(** The operations the package offers on a manager and on its plugins,
    together with a call of a capability factory. *)
Inductive Op :=
| OpDiscover
| OpLoadAll
| OpLoadUsed (path : string)
| OpStoreUsed (path : string)
| OpConfigureCore (core : CoreConfig)
| OpCalcMD5 (p : addr)
| OpLoad (p : addr)
| OpUsed (p : addr)
| OpCall (f : option Factory).

(** Running an operation; the value it returns is dropped. *)
Definition run (op : Op) (m : PluginManager) : M PluginManager :=
  match op with
  | OpDiscover => '(m', _) <- Discover m ;; ret m'
  | OpLoadAll => '(m', _) <- LoadAll m ;; ret m'
  | OpLoadUsed path => '(m', _) <- LoadUsed m path ;; ret m'
  | OpStoreUsed path => _ <- StoreUsed m path ;; ret m
  | OpConfigureCore core => _ <- ConfigureCore m core ;; ret m
  | OpCalcMD5 p => _ <- CalcMD5 p ;; ret m
  | OpLoad p => _ <- Load p ;; ret m
  | OpUsed p => _ <- Used p ;; ret m
  | OpCall f => _ <- call f ;; ret m
  end.

(** The operation loads the handle [a] again, and the load succeeds. *)
Definition reloads (op : Op) (m : PluginManager) (s : State) (a : addr) : Prop :=
  (op = OpLoad a \/ (op = OpLoadAll /\ a ∈ elems (plugins m))) /\
  exists pl, heap s !! a = Some pl /\ load_error pl = None.

(** ** The goroutines of a pass

    [LoadAll] and [StoreUsed] start one goroutine per handle:
    [defer wg.Done(); sema.Acquire(); defer sema.Release(); body].
    A goroutine is [Spawned] until its [Acquire] returns, is [Working]
    while it runs its body, has [Finished] when the body is done and the
    deferred [Release] is still to run, and has [Exited] after it. *)
Inductive phase := Spawned | Working | Finished | Exited.

(** Modelled from the spec: the semaphore of helper/semaphore, which is not
    part of the sources at hand.  The specification calls it a bounded
    concurrency limiter: a task acquires a permit before doing work, blocks
    until one frees up, and releases it on completion.  The state of a
    semaphore is its number of free permits; [None] means that the caller
    blocks. *)
Definition semaphore_New (n : nat) : nat := n.

Definition Acquire (sema : nat) : option nat :=
  match sema with
  | 0 => None
  | S free => Some free
  end.

Definition Release (sema : nat) : nat := S sema.

(** The goroutines of one pass together with what they share: the
    semaphore, the error variable and the state. *)
Record pool := {
  sema : nat;
  tasks : list phase;
  shared_err : option error;
  world : State
}.

(** The pool when all goroutines have been started: [sema] is
    [semaphore.New(runtime.NumCPU())]. *)
Definition pool_start (l : list addr) (err : option error) (s : State) : pool :=
  {| sema := semaphore_New NumCPU; tasks := replicate (length l) Spawned;
     shared_err := err; world := s |}.

(** The pool when all goroutines have exited and [wg.Wait()] returns. *)
Definition pool_done (l : list addr) (err : option error) (s : State) : pool :=
  {| sema := NumCPU; tasks := replicate (length l) Exited;
     shared_err := err; world := s |}.

(** One step of one goroutine; goroutine [i] works on the handle [l !! i]. *)
Inductive pool_step (body : addr -> option error -> M (option error))
          (l : list addr) : pool -> pool -> Prop :=
| step_Acquire i free pl :
    tasks pl !! i = Some Spawned ->
    Acquire (sema pl) = Some free ->
    pool_step body l pl
      {| sema := free; tasks := <[i := Working]> (tasks pl);
         shared_err := shared_err pl; world := world pl |}
| step_body i p err' s' pl :
    tasks pl !! i = Some Working ->
    l !! i = Some p ->
    body p (shared_err pl) (world pl) = Returns err' s' ->
    pool_step body l pl
      {| sema := sema pl; tasks := <[i := Finished]> (tasks pl);
         shared_err := err'; world := s' |}
| step_Release i pl :
    tasks pl !! i = Some Finished ->
    pool_step body l pl
      {| sema := Release (sema pl); tasks := <[i := Exited]> (tasks pl);
         shared_err := shared_err pl; world := world pl |}.

(** The permits a goroutine holds. *)
Definition holds (ph : phase) : nat :=
  match ph with
  | Working | Finished => 1
  | Spawned | Exited => 0
  end.

(** The goroutines that are between their [Acquire] and their [Release]. *)
Definition in_flight (pl : pool) : nat := sum_list (holds <$> tasks pl).

(** Whether a goroutine has run its body. *)
Definition has_run (ph : phase) : bool :=
  match ph with
  | Finished | Exited => true
  | Spawned | Working => false
  end.

(** The handles whose goroutine has run its body. *)
Fixpoint ran (ts : list phase) (l : list addr) : list addr :=
  match ts, l with
  | ph :: ts', p :: l' => if has_run ph then p :: ran ts' l' else ran ts' l'
  | _, _ => []
  end.

(** All goroutines have called [wg.Done()]: [wg.Wait()] returns. *)
Definition all_exited (pl : pool) : Prop := Forall (fun ph => ph = Exited) (tasks pl).

(** The steps a goroutine has yet to take. *)
Definition steps_left (ph : phase) : nat :=
  match ph with
  | Spawned => 3
  | Working => 2
  | Finished => 1
  | Exited => 0
  end.

Definition remaining (pl : pool) : nat := sum_list (steps_left <$> tasks pl).

(** The goroutines that are running their body. *)
Definition working (pl : pool) : nat :=
  sum_list ((fun ph => match ph with Working => 1 | _ => 0 end) <$> tasks pl).

(** ** Further definitions used in the statements *)

(** The digits [hex.EncodeToString] writes. *)
Definition hex_digits : list ascii := String.list_ascii_of_string "0123456789abcdef".

(** Every factory stored in a struct marks that very struct when called. *)
Definition own_factories (s : State) : Prop :=
  forall p pl f, heap s !! p = Some pl -> App pl = Some f -> fac_plugin f = p.

(** ** Assumptions on the libraries *)

(** A [range] over a map visits every key once, in an order of its own. *)
Hypothesis range_keys_perm :
  forall n (pm : gmap string ServeMux), range_keys n pm ≡ₚ (map_to_list pm).*1.

(** An MD5 digest has 16 bytes. *)
Hypothesis md5_Sum_length : forall data, length (md5_Sum data) = 16.

(** The documents that encoding/json reads back as they were written: the
    encoder replaces the bytes of a string that are not valid UTF-8. *)
Variable json_exact : manifest_doc -> Prop.
Hypothesis json_roundtrip :
  forall d, json_exact d -> json_Decode (json_Encode d) = Some d.

(** ** Reasoning about the monad *)

Ltac unfold_go :=
  unfold update, deref, modify, get, bind, ret, panic in *.

Lemma bind_Returns {A B} (c : M A) (k : A -> M B) s a s' :
  c s = Returns a s' -> bind c k s = k a s'.
Proof. intros H. unfold bind. by rewrite H. Qed.

Lemma bind_inv {A B} (c : M A) (k : A -> M B) s b s' :
  bind c k s = Returns b s' ->
  exists a s1, c s = Returns a s1 /\ k a s1 = Returns b s'.
Proof.
  unfold bind. destruct (c s) as [a s1|] eqn:E; [|done].
  intros H. by exists a, s1.
Qed.

Lemma bind_assoc {A B C} (c : M A) (k1 : A -> M B) (k2 : B -> M C) s :
  bind (bind c k1) k2 s = bind c (fun a => bind (k1 a) k2) s.
Proof. unfold bind. by destruct (c s). Qed.

Lemma deref_Some p pl s : heap s !! p = Some pl -> deref p s = Returns pl s.
Proof. intros H. unfold deref. by rewrite H. Qed.

Lemma update_Some p f pl s :
  heap s !! p = Some pl ->
  update p f s = Returns tt (with_heap (<[p := f pl]> (heap s)) s).
Proof. intros H. unfold_go. by rewrite H. Qed.

Lemma with_heap_id s : with_heap (heap s) s = s.
Proof. by destruct s. Qed.

Lemma range_acc_app {A B} (body : A -> B -> M B) l1 l2 acc s :
  range_acc body (l1 ++ l2) acc s =
  bind (range_acc body l1 acc) (range_acc body l2) s.
Proof.
  revert acc s. induction l1 as [|x l1 IH]; intros acc s; simpl.
  - done.
  - unfold bind in *. destruct (body x acc s); [|done]. by rewrite IH.
Qed.

(** ** [Load] *)

Lemma update_bind {B} p f pl (k : unit -> M B) s :
  heap s !! p = Some pl ->
  bind (update p f) k s = k tt (with_heap (<[p := f pl]> (heap s)) s).
Proof. intros H. by rewrite (bind_Returns _ _ _ _ _ (update_Some _ f _ _ H)). Qed.

Lemma deref_bind {B} p pl (k : Plugin -> M B) s :
  heap s !! p = Some pl -> bind (deref p) k s = k pl s.
Proof. intros H. by rewrite (bind_Returns _ _ _ _ _ (deref_Some _ _ _ H)). Qed.

Lemma lookup_heap_insert p (x pl : Plugin) (h : list Plugin) :
  h !! p = Some pl -> <[p := x]> h !! p = Some x.
Proof. intros H. apply list_lookup_insert_eq. by eapply lookup_lt_Some. Qed.

Ltac solve_lookup :=
  simpl; first [ eassumption | eapply lookup_heap_insert; solve_lookup ].

Lemma exec_Command_spec path args s :
  exec_Command path args s =
  Returns (length (execs s)) (with_execs (execs s ++ [(path, args)]) s).
Proof. done. Qed.

Lemma Load_spec p pl s :
  heap s !! p = Some pl ->
  Load p s =
  Returns (load_error pl)
    (with_heap (<[p := loaded p (length (execs s)) pl]> (heap s))
       (with_execs (execs s ++ [cmd pl]) s)).
Proof.
  intros Hp. unfold Load. rewrite (deref_bind _ _ _ _ Hp).
  rewrite (bind_Returns _ _ _ _ _ (exec_Command_spec _ _ _)).
  unfold loaded, load_error, cmd.
  set (s1 := with_execs _ s).
  assert (H1 : heap s1 !! p = Some pl) by done.
  destruct (launch (Path pl) (Args pl)) as [e|e|meta [e|]].
  - unfold ret. f_equal. change (heap s) with (heap s1).
    by rewrite list_insert_id, with_heap_id.
  - unfold ret. f_equal. change (heap s) with (heap s1).
    by rewrite list_insert_id, with_heap_id.
  - by rewrite (update_bind _ _ _ _ _ H1).
  - rewrite (update_bind _ _ _ _ _ H1).
    erewrite update_bind by solve_lookup.
    erewrite update_bind by solve_lookup.
    unfold ret. simpl. by rewrite !list_insert_insert_eq.
Qed.

Lemma ident_loaded p c pl :
  Path (loaded p c pl) = Path pl /\ Args (loaded p c pl) = Args pl /\
  MD5 (loaded p c pl) = MD5 pl.
Proof.
  unfold loaded. by destruct (launch (Path pl) (Args pl)) as [?|?|? [?|]].
Qed.

Lemma load_error_loaded p c pl : load_error (loaded p c pl) = load_error pl.
Proof.
  destruct (ident_loaded p c pl) as (HP & HA & _).
  unfold load_error. by rewrite HP, HA.
Qed.

Lemma used_loaded p c pl :
  used (loaded p c pl) =
  match load_error pl with
  | None => false
  | Some _ => used pl
  end.
Proof.
  unfold loaded, load_error.
  by destruct (launch (Path pl) (Args pl)) as [?|?|? [?|]].
Qed.

Lemma load_task_spec p pl merr s :
  heap s !! p = Some pl ->
  load_task p merr s =
  Returns (match load_error pl with
           | Some e => Some (multierror_Append merr (ErrLoadPlugin (Path pl) e))
           | None => merr
           end) (after_Load p pl s).
Proof.
  intros Hp. unfold load_task.
  rewrite (bind_Returns _ _ _ _ _ (Load_spec _ _ _ Hp)).
  fold (after_Load p pl s).
  destruct (load_error pl) as [e|]; [|done].
  erewrite deref_bind by (unfold after_Load; solve_lookup).
  destruct (ident_loaded p (length (execs s)) pl) as (-> & _). done.
Qed.

(** ** The load pass of [LoadAll] *)

Lemma ident_fields pl1 pl2 :
  ident pl1 = ident pl2 ->
  Path pl1 = Path pl2 /\ Args pl1 = Args pl2 /\ MD5 pl1 = MD5 pl2.
Proof. unfold ident. by intros [= -> -> ->]. Qed.

Lemma ident_lookup s s' (p : addr) :
  ident <$> heap s' = ident <$> heap s ->
  ident <$> (heap s' !! p) = ident <$> (heap s !! p).
Proof. intros H. by rewrite <- !list_lookup_fmap, H. Qed.

Lemma ident_load_error pl1 pl2 :
  ident pl1 = ident pl2 -> load_error pl1 = load_error pl2.
Proof.
  intros H. destruct (ident_fields _ _ H) as (HP & HA & _).
  unfold load_error. by rewrite HP, HA.
Qed.

Lemma ident_valid s s' l :
  ident <$> heap s' = ident <$> heap s -> valid s l -> valid s' l.
Proof.
  intros H Hv. unfold valid. eapply Forall_impl; [exact Hv|]. intros p [pl Hp].
  pose proof (ident_lookup s s' p H) as E. rewrite Hp in E.
  destruct (heap s' !! p); [by eexists | done].
Qed.

Lemma ident_load_failures s s' l :
  ident <$> heap s' = ident <$> heap s ->
  load_failures s' l = load_failures s l.
Proof.
  intros H. unfold load_failures. induction l as [|p l IH]; [done|].
  csimpl. rewrite IH. pose proof (ident_lookup s s' p H) as E.
  destruct (heap s' !! p) as [pl'|], (heap s !! p) as [pl|]; try done.
  simpl in E. apply (inj Some) in E.
  rewrite (ident_load_error _ _ E).
  by destruct (ident_fields _ _ E) as (-> & _).
Qed.

Lemma ident_cmds s s' l :
  ident <$> heap s' = ident <$> heap s -> cmds s' l = cmds s l.
Proof.
  intros H. unfold cmds. induction l as [|p l IH]; [done|].
  csimpl. rewrite IH. pose proof (ident_lookup s s' p H) as E.
  destruct (heap s' !! p) as [pl'|], (heap s !! p) as [pl|]; try done.
  simpl in E. apply (inj Some) in E. unfold cmd. simpl.
  by destruct (ident_fields _ _ E) as (-> & -> & _).
Qed.

Lemma ident_after_Load p pl s :
  heap s !! p = Some pl ->
  ident <$> heap (after_Load p pl s) = ident <$> heap s.
Proof.
  intros Hp. unfold after_Load. simpl. rewrite list_fmap_insert.
  apply list_insert_id. rewrite list_lookup_fmap, Hp. simpl. f_equal.
  unfold ident.
  by destruct (ident_loaded p (length (execs s)) pl) as (-> & -> & ->).
Qed.

Lemma same_env_refl s : same_env s s.
Proof. by repeat split. Qed.

Lemma same_env_trans s1 s2 s3 : same_env s1 s2 -> same_env s2 s3 -> same_env s1 s3.
Proof.
  unfold same_env. intros (?&?&?&?&?&?) (?&?&?&?&?&?).
  repeat split; congruence.
Qed.

Lemma load_pass_spec l : forall merr s,
  valid s l ->
  exists s',
    range_acc load_task l merr s =
      Returns (append_errors merr (load_failures s l)) s' /\
    execs s' = execs s ++ cmds s l /\
    ident <$> heap s' = ident <$> heap s /\
    same_env s s' /\
    (forall a pl, heap s !! a = Some pl ->
       exists pl', heap s' !! a = Some pl' /\
         (a ∉ l -> pl' = pl) /\
         (a ∈ l -> used pl' = match load_error pl with
                              | None => false
                              | Some _ => used pl
                              end)).
Proof.
  induction l as [|p l IH]; intros merr s Hv.
  - exists s. simpl. unfold cmds. simpl. rewrite app_nil_r.
    repeat split; try done.
    intros a pl Ha. exists pl. split; [done|]. split; [done|].
    intros H. by apply elem_of_nil in H.
  - apply Forall_cons in Hv as [[pl Hp] Hv].
    pose proof (ident_after_Load p pl s Hp) as Hid.
    destruct (IH (match load_error pl with
                  | Some e => Some (multierror_Append merr (ErrLoadPlugin (Path pl) e))
                  | None => merr
                  end) (after_Load p pl s)) as (s' & Hrun & Hex & Hid' & Henv & Hheap).
    { by eapply ident_valid. }
    exists s'. split; [|split; [|split; [|split]]].
    + simpl. rewrite (bind_Returns _ _ _ _ _ (load_task_spec _ _ merr _ Hp)).
      rewrite Hrun. f_equal. rewrite (ident_load_failures _ _ _ Hid).
      unfold load_failures at 2. simpl. rewrite Hp. fold (load_failures s l).
      by destruct (load_error pl).
    + rewrite Hex, (ident_cmds _ _ _ Hid). unfold cmds at 2. simpl.
      rewrite Hp. simpl. by rewrite <- app_assoc.
    + by rewrite Hid'.
    + eapply same_env_trans; [|exact Henv]. by repeat split.
    + intros a pla Ha.
      destruct (decide (a = p)) as [->|Hne].
      * rewrite Hp in Ha. injection Ha as <-.
        destruct (Hheap p (loaded p (length (execs s)) pl)) as (pl' & Hl & Hout & Hin).
        { unfold after_Load. solve_lookup. }
        exists pl'. split; [done|]. split.
        { intros Hnin. exfalso. apply Hnin. apply elem_of_cons. by left. }
        intros _. destruct (decide (p ∈ l)) as [Hpl|Hpl].
        -- rewrite (Hin Hpl), load_error_loaded, used_loaded.
           by destruct (load_error pl).
        -- rewrite (Hout Hpl). apply used_loaded.
      * destruct (Hheap a pla) as (pl' & Hl & Hout & Hin).
        { unfold after_Load. simpl. by rewrite list_lookup_insert_ne. }
        exists pl'. split; [done|]. split.
        -- intros Hnin. apply Hout. intros Hin'. apply Hnin.
           apply elem_of_cons. by right.
        -- intros Hin'. apply Hin. apply elem_of_cons in Hin' as [?|?]; done.
Qed.

(** ** Allocation and [Discover] *)

Lemma alloc_range {A} (f : A -> Plugin) l : forall acc s,
  range_acc (fun x acc => p <- new_Plugin (f x) ;; ret (acc ++ [p])) l acc s =
  Returns (acc ++ seq (length (heap s)) (length l))
          (with_heap (heap s ++ (f <$> l)) s).
Proof.
  induction l as [|x l IH]; intros acc s; simpl.
  - by rewrite !app_nil_r, with_heap_id.
  - unfold bind at 1. unfold bind at 1. unfold new_Plugin at 1. unfold ret at 1.
    rewrite IH. simpl. rewrite length_app. simpl.
    rewrite Nat.add_1_r, <- !app_assoc. done.
Qed.

Lemma lookup_fresh (h l : list Plugin) :
  Forall2 (fun a pl => (h ++ l) !! a = Some pl) (seq (length h) (length l)) l.
Proof.
  revert h. induction l as [|x l IH]; intros h; simpl; constructor.
  - by rewrite list_lookup_middle.
  - specialize (IH (h ++ [x])). rewrite length_app in IH. simpl in IH.
    rewrite Nat.add_1_r, <- app_assoc in IH. exact IH.
Qed.

Lemma log_range h l pls :
  Forall2 (fun a pl => h !! a = Some pl) l pls ->
  forall s, heap s = h ->
  range_acc (fun r (_ : unit) =>
               pl <- deref r ;;
               log_Printf ("[DEBUG] Detected plugin: " +:+ Plugin_String pl))
            l tt s =
  Returns tt (with_logs (logs s ++ (detected <$> pls)) s).
Proof.
  induction 1 as [|a pl l pls Ha _ IH]; intros s Hs.
  - simpl. unfold ret. f_equal. rewrite app_nil_r. by destruct s.
  - simpl. unfold bind at 1. rewrite <- Hs in Ha.
    rewrite (deref_bind _ _ _ _ Ha). unfold log_Printf, modify.
    rewrite IH by done. simpl. by rewrite <- app_assoc.
Qed.

Lemma range_map_spec pm s :
  range_map pm s =
  Returns (range_keys (ranges s) pm) (with_ranges (S (ranges s)) s).
Proof. done. Qed.

Lemma Discover_testing m s :
  testingMode s = true ->
  Discover m s = Returns (with_plugins (Some []) m, None) s.
Proof. intros H. unfold Discover, bind, get. by rewrite H. Qed.

Lemma Discover_no_executable m s e :
  testingMode s = false -> exe s = Err e ->
  Discover m s = Returns (m, Some e) s.
Proof. intros H1 H2. unfold Discover, bind, get. by rewrite H1, H2. Qed.

Lemma Discover_spec m s exePath :
  testingMode s = false -> exe s = Val exePath ->
  Discover m s =
  Returns (with_plugins
             (Some (seq (length (heap s))
                        (length (range_keys (ranges s) (PluginMap m))))) m,
           None)
          (after_Discover exePath m s).
Proof.
  intros H1 H2. unfold Discover.
  change (bind get ?k s) with (k s s). cbv beta. rewrite H1, H2.
  set (keys := range_keys (ranges s) (PluginMap m)).
  set (s1 := with_ranges (S (ranges s)) s).
  rewrite bind_assoc.
  rewrite (bind_Returns _ _ _ _ _ (range_map_spec _ _)). fold keys s1.
  rewrite bind_assoc.
  erewrite bind_Returns by (apply alloc_range with (f := builtin exePath)).
  change (bind (ret ?a) ?k ?s') with (k a s'). cbv beta iota.
  erewrite bind_Returns; cycle 1.
  { apply log_range with (pls := builtin exePath <$> keys)
                         (h := heap s ++ (builtin exePath <$> keys)); [|done].
    pose proof (lookup_fresh (heap s) (builtin exePath <$> keys)) as L.
    by rewrite length_fmap in L. }
  unfold ret, after_Discover. fold keys. fold s1. simpl.
  by rewrite list_fmap_compose.
Qed.


Lemma Forall2_lookup_fmap (h : list Plugin) l pls :
  Forall2 (fun a pl => h !! a = Some pl) l pls ->
  (fun a => h !! a) <$> l = Some <$> pls.
Proof. induction 1 as [|a pl l pls Ha _ IH]; csimpl; [done|]. by rewrite Ha, IH. Qed.

Lemma Discover_builtins m s exePath :
  testingMode s = false -> exe s = Val exePath ->
  exists s',
    let l := seq (length (heap s)) (size (PluginMap m)) in
    Discover m s = Returns (with_plugins (Some l) m, None) s' /\
    (fun a => heap s' !! a) <$> l
      ≡ₚ (fun k => Some (builtin exePath k)) <$> (map_to_list (PluginMap m)).*1 /\
    testingMode s' = false /\ exe s' = Val exePath.
Proof.
  intros H1 H2. exists (after_Discover exePath m s).
  pose proof (range_keys_perm (ranges s) (PluginMap m)) as Hperm.
  assert (Hlen : length (range_keys (ranges s) (PluginMap m)) = size (PluginMap m)).
  { by rewrite Hperm, length_fmap, length_map_to_list. }
  simpl. split; [|split; [|done]].
  - rewrite (Discover_spec m s exePath H1 H2). by rewrite Hlen.
  - pose proof (lookup_fresh (heap s)
                  (builtin exePath <$> range_keys (ranges s) (PluginMap m))) as L.
    rewrite length_fmap, Hlen in L.
    unfold after_Discover. simpl.
    rewrite (Forall2_lookup_fmap _ _ _ L), <- list_fmap_compose.
    by apply fmap_Permutation.
Qed.

(** C8: outside testing mode, and when the path of the running executable
    is known, [Discover] replaces the handle set, whatever it was, by fresh
    handles that are, up to order, one per key of [PluginMap], each with
    the executable as path and ["plugin-builtin"; key] as arguments; a
    second call replaces them again by as many handles. *)
Theorem Discover_replaces_with_builtins m s exePath :
  testingMode s = false -> exe s = Val exePath ->
  exists l s',
    Discover m s = Returns (with_plugins (Some l) m, None) s' /\
    NoDup l /\
    (forall a, a ∈ l -> heap s !! a = None) /\
    (fun a => heap s' !! a) <$> l
      ≡ₚ (fun k => Some (builtin exePath k)) <$> (map_to_list (PluginMap m)).*1 /\
    NoDup (map_to_list (PluginMap m)).*1 /\
    length l = size (PluginMap m) /\
    exists l2 s2,
      Discover (with_plugins (Some l) m) s' =
        Returns (with_plugins (Some l2) m, None) s2 /\
      (forall a, a ∈ l2 -> a ∉ l) /\
      (fun a => heap s2 !! a) <$> l2
        ≡ₚ (fun k => Some (builtin exePath k)) <$> (map_to_list (PluginMap m)).*1 /\
      length l2 = length l.
Proof.
  intros H1 H2.
  destruct (Discover_builtins m s exePath H1 H2) as (s' & HD & HP & H1' & H2').
  simpl in HD, HP.
  exists (seq (length (heap s)) (size (PluginMap m))), s'.
  split; [exact HD|]. split; [apply NoDup_seq|].
  split. { intros a Ha. apply elem_of_seq in Ha. apply lookup_ge_None. lia. }
  split; [exact HP|]. split; [apply NoDup_fst_map_to_list|].
  split; [apply length_seq|].
  destruct (Discover_builtins (with_plugins (Some (seq (length (heap s))
              (size (PluginMap m)))) m) s' exePath H1' H2')
    as (s2 & HD2 & HP2 & _ & _).
  simpl in HD2, HP2.
  exists (seq (length (heap s')) (size (PluginMap m))), s2.
  split; [exact HD2|]. split; [|split; [exact HP2|by rewrite !length_seq]].
  intros a Ha Ha'. apply elem_of_seq in Ha, Ha'.
  assert (length (heap s') = length (heap s) + size (PluginMap m)); [|lia].
  rewrite (Discover_spec m s exePath H1 H2) in HD. injection HD as _ <-.
  unfold after_Discover. simpl. rewrite length_app, length_fmap.
  by rewrite (range_keys_perm (ranges s) (PluginMap m)), length_fmap, length_map_to_list.
Qed.

(** ** [LoadAll] *)

Lemma append_errors_multi errs : forall es,
  Forall (fun e => flatten e = [e]) errs ->
  append_errors (Some (MultiError es)) errs = Some (MultiError (es ++ errs)).
Proof.
  induction errs as [|e errs IH]; intros es H; simpl.
  - by rewrite app_nil_r.
  - apply Forall_cons in H as [He H]. unfold multierror_Append. simpl.
    rewrite He. unfold append_errors in IH. rewrite IH by done.
    by rewrite <- app_assoc.
Qed.

Lemma append_errors_aggregate errs :
  Forall (fun e => flatten e = [e]) errs ->
  append_errors None errs = aggregate errs.
Proof.
  destruct errs as [|e errs]; [done|]. intros H.
  apply Forall_cons in H as [He H]. simpl. unfold multierror_Append.
  simpl. rewrite He. by apply (append_errors_multi errs [e]).
Qed.

Lemma load_failures_flat s l :
  Forall (fun e => flatten e = [e]) (load_failures s l).
Proof.
  apply Forall_forall. intros e He. unfold load_failures in He.
  apply list_elem_of_omap in He as (p & _ & Hp).
  destruct (heap s !! p) as [pl|]; [|done].
  destruct (load_error pl); [|done]. simpl in Hp. by injection Hp as <-.
Qed.

Lemma cmds_length s l : valid s l -> length (cmds s l) = length l.
Proof.
  unfold cmds. induction 1 as [|p l [pl Hp] _ IH]; [done|].
  csimpl. rewrite Hp. simpl. by rewrite IH.
Qed.

Lemma LoadAll_Some m l s :
  plugins m = Some l ->
  LoadAll m s = bind (range_acc load_task l None) (fun merr => ret (m, merr)) s.
Proof.
  intros H. unfold LoadAll, Plugins. rewrite H.
  change (bind (ret ?a) ?k ?s') with (k a s'). cbv beta iota. by rewrite H.
Qed.

Lemma LoadAll_None m s m1 e1 s1 :
  plugins m = None ->
  Discover m s = Returns (m1, e1) s1 ->
  LoadAll m s =
  match e1 with
  | Some e => Returns (m1, Some e) s1
  | None => bind (range_acc load_task (elems (plugins m1)) None)
                 (fun merr => ret (m1, merr)) s1
  end.
Proof.
  intros H HD. unfold LoadAll. unfold Plugins at 1. rewrite H.
  rewrite (bind_Returns _ _ _ _ _ HD). by destruct e1.
Qed.

(** The load pass on a slice of valid pointers. *)
Lemma load_pass_returns (m : PluginManager) l s :
  valid s l ->
  exists s',
    bind (range_acc load_task l None) (fun merr => ret (m, merr)) s =
      Returns (m, aggregate (load_failures s' l)) s' /\
    execs s' = execs s ++ cmds s' l /\
    length (cmds s' l) = length l /\
    ident <$> heap s' = ident <$> heap s /\
    same_env s s'.
Proof.
  intros Hv.
  destruct (load_pass_spec l None s Hv) as (s' & Hrun & Hex & Hid & Henv & _).
  exists s'. rewrite (bind_Returns _ _ _ _ _ Hrun).
  rewrite (ident_load_failures _ _ _ Hid), (ident_cmds _ _ _ Hid).
  rewrite append_errors_aggregate by apply load_failures_flat.
  repeat split; try done; try apply Henv. by apply cmds_length.
Qed.

Lemma valid_fresh (h l : list Plugin) s :
  heap s = h ++ l -> valid s (seq (length h) (length l)).
Proof.
  intros Hs. unfold valid. rewrite Hs.
  pose proof (lookup_fresh h l) as L.
  apply Forall_forall. intros a Ha.
  apply list_elem_of_lookup in Ha as [i Hi].
  destruct (Forall2_lookup_l _ _ _ _ _ L Hi) as (pl & _ & Hpl). by exists pl.
Qed.


(** C10: [LoadAll] runs [Discover] exactly when the slice of the manager
    is nil.  With a nil slice it is [Discover] followed, unless that failed,
    by the load pass over what was discovered.  With a non-nil slice, be it
    empty, the manager is returned as it was, no map is iterated, nothing is
    allocated or logged, and only the handles of that slice are loaded: for
    an empty slice nothing happens at all.  The slice [Discover] leaves in
    testing mode is of that kind. *)
Theorem LoadAll_discovers_iff_nil m s :
  (plugins m = None ->
     exists m1 e1 s1,
       Discover m s = Returns (m1, e1) s1 /\
       LoadAll m s =
         match e1 with
         | Some e => Returns (m1, Some e) s1
         | None => bind (range_acc load_task (elems (plugins m1)) None)
                        (fun merr => ret (m1, merr)) s1
         end /\
       (testingMode s = false -> e1 = None -> ranges s1 = S (ranges s))) /\
  (forall l, plugins m = Some l -> valid s l ->
     exists r s',
       LoadAll m s = Returns (m, r) s' /\
       execs s' = execs s ++ cmds s' l /\
       ranges s' = ranges s /\ logs s' = logs s /\
       length (heap s') = length (heap s)) /\
  (plugins m = Some [] -> LoadAll m s = Returns (m, None) s) /\
  (testingMode s = true ->
     Discover m s = Returns (with_plugins (Some []) m, None) s /\
     LoadAll (with_plugins (Some []) m) s =
       Returns (with_plugins (Some []) m, None) s).
Proof.
  split; [|split; [|split]].
  - intros Hm.
    destruct (testingMode s) eqn:Ht; [|destruct (exe s) as [exePath|e] eqn:He].
    + pose proof (Discover_testing m s Ht) as HD.
      eexists _, _, _. split; [exact HD|].
      split; [exact (LoadAll_None m s _ _ _ Hm HD)|done].
    + pose proof (Discover_spec m s exePath Ht He) as HD.
      eexists _, _, _. split; [exact HD|].
      split; [exact (LoadAll_None m s _ _ _ Hm HD)|done].
    + pose proof (Discover_no_executable m s e Ht He) as HD.
      eexists _, _, _. split; [exact HD|].
      split; [exact (LoadAll_None m s _ _ _ Hm HD)|done].
  - intros l Hm Hv.
    destruct (load_pass_returns m l s Hv) as (s' & Hrun & Hex & _ & Hid & Henv).
    exists (aggregate (load_failures s' l)), s'.
    rewrite (LoadAll_Some m l s Hm). split; [done|]. split; [done|].
    destruct Henv as (_ & Hlogs & _ & _ & Hranges & _). repeat split; try done.
    by rewrite <- (length_fmap ident (heap s')), Hid, length_fmap.
  - intros Hm. by rewrite (LoadAll_Some m [] s Hm).
  - intros Ht. split; [by apply Discover_testing|].
    by rewrite (LoadAll_Some _ [] s).
Qed.

(** ** [LoadUsed] *)

Lemma os_Open_spec path s :
  os_Open path s =
  Returns (match fs s !! path with
           | Some nd => Val nd
           | None => Err (ErrOpen path)
           end) s.
Proof. unfold os_Open, bind, get. by destruct (fs s !! path). Qed.

Lemma decode_range nil entries : forall acc s,
  range_acc (fun (entry : option plugin_doc) l =>
               match entry with
               | None => ret (l ++ [nil])
               | Some pd =>
                   p <- new_Plugin (doc_to_plugin pd) ;;
                   ret (l ++ [p])
               end) entries acc s =
  Returns (acc ++ decoded_slice nil (length (heap s)) entries)
          (with_heap (heap s ++ (doc_to_plugin <$> objects entries)) s).
Proof.
  induction entries as [|[pd|] es IH]; intros acc s; simpl.
  - by rewrite !app_nil_r, with_heap_id.
  - unfold bind at 1. unfold bind at 1. unfold new_Plugin at 1. unfold ret at 1.
    rewrite IH. simpl. rewrite length_app. simpl.
    rewrite Nat.add_1_r, <- !app_assoc. done.
  - unfold bind at 1. unfold ret at 1. rewrite IH. by rewrite <- app_assoc.
Qed.

Lemma doc_to_wrapper_spec d s :
  doc_to_wrapper d s =
  Returns {| wrapper_Version := doc_version d; wrapper_Plugins := decoded s d |}
          (after_decode s d).
Proof.
  unfold doc_to_wrapper, decoded, after_decode.
  destruct (doc_plugins d) as [es|]; simpl.
  - change (bind get ?k s) with (k s s). cbv beta zeta.
    by rewrite (bind_Returns _ _ _ _ _ (decode_range _ es [] s)).
  - by rewrite app_nil_r, with_heap_id.
Qed.

Lemma objects_Some (docs : list plugin_doc) : objects (Some <$> docs) = docs.
Proof. unfold objects. induction docs as [|d docs IH]; csimpl; [done|]. by rewrite IH. Qed.

Lemma decoded_slice_Some nil (docs : list plugin_doc) : forall next,
  decoded_slice nil next (Some <$> docs) = seq next (length docs).
Proof. induction docs as [|d docs IH]; intros next; csimpl; [done|]. by rewrite IH. Qed.

Lemma decoded_slice_elem nil es : forall next p,
  p ∈ decoded_slice nil next es -> p = nil \/ next <= p.
Proof.
  induction es as [|[pd|] es IH]; intros next p Hp; simpl in Hp.
  - by apply elem_of_nil in Hp.
  - apply elem_of_cons in Hp as [->|Hp]; [by right|].
    destruct (IH _ _ Hp); [by left|right; lia].
  - apply elem_of_cons in Hp as [->|Hp]; [by left|]. by apply IH.
Qed.

Lemma decoded_slice_null nil es next :
  None ∈ es -> nil ∈ decoded_slice nil next es.
Proof.
  revert next. induction es as [|[pd|] es IH]; intros next Hin.
  - by apply elem_of_nil in Hin.
  - apply elem_of_cons in Hin as [?|Hin]; [done|]. simpl. right. by apply IH.
  - simpl. by left.
Qed.

(** The pointers of a decoded slice lie behind the structs that existed. *)
Lemma decoded_fresh s d l p :
  decoded s d = Some l -> p ∈ l -> length (heap s) <= p.
Proof.
  unfold decoded. destruct (doc_plugins d) as [es|]; [|done].
  intros [= <-] Hp. apply decoded_slice_elem in Hp as [->|?]; lia.
Qed.

Lemma LoadUsed_decoded_any m path s data doc :
  fs s !! path = Some (File data) ->
  json_Decode data = Some doc ->
  LoadUsed m path s =
  (if (doc_version doc >? usedPluginVersion)%Z
   then ret (m, Some ErrUsedVersion)
   else LoadAll (with_plugins (decoded s doc) m)) (after_decode s doc).
Proof.
  intros Hf Hd. unfold LoadUsed.
  rewrite (bind_Returns _ _ _ _ _ (os_Open_spec path s)), Hf. simpl.
  rewrite Hd. by rewrite (bind_Returns _ _ _ _ _ (doc_to_wrapper_spec doc s)).
Qed.

Lemma LoadUsed_decoded m path s data doc (docs : option (list plugin_doc)) :
  fs s !! path = Some (File data) ->
  json_Decode data = Some doc ->
  doc_plugins doc = (fun ds : list plugin_doc => Some <$> ds) <$> docs ->
  LoadUsed m path s =
  (if (doc_version doc >? usedPluginVersion)%Z
   then ret (m, Some ErrUsedVersion)
   else LoadAll (with_plugins
                   ((fun docs => seq (length (heap s)) (length docs)) <$> docs) m))
    (with_heap (heap s ++ (doc_to_plugin <$> elems docs)) s).
Proof.
  intros Hf Hd Hdocs. rewrite (LoadUsed_decoded_any m path s data doc Hf Hd).
  unfold decoded, after_decode. rewrite Hdocs.
  destruct docs as [docs|]; simpl; [|done].
  by rewrite objects_Some, decoded_slice_Some.
Qed.

(** C4: when the file decodes to a manifest whose version is greater than
    [usedPluginVersion], [LoadUsed] returns the error about a newer format,
    and the manager with its slice is as before.  Every struct that existed
    is unchanged (the decoder has allocated structs of its own behind
    them) and no plugin has been launched. *)
Theorem LoadUsed_rejects_newer_version m path s data doc :
  fs s !! path = Some (File data) ->
  json_Decode data = Some doc ->
  (doc_version doc > usedPluginVersion)%Z ->
  exists s',
    LoadUsed m path s = Returns (m, Some ErrUsedVersion) s' /\
    heap s `prefix_of` heap s' /\
    (forall a pl, heap s !! a = Some pl -> heap s' !! a = Some pl) /\
    with_heap (heap s) s' = s.
Proof.
  intros Hf Hd Hv. eexists. split.
  - rewrite (LoadUsed_decoded_any m path s data doc Hf Hd).
    assert ((doc_version doc >? usedPluginVersion)%Z = true) as -> by lia.
    reflexivity.
  - unfold after_decode. simpl. split; [by eexists|]. split; [|by destruct s].
    intros a pl Ha. by apply lookup_app_l_Some.
Qed.

(** ** [ConfigureCore] *)

Lemma install_tuples (f : option Factory) (l : list Tuple) :
  forall (apps : gmap Tuple (option Factory)) s,
  range_acc (fun tuple apps => ret (<[tuple := f]> apps)) l apps s =
  Returns (foldl (fun t tuple => <[tuple := f]> t) apps l) s.
Proof. induction l as [|T l IH]; intros apps s; simpl; [done|]. apply IH. Qed.

Lemma lookup_install_tuples (f : option Factory) l (T : Tuple) :
  forall apps : gmap Tuple (option Factory),
  foldl (fun t tuple => <[tuple := f]> t) apps l !! T =
  if decide (T ∈ l) then Some f else apps !! T.
Proof.
  induction l as [|T' l IH]; intros apps; cbn [foldl].
  - case_decide as H; [by apply elem_of_nil in H|done].
  - rewrite IH.
    destruct (decide (T ∈ l)) as [H1|H1], (decide (T ∈ T' :: l)) as [H2|H2];
      try done.
    + exfalso. apply H2, elem_of_cons. by right.
    + apply elem_of_cons in H2 as [->|?]; [|done]. by rewrite lookup_insert_eq.
    + rewrite lookup_insert_ne; [done|]. intros <-. apply H2, elem_of_cons. by left.
Qed.

Lemma configure_loop s l pls :
  with_metadata s l pls ->
  forall apps,
    range_acc (fun p (apps : gmap Tuple (option Factory)) =>
                 pl <- deref p ;;
                 match AppMeta pl with
                 | None => panic
                 | Some meta =>
                     range_acc (fun tuple apps => ret (<[tuple := App pl]> apps))
                               (Tuples meta) apps
                 end) l apps s =
    Returns (configure pls apps) s.
Proof.
  induction 1 as [|p pl l pls [Hp [meta Hmeta]] _ IH]; intros apps; simpl; [done|].
  unfold bind at 1. rewrite (deref_bind _ _ _ _ Hp), Hmeta.
  rewrite install_tuples. unfold install at 1, tuples_of. rewrite Hmeta.
  apply IH.
Qed.

Lemma lookup_configure (T : Tuple) pls : forall apps,
  configure pls apps !! T =
  match last (filter (fun pl => T ∈ tuples_of pl) pls) with
  | Some pl => Some (App pl)
  | None => apps !! T
  end.
Proof.
  induction pls as [|pl pls IH] using rev_ind; intros apps; [done|].
  unfold configure. rewrite foldl_app. simpl. fold (configure pls apps).
  unfold install. rewrite lookup_install_tuples, filter_app.
  destruct (decide (T ∈ tuples_of pl)) as [Hin|Hnin].
  - rewrite filter_cons_True by done. rewrite filter_nil. by rewrite last_snoc.
  - rewrite filter_cons_False by done. rewrite filter_nil, app_nil_r. apply IH.
Qed.

(** C3, as amended: [ConfigureCore] goes through every handle of the set,
    loaded or not.  When each of them points to a struct that has metadata,
    it returns nil and a table, created if the core had none, in which a
    tuple is bound to the factory of the last handle that declares it, and
    is bound as before when no handle declares it. *)
Theorem ConfigureCore_installs_last_wins m core s pls :
  with_metadata s (elems (plugins m)) pls ->
  exists table,
    ConfigureCore m core s = Returns ({| Apps := Some table |}, None) s /\
    forall T : Tuple,
      table !! T =
      match last (filter (fun pl => T ∈ tuples_of pl) pls) with
      | Some pl => Some (App pl)
      | None => default ∅ (Apps core) !! T
      end.
Proof.
  intros H. exists (configure pls (default ∅ (Apps core))). split.
  - unfold ConfigureCore, Plugins.
    erewrite bind_Returns; [reflexivity|].
    rewrite (configure_loop s _ pls H). by destruct (Apps core).
  - intros T. apply lookup_configure.
Qed.

(** ** [CalcMD5] and the hashing pass of [StoreUsed] *)

Lemma CalcMD5_spec p pl s :
  heap s !! p = Some pl ->
  CalcMD5 p s =
  Returns (hash_error s pl) (with_heap (<[p := hashed s pl]> (heap s)) s).
Proof.
  intros Hp. unfold CalcMD5, hashed, hash_error.
  rewrite (deref_bind _ _ _ _ Hp).
  rewrite (bind_Returns _ _ _ _ _ (os_Open_spec _ s)).
  destruct (fs s !! Path pl) as [[data|]|]; simpl.
  - by rewrite (update_bind _ _ _ _ _ Hp).
  - unfold ret. by rewrite list_insert_id, with_heap_id.
  - unfold ret. by rewrite list_insert_id, with_heap_id.
Qed.

(** The goroutine of [StoreUsed] hands back the [err] of the function as it
    received it, whatever [CalcMD5] returned. *)
Lemma hash_task_spec p pl err s :
  heap s !! p = Some pl ->
  hash_task p err s =
  Returns err (with_heap (<[p := hashed s pl]> (heap s)) s).
Proof.
  intros Hp. unfold hash_task.
  rewrite (bind_Returns _ _ _ _ _ (CalcMD5_spec _ _ _ Hp)). simpl.
  destruct (hash_error s pl) as [e|] eqn:He; [|done].
  assert (hashed s pl = pl) as ->.
  { unfold hashed, hash_error in *. by destruct (fs s !! Path pl) as [[?|]|]. }
  rewrite list_insert_id, with_heap_id by done.
  by rewrite (deref_bind _ _ _ _ Hp).
Qed.

Lemma unhashed_hashed s pl : unhashed (hashed s pl) = unhashed pl.
Proof. unfold hashed. by destruct (fs s !! Path pl) as [[?|]|]. Qed.

Lemma unhashed_valid s s' l :
  unhashed <$> heap s' = unhashed <$> heap s -> valid s l -> valid s' l.
Proof.
  intros H Hv. unfold valid. eapply Forall_impl; [exact Hv|]. intros p Hp.
  apply lookup_lt_is_Some. apply lookup_lt_is_Some in Hp.
  by rewrite <- (length_fmap unhashed), H, length_fmap.
Qed.

Lemma hash_pass_spec l : forall err s,
  valid s l ->
  exists s',
    range_acc hash_task l err s = Returns err s' /\
    s' = with_heap (heap s') s /\
    unhashed <$> heap s' = unhashed <$> heap s /\
    (forall a pl, heap s !! a = Some pl ->
       exists pl', heap s' !! a = Some pl' /\
         (a ∉ l -> pl' = pl) /\
         (a ∈ l -> forall data, fs s !! Path pl = Some (File data) ->
                   MD5 pl' = hex_EncodeToString (md5_Sum data))).
Proof.
  induction l as [|p l IH]; intros err s Hv.
  - exists s. simpl. split; [done|]. split; [by rewrite with_heap_id|].
    split; [done|]. intros a pl Ha. exists pl. split; [done|].
    split; [done|]. intros H. by apply elem_of_nil in H.
  - apply Forall_cons in Hv as [[pl Hp] Hv].
    set (s1 := with_heap (<[p := hashed s pl]> (heap s)) s).
    assert (Hun : unhashed <$> heap s1 = unhashed <$> heap s).
    { simpl. rewrite list_fmap_insert. apply list_insert_id.
      by rewrite list_lookup_fmap, Hp, unhashed_hashed. }
    destruct (IH err s1) as (s' & Hrun & Hs' & Hun' & Hheap).
    { by eapply unhashed_valid. }
    exists s'. split; [|split; [|split]].
    + simpl. by rewrite (bind_Returns _ _ _ _ _ (hash_task_spec _ _ err _ Hp)).
    + rewrite Hs' at 1. by destruct s.
    + by rewrite Hun'.
    + intros a pla Ha. destruct (decide (a = p)) as [->|Hne].
      * rewrite Hp in Ha. injection Ha as <-.
        destruct (Hheap p (hashed s pl)) as (pl' & Hl & Hout & Hin).
        { unfold s1. solve_lookup. }
        exists pl'. split; [done|]. split.
        { intros Hnin. exfalso. apply Hnin, elem_of_cons. by left. }
        intros _ data Hdata.
        assert (Hh : hashed s pl = with_MD5 (hex_EncodeToString (md5_Sum data)) pl).
        { unfold hashed. by rewrite Hdata. }
        destruct (decide (p ∈ l)) as [Hpl|Hpl].
        -- apply (Hin Hpl). rewrite Hh. exact Hdata.
        -- rewrite (Hout Hpl), Hh. done.
      * destruct (Hheap a pla) as (pl' & Hl & Hout & Hin).
        { unfold s1. simpl. by rewrite list_lookup_insert_ne. }
        exists pl'. split; [done|]. split.
        -- intros Hnin. apply Hout. intros Hin'. apply Hnin, elem_of_cons. by right.
        -- intros Hin'. apply Hin. apply elem_of_cons in Hin' as [?|?]; done.
Qed.

(** ** [StoreUsed] *)

Lemma Used_spec p pl s : heap s !! p = Some pl -> Used p s = Returns (used pl) s.
Proof. intros Hp. unfold Used. by rewrite (deref_bind _ _ _ _ Hp). Qed.

Lemma used_filter l : forall acc s,
  valid s l ->
  range_acc (fun p plugins =>
               u <- Used p ;;
               ret (if u then plugins ++ [p] else plugins)) l acc s =
  Returns (acc ++ used_of s l) s.
Proof.
  induction l as [|p l IH]; intros acc s Hv; simpl.
  - by rewrite app_nil_r.
  - apply Forall_cons in Hv as [[pl Hp] Hv].
    erewrite bind_Returns; cycle 1.
    { erewrite bind_Returns by (by apply Used_spec). reflexivity. }
    rewrite (IH _ s Hv). unfold used_of. f_equal.
    assert (Hu : is_used s p = used pl) by (unfold is_used; by rewrite Hp).
    destruct (used pl).
    + rewrite filter_cons_True by done. by rewrite <- app_assoc.
    + rewrite filter_cons_False; [done|]. by rewrite Hu.
Qed.

Lemma valid_used_of s l : valid s l -> valid s (used_of s l).
Proof.
  unfold valid, used_of. rewrite !Forall_forall. intros H p Hp.
  apply H. by apply list_elem_of_filter in Hp as [_ ?].
Qed.

Lemma docs_range l : forall acc s,
  valid s l ->
  range_acc (fun p docs => pl <- deref p ;; ret (docs ++ [Some (plugin_to_doc pl)]))
            l acc s =
  Returns (acc ++ (Some <$> omap (fun p => plugin_to_doc <$> heap s !! p) l)) s.
Proof.
  induction l as [|p l IH]; intros acc s Hv; csimpl.
  - by rewrite app_nil_r.
  - apply Forall_cons in Hv as [[pl Hp] Hv].
    erewrite bind_Returns; cycle 1.
    { rewrite (deref_bind _ _ _ _ Hp). reflexivity. }
    rewrite (IH _ s Hv), Hp. csimpl. by rewrite <- app_assoc.
Qed.

Lemma wrapper_to_doc_spec l s :
  valid s l ->
  wrapper_to_doc {| wrapper_Version := usedPluginVersion;
                    wrapper_Plugins := Some l |} s =
  Returns (manifest_of s l) s.
Proof.
  intros Hv. unfold wrapper_to_doc. simpl.
  by rewrite (bind_Returns _ _ _ _ _ (docs_range l [] s Hv)).
Qed.

Lemma os_Create_spec path s :
  os_Create path s =
  if creatable s path
  then Returns None (with_fs (<[path := File []]> (fs s)) s)
  else Returns (Some (ErrCreate path)) s.
Proof. unfold os_Create, bind, get. by destruct (creatable s path). Qed.

Lemma creatable_Dir s path : fs s !! path = Some Dir -> creatable s path = false.
Proof. intros H. unfold creatable. by rewrite H. Qed.

Lemma creatable_heap h s path : creatable (with_heap h s) path = creatable s path.
Proof. done. Qed.

(** [StoreUsed] in terms of the state [s2] its hashing pass leaves. *)
Lemma StoreUsed_spec m path s :
  valid s (elems (plugins m)) ->
  exists s2,
    range_acc hash_task (used_of s (elems (plugins m))) None s = Returns None s2 /\
    StoreUsed m path s =
      if creatable s path
      then Returns None
             (with_fs (<[path := File (json_Encode
                            (manifest_of s2 (used_of s (elems (plugins m)))))]>
                         (fs s)) s2)
      else Returns (Some (ErrCreate path)) s2.
Proof.
  intros Hv. set (l := used_of s (elems (plugins m))).
  assert (Hvl : valid s l) by by apply valid_used_of.
  destruct (hash_pass_spec l None s Hvl) as (s2 & Hrun & Hs2 & Hun & _).
  exists s2. split; [done|]. unfold StoreUsed, Plugins.
  rewrite (bind_Returns _ _ _ _ _ (used_filter _ [] s Hv)). simpl. fold l.
  rewrite (bind_Returns _ _ _ _ _ Hrun).
  assert (Hfs : fs s2 = fs s) by (rewrite Hs2; done).
  assert (Hcr : creatable s2 path = creatable s path)
    by (rewrite Hs2; apply creatable_heap).
  assert (Hv2 : valid s2 l) by by eapply unhashed_valid.
  destruct (creatable s path) eqn:Hpath;
    (erewrite bind_Returns by (rewrite os_Create_spec, Hcr; reflexivity));
    try done.
  cbv beta iota. erewrite bind_Returns by (by apply wrapper_to_doc_spec).
  unfold write_file, bind, modify, ret. simpl. f_equal.
  unfold with_fs. simpl. by rewrite Hfs, insert_insert_eq.
Qed.

(** ** Storing and loading the manifest *)

Lemma hex_EncodeToString_nonempty bs :
  bs ≠ [] -> hex_EncodeToString bs ≠ "".
Proof. destruct bs as [|b bs]; [done|]. intros _. simpl. discriminate. Qed.

Lemma md5_hex_nonempty data : hex_EncodeToString (md5_Sum data) ≠ "".
Proof.
  apply hex_EncodeToString_nonempty. intros H.
  pose proof (md5_Sum_length data) as L. by rewrite H in L.
Qed.

Lemma valid_structs s l :
  valid s l -> exists pls, Forall2 (fun p pl => heap s !! p = Some pl) l pls.
Proof.
  induction 1 as [|p l [pl Hp] _ [pls IH]].
  - by exists [].
  - exists (pl :: pls). by constructor.
Qed.

Lemma omap_structs {B} (g : Plugin -> B) s l pls :
  Forall2 (fun p pl => heap s !! p = Some pl) l pls ->
  omap (fun p => g <$> heap s !! p) l = g <$> pls.
Proof.
  induction 1 as [|p pl l pls Hp _ IH]; csimpl; [done|].
  rewrite Hp. simpl. by rewrite IH.
Qed.

(** C7, as amended: when [CalcMD5] succeeds for every used handle of the
    set, [StoreUsed] returns nil and the manifest it has written is one that
    the codec reads back as it was written (encoding/json does when every
    path and argument is valid UTF-8), a following [LoadUsed] of the same
    path, by any manager, returns with a slice that has one handle for each
    handle that was used, in the same order, with the same path and
    arguments and with a hash that is not empty. *)
Theorem StoreUsed_LoadUsed_roundtrip m m0 path s s1 :
  valid s (elems (plugins m)) ->
  Forall (fun p => exists s', CalcMD5 p s = Returns None s')
         (used_of s (elems (plugins m))) ->
  StoreUsed m path s = Returns None s1 ->
  json_exact (manifest_of s1 (used_of s (elems (plugins m)))) ->
  exists l2 r s2,
    LoadUsed m0 path s1 = Returns (with_plugins (Some l2) m0, r) s2 /\
    Forall2 (fun p2 p =>
               exists pl2 pl,
                 heap s2 !! p2 = Some pl2 /\ heap s !! p = Some pl /\
                 Path pl2 = Path pl /\ Args pl2 = Args pl /\ MD5 pl2 ≠ "")
            l2 (used_of s (elems (plugins m))).
Proof.
  intros Hv Hhash Hstore Hexact.
  set (lu := used_of s (elems (plugins m))) in *.
  assert (Hvu : valid s lu) by by apply valid_used_of.
  (* the state after the hashing pass *)
  destruct (hash_pass_spec lu None s Hvu) as (sh & Hrun & Hsh & Hun & Hheap).
  destruct (StoreUsed_spec m path s Hv) as (sh' & Hrun' & Hst).
  fold lu in Hrun', Hst. rewrite Hrun in Hrun'. injection Hrun' as <-.
  rewrite Hstore in Hst.
  assert (Hs1 : s1 = with_fs (<[path := File (json_Encode (manifest_of sh lu))]> (fs s)) sh).
  { destruct (creatable s path); by injection Hst. }
  clear Hst.
  assert (Hheap1 : heap s1 = heap sh) by by rewrite Hs1.
  assert (Hdoc : manifest_of s1 lu = manifest_of sh lu).
  { unfold manifest_of. by rewrite Hheap1. }
  rewrite Hdoc in Hexact.
  (* the structs the manifest was written from *)
  assert (Hvh : valid sh lu) by by eapply unhashed_valid.
  destruct (valid_structs sh lu Hvh) as (plsh & Hplsh).
  assert (Hdocs : doc_plugins (manifest_of sh lu)
                  = Some (Some <$> (plugin_to_doc <$> plsh))).
  { unfold manifest_of. simpl. by rewrite (omap_structs _ _ _ _ Hplsh). }
  (* LoadUsed decodes it *)
  assert (Hfile : fs s1 !! path = Some (File (json_Encode (manifest_of sh lu)))).
  { rewrite Hs1. simpl. apply lookup_insert_eq. }
  pose proof (LoadUsed_decoded m0 path s1 _ _ (Some (plugin_to_doc <$> plsh))
                Hfile (json_roundtrip _ Hexact) Hdocs) as HL.
  simpl in HL. rewrite length_fmap in HL.
  set (l2 := seq (length (heap s1)) (length plsh)) in *.
  set (s1' := with_heap _ s1) in *.
  assert (Hv2 : valid s1' l2).
  { pose proof (valid_fresh (heap s1) (doc_to_plugin <$> (plugin_to_doc <$> plsh))
                  s1' eq_refl) as V.
    by rewrite !length_fmap in V. }
  destruct (load_pass_returns (with_plugins (Some l2) m0) l2 s1' Hv2)
    as (s2 & Hload & _ & _ & Hid & _).
  rewrite (LoadAll_Some _ l2 s1') in HL by done. rewrite Hload in HL.
  exists l2, (aggregate (load_failures s2 l2)), s2. split; [exact HL|].
  (* handle by handle *)
  apply Forall2_same_length_lookup_2.
  { unfold l2. rewrite length_seq. symmetry. by eapply Forall2_length. }
  intros i p2 p Hp2 Hp.
  apply lookup_seq in Hp2 as [-> Hi].
  destruct (Forall2_lookup_l _ _ _ _ _ Hplsh Hp) as (plh & Hplh & Hph).
  assert (Hin : p ∈ lu) by (apply list_elem_of_lookup; by exists i).
  destruct (Forall_forall (fun p => is_Some (heap s !! p)) lu) as [Hf _].
  destruct (Hf Hvu p Hin) as [pl Hpl].
  destruct (Hheap p pl Hpl) as (pl' & Hpl' & _ & Hmd5).
  rewrite Hph in Hpl'. injection Hpl' as <-.
  (* the hash of the struct that was written *)
  destruct (Forall_forall (fun p => exists s', CalcMD5 p s = Returns None s') lu)
    as [Hf' _].
  destruct (Hf' Hhash p Hin) as [s' Hcalc].
  rewrite (CalcMD5_spec p pl s Hpl) in Hcalc. injection Hcalc as Herr _.
  assert (exists data, fs s !! Path pl = Some (File data)) as [data Hdata].
  { unfold hash_error in Herr. destruct (fs s !! Path pl) as [[data|]|]; try done.
    by exists data. }
  specialize (Hmd5 Hin data Hdata).
  assert (Hunp : unhashed plh = unhashed pl).
  { assert (E0 : unhashed <$> heap sh !! p = unhashed <$> heap s !! p)
      by (by rewrite <- !list_lookup_fmap, Hun).
    rewrite Hph, Hpl in E0. simpl in E0. by apply (inj Some) in E0. }
  unfold unhashed in Hunp. injection Hunp as HP HA _ _ _.
  (* the struct LoadUsed ends with *)
  assert (H1' : heap s1' !! (length (heap s1) + i)
                = Some (doc_to_plugin (plugin_to_doc plh))).
  { unfold s1'. simpl. rewrite lookup_app_r by lia.
    replace (length (heap s1) + i - length (heap s1)) with i by lia.
    by rewrite <- list_fmap_compose, list_lookup_fmap, Hplh. }
  pose proof (ident_lookup s1' s2 (length (heap s1) + i) Hid) as E.
  rewrite H1' in E.
  destruct (heap s2 !! (length (heap s1) + i)) as [pl2|] eqn:Hpl2; [|done].
  simpl in E. apply (inj Some) in E.
  destruct (ident_fields _ _ E) as (EP & EA & EM). simpl in EP, EA, EM.
  exists pl2, pl. repeat split; try congruence.
  rewrite EM, Hmd5. apply md5_hex_nonempty.
Qed.

(** ** The [used] flag *)

Lemma is_used_lookup s a :
  is_used s a = true <-> exists pl, heap s !! a = Some pl /\ used pl = true.
Proof.
  unfold is_used. destruct (heap s !! a) as [pl|].
  - split; [by exists pl|]. by intros (? & [= <-] & ?).
  - split; [done|]. by intros (? & ? & _).
Qed.

(** What [LoadAll] does to a struct that existed before the call. *)
Lemma LoadAll_heap m s m' r s' :
  valid s (elems (plugins m)) ->
  LoadAll m s = Returns (m', r) s' ->
  forall a pl, heap s !! a = Some pl ->
    exists pl', heap s' !! a = Some pl' /\
      (a ∉ elems (plugins m) -> pl' = pl) /\
      (a ∈ elems (plugins m) -> used pl' = match load_error pl with
                                           | None => false
                                           | Some _ => used pl
                                           end).
Proof.
  intros Hv HL a pl Ha. destruct (plugins m) as [l|] eqn:Hm.
  - rewrite (LoadAll_Some m l s Hm) in HL. simpl in *.
    destruct (load_pass_spec l None s Hv) as (s1 & Hrun & _ & _ & _ & Hheap).
    rewrite (bind_Returns _ _ _ _ _ Hrun) in HL. injection HL as _ _ <-.
    by apply Hheap.
  - simpl. destruct (testingMode s) eqn:Ht; [|destruct (exe s) as [exePath|e] eqn:He].
    + rewrite (LoadAll_None m s _ _ _ Hm (Discover_testing m s Ht)) in HL.
      injection HL as _ _ <-. exists pl. split; [done|]. split; [done|].
      intros H. by apply elem_of_nil in H.
    + rewrite (LoadAll_None m s _ _ _ Hm (Discover_spec m s exePath Ht He)) in HL.
      simpl in HL. set (l := seq _ _) in HL.
      destruct (load_pass_spec l None (after_Discover exePath m s))
        as (s1 & Hrun & _ & _ & _ & Hheap).
      { unfold l. erewrite <- (length_fmap (builtin exePath)). by eapply valid_fresh. }
      rewrite (bind_Returns _ _ _ _ _ Hrun) in HL. injection HL as _ _ <-.
      destruct (Hheap a pl) as (pl' & Hpl' & Hout & _).
      { unfold after_Discover. simpl. by apply lookup_app_l_Some. }
      exists pl'. split; [done|]. split.
      * intros _. apply Hout. unfold l. intros Hin. apply elem_of_seq in Hin.
        apply lookup_lt_Some in Ha. lia.
      * intros H. by apply elem_of_nil in H.
    + rewrite (LoadAll_None m s _ _ _ Hm (Discover_no_executable m s e Ht He)) in HL.
      injection HL as _ _ <-. exists pl. split; [done|]. split; [done|].
      intros H. by apply elem_of_nil in H.
Qed.

(** After [LoadAll] a handle of the set is marked as used only if it was
    marked before the call and its load has failed. *)
Lemma LoadAll_used m s m' r s' a :
  valid s (elems (plugins m)) ->
  LoadAll m s = Returns (m', r) s' ->
  a ∈ elems (plugins m') ->
  is_used s' a = true ->
  is_used s a = true /\ a ∈ elems (plugins m) /\
  exists pl, heap s !! a = Some pl /\ load_error pl <> None.
Proof.
  intros Hv HL Hin Hu. destruct (plugins m) as [l|] eqn:Hm.
  - pose proof HL as HL'. rewrite (LoadAll_Some m l s Hm) in HL'. simpl in *.
    destruct (load_pass_spec l None s Hv) as (s1 & Hrun & _ & _ & _ & _).
    rewrite (bind_Returns _ _ _ _ _ Hrun) in HL'. injection HL' as <- _ _.
    rewrite Hm in Hin. simpl in Hin.
    destruct (Forall_forall (fun p => is_Some (heap s !! p)) l) as [Hf _].
    destruct (Hf Hv a Hin) as [pl Hpl].
    assert (Hv' : valid s (elems (plugins m))) by (by rewrite Hm).
    destruct (LoadAll_heap m s m r s' Hv' HL a pl Hpl) as (pl' & Hpl' & _ & Hused).
    rewrite Hm in Hused. specialize (Hused Hin).
    apply is_used_lookup in Hu as (pl'' & Hpl'' & Hu).
    rewrite Hpl' in Hpl''. injection Hpl'' as <-. rewrite Hu in Hused.
    destruct (load_error pl) eqn:Hle; [|done].
    split; [|split; [done|]].
    + apply is_used_lookup. by exists pl.
    + exists pl. by rewrite Hle.
  - exfalso.
    destruct (testingMode s) eqn:Ht; [|destruct (exe s) as [exePath|e] eqn:He].
    + rewrite (LoadAll_None m s _ _ _ Hm (Discover_testing m s Ht)) in HL.
      injection HL as <- _ _. by apply elem_of_nil in Hin.
    + rewrite (LoadAll_None m s _ _ _ Hm (Discover_spec m s exePath Ht He)) in HL.
      simpl in HL. set (l := seq _ _) in HL.
      set (keys := range_keys (ranges s) (PluginMap m)) in *.
      assert (Hvl : valid (after_Discover exePath m s) l).
      { unfold l. erewrite <- (length_fmap (builtin exePath)). by eapply valid_fresh. }
      destruct (load_pass_spec l None (after_Discover exePath m s) Hvl)
        as (s1 & Hrun & _ & _ & _ & Hheap).
      rewrite (bind_Returns _ _ _ _ _ Hrun) in HL. injection HL as <- _ <-.
      simpl in Hin.
      destruct (Forall_forall (fun p => is_Some (heap (after_Discover exePath m s) !! p)) l)
        as [Hf _].
      destruct (Hf Hvl a Hin) as [pl Hpl].
      destruct (Hheap a pl Hpl) as (pl' & Hpl' & _ & Hused).
      specialize (Hused Hin).
      apply is_used_lookup in Hu as (pl'' & Hpl'' & Hu).
      rewrite Hpl' in Hpl''. injection Hpl'' as <-. rewrite Hu in Hused.
      assert (Hfresh : used pl = false).
      { unfold after_Discover in Hpl. simpl in Hpl. unfold l in Hin.
        apply elem_of_seq in Hin. rewrite lookup_app_r in Hpl by lia.
        apply list_lookup_fmap_Some in Hpl as (k & -> & _). done. }
      rewrite Hfresh in Hused. by destruct (load_error pl).
    + rewrite (LoadAll_None m s _ _ _ Hm (Discover_no_executable m s e Ht He)) in HL.
      injection HL as <- _ _. rewrite Hm in Hin. by apply elem_of_nil in Hin.
Qed.

Lemma unhashed_is_used s s' a :
  unhashed <$> heap s' = unhashed <$> heap s -> is_used s' a = is_used s a.
Proof.
  intros H. unfold is_used.
  assert (E : unhashed <$> heap s' !! a = unhashed <$> heap s !! a)
    by (by rewrite <- !list_lookup_fmap, H).
  destruct (heap s' !! a) as [pl'|], (heap s !! a) as [pl|]; try done.
  simpl in E. apply (inj Some) in E. unfold unhashed in E. by injection E.
Qed.

Lemma range_acc_same_state {A B} (body : A -> B -> M B) l :
  (forall x acc s acc' s', body x acc s = Returns acc' s' -> s' = s) ->
  forall acc s acc' s',
    range_acc body l acc s = Returns acc' s' -> s' = s.
Proof.
  intros Hbody. induction l as [|x l IH]; intros acc s acc' s' H; simpl in H.
  - by injection H.
  - apply bind_inv in H as (acc1 & s1 & H1 & H2).
    apply Hbody in H1 as ->. by eapply IH.
Qed.

Lemma deref_same_state p pl s s' : deref p s = Returns pl s' -> s' = s.
Proof. unfold deref. destruct (heap s !! p); [|done]. by intros [= _ <-]. Qed.

Lemma ConfigureCore_same_state m core s x s' :
  ConfigureCore m core s = Returns x s' -> s' = s.
Proof.
  unfold ConfigureCore. intros H.
  apply bind_inv in H as (apps & s1 & H1 & H2). injection H2 as _ <-.
  revert H1. apply range_acc_same_state.
  clear. intros p apps s apps' s' H.
  apply bind_inv in H as (pl & s1 & H1 & H2).
  apply deref_same_state in H1 as ->.
  destruct (AppMeta pl) as [meta|]; [|done].
  revert H2. apply range_acc_same_state. clear. intros T apps s apps' s' H.
  by injection H.
Qed.

Lemma Load_inv p s r s' :
  Load p s = Returns r s' ->
  exists pl, heap s !! p = Some pl /\ r = load_error pl /\ s' = after_Load p pl s.
Proof.
  intros H. destruct (heap s !! p) as [pl|] eqn:Hp.
  - rewrite (Load_spec p pl s Hp) in H. injection H as <- <-. by exists pl.
  - unfold Load, bind, deref in H. by rewrite Hp in H.
Qed.

Lemma CalcMD5_inv p s r s' :
  CalcMD5 p s = Returns r s' ->
  exists pl, heap s !! p = Some pl /\ r = hash_error s pl /\
             s' = with_heap (<[p := hashed s pl]> (heap s)) s.
Proof.
  intros H. destruct (heap s !! p) as [pl|] eqn:Hp.
  - rewrite (CalcMD5_spec p pl s Hp) in H. injection H as <- <-. by exists pl.
  - unfold CalcMD5, bind, deref in H. by rewrite Hp in H.
Qed.

Lemma load_task_inv p merr s r s' :
  load_task p merr s = Returns r s' ->
  exists pl, heap s !! p = Some pl /\ s' = after_Load p pl s.
Proof.
  intros H. unfold load_task in H. apply bind_inv in H as (e & s1 & H1 & H2).
  apply Load_inv in H1 as (pl & Hp & -> & ->).
  exists pl. split; [done|].
  destruct (load_error pl) as [e|].
  - apply bind_inv in H2 as (pl' & s2 & H2 & H3).
    apply deref_same_state in H2 as ->. by injection H3.
  - by injection H2.
Qed.

Lemma hash_task_inv p err s r s' :
  hash_task p err s = Returns r s' ->
  exists pl, heap s !! p = Some pl /\ r = err /\
             s' = with_heap (<[p := hashed s pl]> (heap s)) s.
Proof.
  intros H. destruct (heap s !! p) as [pl|] eqn:Hp.
  - rewrite (hash_task_spec p pl err s Hp) in H. injection H as <- <-. by exists pl.
  - unfold hash_task, CalcMD5, bind, deref in H. by rewrite Hp in H.
Qed.

Lemma load_pass_valid l : forall merr s r s',
  range_acc load_task l merr s = Returns r s' -> valid s l.
Proof.
  induction l as [|p l IH]; intros merr s r s' H; [constructor|].
  simpl in H. apply bind_inv in H as (merr1 & s1 & H1 & H2).
  apply load_task_inv in H1 as (pl & Hp & ->).
  constructor; [by exists pl|].
  apply (ident_valid (after_Load p pl s) s).
  - symmetry. by apply ident_after_Load.
  - by eapply IH.
Qed.

Lemma hash_pass_valid l : forall err s r s',
  range_acc hash_task l err s = Returns r s' -> valid s l.
Proof.
  induction l as [|p l IH]; intros err s r s' H; [constructor|].
  simpl in H. apply bind_inv in H as (err1 & s1 & H1 & H2).
  apply hash_task_inv in H1 as (pl & Hp & -> & ->).
  constructor; [by exists pl|].
  eapply (unhashed_valid _ s); [|by eapply IH].
  simpl. symmetry. rewrite list_fmap_insert. apply list_insert_id.
  by rewrite list_lookup_fmap, Hp, unhashed_hashed.
Qed.

Lemma used_filter_valid l : forall acc s r s',
  range_acc (fun p plugins =>
               u <- Used p ;;
               ret (if u then plugins ++ [p] else plugins)) l acc s = Returns r s' ->
  valid s l.
Proof.
  induction l as [|p l IH]; intros acc s r s' H; [constructor|].
  simpl in H. apply bind_inv in H as (acc1 & s1 & H1 & H2).
  apply bind_inv in H1 as (u & s2 & H1 & H3).
  unfold Used in H1. apply bind_inv in H1 as (pl & s3 & H1 & H4).
  pose proof (deref_same_state _ _ _ _ H1) as ->.
  injection H4 as _ <-. injection H3 as _ <-.
  constructor; [|by eapply IH].
  unfold deref in H1. destruct (heap s !! p); [by eexists|done].
Qed.

Lemma StoreUsed_valid m path s r s' :
  StoreUsed m path s = Returns r s' -> valid s (elems (plugins m)).
Proof.
  intros H. unfold StoreUsed in H. apply bind_inv in H as (l & s1 & H1 & _).
  by eapply used_filter_valid.
Qed.

Lemma LoadAll_valid m s r s' :
  LoadAll m s = Returns r s' -> valid s (elems (plugins m)).
Proof.
  intros H. destruct (plugins m) as [l|] eqn:Hm; [|constructor].
  rewrite (LoadAll_Some m l s Hm) in H. apply bind_inv in H as (merr & s1 & H1 & _).
  by eapply load_pass_valid.
Qed.

Lemma StoreUsed_is_used m path s r s' a :
  valid s (elems (plugins m)) ->
  StoreUsed m path s = Returns r s' ->
  is_used s' a = is_used s a.
Proof.
  intros Hv HS.
  destruct (hash_pass_spec (used_of s (elems (plugins m))) None s)
    as (sh & Hrun & _ & Hun & _); [by apply valid_used_of|].
  destruct (StoreUsed_spec m path s Hv) as (sh' & Hrun' & Hst).
  rewrite Hrun in Hrun'. injection Hrun' as <-. rewrite HS in Hst.
  rewrite <- (unhashed_is_used s sh a Hun).
  destruct (creatable s path); by injection Hst as _ ->.
Qed.

Lemma LoadUsed_is_used m path s m' r s' a :
  is_used s a = true ->
  LoadUsed m path s = Returns (m', r) s' ->
  is_used s' a = true.
Proof.
  intros Hu HL. unfold LoadUsed in HL.
  rewrite (bind_Returns _ _ _ _ _ (os_Open_spec path s)) in HL.
  destruct (fs s !! path) as [[data|]|] eqn:Hf;
    simpl in HL; try (by injection HL as _ _ <-).
  destruct (json_Decode data) as [doc|] eqn:Hd; [|by injection HL as _ _ <-].
  rewrite (bind_Returns _ _ _ _ _ (doc_to_wrapper_spec doc s)) in HL.
  simpl in HL.
  apply is_used_lookup in Hu as (pl & Hpl & Hu).
  set (s1 := after_decode s doc) in HL.
  assert (Hpl1 : heap s1 !! a = Some pl) by (by apply lookup_app_l_Some).
  destruct (doc_version doc >? usedPluginVersion)%Z.
  { injection HL as _ _ <-. apply is_used_lookup. by exists pl. }
  set (m1 := with_plugins _ m) in HL.
  pose proof (LoadAll_valid _ _ _ _ HL) as Hv1.
  destruct (LoadAll_heap m1 s1 m' r s' Hv1 HL a pl Hpl1) as (pl' & Hpl' & Hout & _).
  apply is_used_lookup. exists pl'. split; [done|]. rewrite Hout; [done|].
  unfold m1. simpl. destruct (decoded s doc) as [l|] eqn:Hdec; simpl.
  - intros Hin. apply (decoded_fresh _ _ _ _ Hdec) in Hin.
    apply lookup_lt_Some in Hpl. lia.
  - apply not_elem_of_nil.
Qed.

Lemma is_used_insert s a p pl (x : Plugin) :
  heap s !! p = Some pl ->
  is_used (with_heap (<[p := x]> (heap s)) s) a =
  if decide (a = p) then used x else is_used s a.
Proof.
  intros Hp. unfold is_used. simpl. case_decide as E.
  - subst a. by rewrite (lookup_heap_insert _ _ _ _ Hp).
  - by rewrite list_lookup_insert_ne.
Qed.

Lemma Discover_is_used m s m' r s' a :
  is_used s a = true ->
  Discover m s = Returns (m', r) s' ->
  is_used s' a = true.
Proof.
  intros Hu HD.
  destruct (testingMode s) eqn:Ht; [|destruct (exe s) as [exePath|e] eqn:He].
  - rewrite (Discover_testing m s Ht) in HD. by injection HD as _ _ <-.
  - rewrite (Discover_spec m s exePath Ht He) in HD. injection HD as _ _ <-.
    apply is_used_lookup in Hu as (pl & Hpl & Hu). apply is_used_lookup.
    exists pl. split; [|done]. unfold after_Discover. simpl.
    by apply lookup_app_l_Some.
  - rewrite (Discover_no_executable m s e Ht He) in HD. by injection HD as _ _ <-.
Qed.

(** C6, as amended: the flag of a handle is set by a call of its factory
    and, once set, stays set under every operation except a load of that
    same handle that succeeds, by [Load] or through [LoadAll], which resets
    it.  Right after [LoadAll] a handle of the set is marked as used only if
    it was so before the call and its load has failed. *)
Theorem used_kept_until_reloaded op m s m' s' a :
  valid s (elems (plugins m)) ->
  run op m s = Returns m' s' ->
  (op = OpLoadAll -> a ∈ elems (plugins m') -> is_used s' a = true ->
     is_used s a = true /\ exists pl, heap s !! a = Some pl /\ load_error pl <> None) /\
  (forall f, op = OpCall (Some f) -> a = fac_plugin f -> is_used s' a = true) /\
  (is_used s a = true -> is_used s' a = true \/ reloads op m s a).
Proof.
  intros Hv Hrun. destruct op as [| |path|path|core|p|p|p|f]; simpl in Hrun;
    apply bind_inv in Hrun as (x & s1 & H1 & H2).
  - (* Discover *)
    destruct x as [m1 e1]. injection H2 as <- <-.
    split; [done|]. split; [done|]. intros Hu. left.
    by eapply Discover_is_used.
  - (* LoadAll *)
    destruct x as [m1 r]. injection H2 as <- <-.
    split; [|split; [done|]].
    + intros _ Hin Hu'.
      destruct (LoadAll_used m s m1 r s1 a Hv H1 Hin Hu') as (? & _ & ?). done.
    + intros Hu. apply is_used_lookup in Hu as (pl & Hpl & Hu).
      destruct (LoadAll_heap m s m1 r s1 Hv H1 a pl Hpl) as (pl' & Hpl' & Hout & Hin).
      destruct (decide (a ∈ elems (plugins m))) as [Ha|Ha].
      * specialize (Hin Ha). destruct (load_error pl) eqn:Hle.
        -- left. apply is_used_lookup. exists pl'. split; [done|]. congruence.
        -- right. split; [right; done|]. by exists pl.
      * left. apply is_used_lookup. exists pl'. split; [done|].
        by rewrite (Hout Ha).
  - (* LoadUsed *)
    destruct x as [m1 r]. injection H2 as <- <-.
    split; [done|]. split; [done|]. intros Hu. left.
    by eapply LoadUsed_is_used.
  - (* StoreUsed *)
    injection H2 as <- <-. split; [done|]. split; [done|]. intros Hu. left.
    by rewrite (StoreUsed_is_used m path s x s1 a Hv H1).
  - (* ConfigureCore *)
    injection H2 as <- <-. split; [done|]. split; [done|]. intros Hu. left.
    by rewrite (ConfigureCore_same_state m core s x s1 H1).
  - (* CalcMD5 *)
    injection H2 as <- <-. split; [done|]. split; [done|]. intros Hu. left.
    destruct (heap s !! p) as [pl|] eqn:Hp.
    + rewrite (CalcMD5_spec p pl s Hp) in H1. injection H1 as _ <-.
      rewrite <- Hu. apply unhashed_is_used. simpl.
      rewrite list_fmap_insert. apply list_insert_id.
      by rewrite list_lookup_fmap, Hp, unhashed_hashed.
    + unfold CalcMD5, bind, deref in H1. by rewrite Hp in H1.
  - (* Load *)
    injection H2 as <- <-. split; [done|]. split; [done|]. intros Hu.
    destruct (heap s !! p) as [pl|] eqn:Hp.
    + rewrite (Load_spec p pl s Hp) in H1. injection H1 as _ <-.
      assert (Hp' : heap (with_execs (execs s ++ [cmd pl]) s) !! p = Some pl) by done.
      rewrite (is_used_insert _ a p pl _ Hp').
      case_decide as E; [|by left]. subst a. rewrite used_loaded.
      apply is_used_lookup in Hu as (pl0 & Hpl0 & Hu).
      rewrite Hp in Hpl0. injection Hpl0 as <-.
      destruct (load_error pl) eqn:Hle; [by left|].
      right. split; [by left|]. by exists pl.
    + unfold Load, bind, deref in H1. by rewrite Hp in H1.
  - (* Used *)
    injection H2 as <- <-. split; [done|]. split; [done|]. intros Hu. left.
    unfold Used in H1. apply bind_inv in H1 as (pl & s2 & H1 & H2).
    apply deref_same_state in H1 as ->. by injection H2 as _ <-.
  - (* a call of a factory *)
    injection H2 as <- <-. split; [done|].
    destruct f as [f|]; [|done]. simpl in H1.
    apply bind_inv in H1 as ([] & s2 & H1 & H2). injection H2 as _ <-.
    destruct (heap s !! fac_plugin f) as [pl|] eqn:Hp.
    + rewrite (update_Some _ _ _ _ Hp) in H1. injection H1 as <-.
      split.
      * intros f' [= <-] ->. rewrite (is_used_insert s _ _ pl _ Hp).
        by rewrite decide_True.
      * intros Hu. left. rewrite (is_used_insert s _ _ pl _ Hp).
        by case_decide.
    + unfold update, bind, deref in H1. by rewrite Hp in H1.
Qed.

(** ** The goroutines and the semaphore *)

Lemma sum_insert (f : phase -> nat) (ts : list phase) : forall i ph ph',
  ts !! i = Some ph ->
  sum_list (f <$> <[i := ph']> ts) + f ph = sum_list (f <$> ts) + f ph'.
Proof.
  induction ts as [|t ts IH]; intros i ph ph' Hi; [done|].
  destruct i as [|i]; csimpl in *.
  - injection Hi as ->. lia.
  - specialize (IH i ph ph' Hi). lia.
Qed.

Lemma working_le_in_flight pl : working pl <= in_flight pl.
Proof.
  unfold working, in_flight. induction (tasks pl) as [|t ts IH]; csimpl; [done|].
  destruct t; simpl; lia.
Qed.

Lemma in_flight_start l err s : in_flight (pool_start l err s) = 0.
Proof.
  unfold in_flight, pool_start. simpl. induction (length l) as [|n IH]; [done|].
  csimpl. by rewrite IH.
Qed.

Lemma pool_step_permits body l pl pl' :
  pool_step body l pl pl' ->
  sema pl + in_flight pl = NumCPU ->
  sema pl' + in_flight pl' = NumCPU.
Proof.
  unfold in_flight.
  intros [i free pl0 Hi Hacq|i p err' s' pl0 Hi _ _|i pl0 Hi] Hinv; simpl.
  - pose proof (sum_insert holds _ i _ Working Hi) as E. simpl in E.
    unfold Acquire in Hacq. destruct (sema pl0); [done|]. injection Hacq as <-. lia.
  - pose proof (sum_insert holds _ i _ Finished Hi) as E. simpl in E. lia.
  - pose proof (sum_insert holds _ i _ Exited Hi) as E. simpl in E.
    unfold Release. lia.
Qed.

Lemma pool_permits body l err s pl :
  rtc (pool_step body l) (pool_start l err s) pl ->
  sema pl + in_flight pl = NumCPU.
Proof.
  revert pl. apply rtc_ind_r.
  - rewrite in_flight_start. unfold pool_start, semaphore_New. simpl. lia.
  - intros pl1 pl2 _ Hstep IH. by eapply pool_step_permits.
Qed.

(** C9: in every state that the goroutines of the load pass of [LoadAll],
    or of the hashing pass of [StoreUsed], can reach, whatever their
    interleaving, the goroutines that are running their body are at most
    [NumCPU], the number of permits the semaphore was created with: the
    free permits and the goroutines between [Acquire] and [Release] add up
    to it. *)
Theorem passes_bounded_by_permits l err s pl :
  rtc (pool_step load_task l) (pool_start l err s) pl \/
  rtc (pool_step hash_task l) (pool_start l err s) pl ->
  working pl <= NumCPU /\ sema pl + in_flight pl = NumCPU.
Proof.
  intros H.
  assert (Hinv : sema pl + in_flight pl = NumCPU).
  { destruct H as [H|H]; by eapply pool_permits. }
  split; [|done]. pose proof (working_le_in_flight pl). lia.
Qed.

Lemma insert_middle {A} (l1 l2 : list A) x y n :
  n = length l1 -> <[n := x]> (l1 ++ y :: l2) = l1 ++ x :: l2.
Proof. intros ->. rewrite insert_app_r_alt by lia. by rewrite Nat.sub_diag. Qed.

Lemma run_in_order body l2 : forall l1 err s err' s',
  0 < NumCPU ->
  range_acc body l2 err s = Returns err' s' ->
  rtc (pool_step body (l1 ++ l2))
    {| sema := NumCPU;
       tasks := replicate (length l1) Exited ++ replicate (length l2) Spawned;
       shared_err := err; world := s |}
    {| sema := NumCPU;
       tasks := replicate (length l1 + length l2) Exited;
       shared_err := err'; world := s' |}.
Proof.
  induction l2 as [|p l2 IH]; intros l1 err s err' s' HN Hrun; simpl in Hrun.
  - injection Hrun as <- <-. simpl. rewrite !app_nil_r, Nat.add_0_r. reflexivity.
  - apply bind_inv in Hrun as (err1 & s1 & Hbody & Hrest).
    destruct NumCPU as [|free] eqn:EN; [lia|].
    set (done_ := replicate (length l1) Exited).
    assert (Hlen : length done_ = length l1) by apply length_replicate.
    simpl.
    (* Acquire *)
    eapply rtc_l.
    { eapply (step_Acquire _ _ (length l1) free); simpl.
      - by apply list_lookup_middle.
      - done. }
    simpl. rewrite insert_middle by done.
    (* the body *)
    eapply rtc_l.
    { eapply (step_body _ _ (length l1) p); simpl.
      - by apply list_lookup_middle.
      - by apply list_lookup_middle.
      - exact Hbody. }
    simpl. rewrite insert_middle by done.
    (* Release *)
    eapply rtc_l.
    { eapply (step_Release _ _ (length l1)); simpl.
      by apply list_lookup_middle. }
    simpl. rewrite insert_middle by done.
    unfold Release.
    (* the goroutines that follow *)
    specialize (IH (l1 ++ [p]) err1 s1 err' s' ltac:(lia) Hrest).
    rewrite <- app_assoc in IH. simpl in IH.
    rewrite length_app, replicate_add in IH. simpl in IH.
    rewrite <- app_assoc in IH. simpl in IH.
    replace (length l1 + 1 + length l2) with (length l1 + S (length l2)) in IH by lia.
    exact IH.
Qed.

(** Running the bodies one after the other in the order of the slice, as
    [LoadAll] and [StoreUsed] are written above, is one of the executions
    of the goroutines, and it runs them all to their end. *)
Lemma pool_in_order body l err s err' s' :
  0 < NumCPU ->
  range_acc body l err s = Returns err' s' ->
  rtc (pool_step body l) (pool_start l err s) (pool_done l err' s').
Proof.
  intros HN Hrun. exact (run_in_order body l [] err s err' s' HN Hrun).
Qed.

(** ** What the code does where the specification asks for more *)

(** [Load] returns what the plugin binary makes it return, whatever hash
    the handle carries and whatever the files contain. *)
Lemma Load_ignores_hash p pl s h f :
  heap s !! p = Some pl ->
  exists s',
    Load p (with_fs f (with_heap (<[p := with_MD5 h pl]> (heap s)) s)) =
    Returns (load_error pl) s'.
Proof.
  intros Hp. eexists. rewrite (Load_spec p (with_MD5 h pl)); [reflexivity|].
  simpl. by eapply lookup_heap_insert.
Qed.

(** [StoreUsed] returns nil and writes the manifest unless the destination
    cannot be created, whether or not a hash could be calculated. *)
Lemma StoreUsed_never_reports_hash_errors m path s :
  valid s (elems (plugins m)) ->
  exists s',
    (creatable s path = false /\
     StoreUsed m path s = Returns (Some (ErrCreate path)) s') \/
    (StoreUsed m path s = Returns None s' /\
     exists data, fs s' !! path = Some (File data)).
Proof.
  intros Hv. destruct (StoreUsed_spec m path s Hv) as (s2 & _ & Hst).
  destruct (creatable s path) eqn:Hpath.
  - eexists. right. split; [exact Hst|]. eexists. simpl. apply lookup_insert_eq.
  - eexists. left. by split.
Qed.

(** ** Every interleaving of the goroutines is a run in some order *)

Lemma ran_start n l : ran (replicate n Spawned) l = [].
Proof. revert l. induction n as [|n IH]; intros [|p l]; simpl; auto. Qed.

Lemma ran_insert_same ts : forall l i ph ph',
  ts !! i = Some ph -> has_run ph' = has_run ph ->
  ran (<[i := ph']> ts) l = ran ts l.
Proof.
  induction ts as [|t ts IH]; intros l i ph ph' Hi Hrun; [done|].
  destruct l as [|p l], i as [|i]; simpl in *; try done.
  - injection Hi as ->. by rewrite Hrun.
  - by rewrite (IH l i ph ph' Hi Hrun).
Qed.

Lemma ran_insert_run ts : forall l i ph ph' p,
  ts !! i = Some ph -> has_run ph = false -> has_run ph' = true ->
  l !! i = Some p ->
  ran (<[i := ph']> ts) l ≡ₚ ran ts l ++ [p].
Proof.
  induction ts as [|t ts IH]; intros l i ph ph' p Hi Hph Hph' Hp; [done|].
  destruct l as [|q l], i as [|i]; simpl in *; try done.
  - injection Hi as ->. injection Hp as ->. rewrite Hph, Hph'.
    apply Permutation_cons_append.
  - specialize (IH l i ph ph' p Hi Hph Hph' Hp).
    destruct (has_run t); [|done]. simpl. by apply Permutation_skip.
Qed.

Lemma ran_all_exited ts : forall l,
  length ts = length l -> Forall (fun ph => ph = Exited) ts -> ran ts l = l.
Proof.
  induction ts as [|t ts IH]; intros [|p l] Hlen Hall; simpl in *; try done.
  apply Forall_cons in Hall as [-> Hall]. simpl. rewrite IH; [done|lia|done].
Qed.

Lemma ran_elem_of ts : forall l p, p ∈ ran ts l -> p ∈ l.
Proof.
  induction ts as [|t ts IH]; intros l p Hp.
  { destruct l; by apply elem_of_nil in Hp. }
  destruct l as [|q l]; [by apply elem_of_nil in Hp|]. simpl in Hp.
  destruct (has_run t).
  - apply elem_of_cons in Hp as [->|Hp]; [by left|]. right. by apply IH.
  - right. by apply IH.
Qed.

(** Whatever the interleaving, the shared error and the state are those of
    running the bodies of the goroutines that have run, one after the other
    in the order in which they ran. *)
Lemma pool_serial body l err s pl :
  rtc (pool_step body l) (pool_start l err s) pl ->
  exists order,
    order ≡ₚ ran (tasks pl) l /\
    range_acc body order err s = Returns (shared_err pl) (world pl) /\
    length (tasks pl) = length l.
Proof.
  revert pl. apply rtc_ind_r.
  - exists []. simpl. rewrite ran_start, length_replicate. done.
  - intros pl1 pl2 _ Hstep (order & Hperm & Hrun & Hlen).
    destruct Hstep as [i free pl0 Hi Hacq|i p err' s' pl0 Hi Hp Hbody|i pl0 Hi]; simpl.
    + exists order. rewrite (ran_insert_same _ _ _ _ _ Hi) by done.
      by rewrite length_insert.
    + exists (order ++ [p]). split; [|split].
      * rewrite (ran_insert_run _ _ _ _ _ _ Hi) by done. by rewrite Hperm.
      * rewrite range_acc_app, (bind_Returns _ _ _ _ _ Hrun). simpl.
        by rewrite (bind_Returns _ _ _ _ _ Hbody).
      * by rewrite length_insert.
    + exists order. rewrite (ran_insert_same _ _ _ _ _ Hi) by done.
      by rewrite length_insert.
Qed.

Lemma valid_Permutation s l l' : l ≡ₚ l' -> valid s l -> valid s l'.
Proof. intros H. unfold valid. by rewrite H. Qed.

Lemma valid_ran s ts l : valid s l -> valid s (ran ts l).
Proof.
  unfold valid. rewrite !Forall_forall. intros H p Hp.
  apply H. by eapply ran_elem_of.
Qed.

(** The goroutines of [LoadAll]: the commands handed to the plugin client
    and the errors collected are those of the handles whose goroutine has
    run, in the order in which they ran. *)
Lemma load_pool_state l err s pl :
  valid s l ->
  rtc (pool_step load_task l) (pool_start l err s) pl ->
  exists order,
    order ≡ₚ ran (tasks pl) l /\
    execs (world pl) = execs s ++ cmds s order /\
    shared_err pl = append_errors err (load_failures s order) /\
    ident <$> heap (world pl) = ident <$> heap s /\
    length (tasks pl) = length l.
Proof.
  intros Hv Hrtc. destruct (pool_serial _ _ _ _ _ Hrtc) as (order & Hperm & Hrun & Hlen).
  exists order. split; [done|].
  assert (Hvo : valid s order).
  { eapply valid_Permutation; [symmetry; exact Hperm|]. by apply valid_ran. }
  destruct (load_pass_spec order err s Hvo) as (s' & Hrun' & Hex & Hid & _).
  rewrite Hrun in Hrun'. injection Hrun' as -> ->. done.
Qed.

Lemma sum_list_zero (f : phase -> nat) ts ph :
  sum_list (f <$> ts) = 0 -> ph ∈ ts -> f ph = 0.
Proof.
  induction ts as [|t ts IH]; csimpl; intros Hsum Hin.
  - by apply elem_of_nil in Hin.
  - apply elem_of_cons in Hin as [->|Hin]; [lia|]. apply IH; [lia|done].
Qed.

Lemma sum_list_pos (f : phase -> nat) ts :
  0 < sum_list (f <$> ts) -> exists i ph, ts !! i = Some ph /\ 0 < f ph.
Proof.
  induction ts as [|t ts IH]; csimpl; intros Hsum; [lia|].
  destruct (f t) as [|n] eqn:Hf.
  - destruct IH as (i & ph & Hi & Hph); [lia|]. by exists (S i), ph.
  - exists 0, t. split; [done|lia].
Qed.

(** No goroutine of [LoadAll] is ever stuck for good: as long as one of them
    has not exited, one of them can take a step. *)
Lemma load_pool_progress l err s pl :
  0 < NumCPU ->
  valid s l ->
  rtc (pool_step load_task l) (pool_start l err s) pl ->
  ~ all_exited pl ->
  exists pl', pool_step load_task l pl pl'.
Proof.
  intros HN Hv Hrtc Hnot.
  destruct (load_pool_state l err s pl Hv Hrtc) as (order & _ & _ & _ & Hid & Hlen).
  pose proof (pool_permits _ _ _ _ _ Hrtc) as Hperm.
  destruct (decide (in_flight pl = 0)) as [Hzero|Hpos].
  - (* nobody holds a permit: a spawned goroutine acquires one *)
    apply not_Forall_Exists in Hnot; [|intros ph; destruct ph; (by left) || (by right)].
    apply Exists_exists in Hnot as (ph & Hin & Hph).
    pose proof (sum_list_zero holds _ ph Hzero Hin) as Hh.
    assert (ph = Spawned) as ->.
    { destruct ph; try done. exfalso. by apply Hph. }
    apply list_elem_of_lookup in Hin as [i Hi].
    destruct (sema pl) as [|free] eqn:Hs; [lia|].
    eexists. eapply (step_Acquire _ _ i free); [done|]. by rewrite Hs.
  - destruct (sum_list_pos holds (tasks pl)) as (i & ph & Hi & Hph);
      [unfold in_flight in Hpos; lia|].
    destruct ph; simpl in Hph; try lia.
    + (* a working goroutine finishes its body *)
      destruct (lookup_lt_is_Some_2 l i) as [p Hp].
      { rewrite <- Hlen. by eapply lookup_lt_Some. }
      assert (Hvp : is_Some (heap (world pl) !! p)).
      { assert (Hvw : valid (world pl) l) by by eapply ident_valid.
        unfold valid in Hvw. rewrite Forall_forall in Hvw. apply Hvw.
        apply list_elem_of_lookup. by exists i. }
      destruct Hvp as [plg Hplg].
      eexists. eapply (step_body _ _ i p); [done|done|].
      by apply load_task_spec.
    + (* a finished goroutine releases its permit *)
      eexists. by eapply (step_Release _ _ i).
Qed.

(** Each step uses up one of the three steps of a goroutine, so that the
    goroutines cannot run forever. *)
Lemma pool_step_remaining body l pl pl' :
  pool_step body l pl pl' -> remaining pl = S (remaining pl').
Proof.
  unfold remaining.
  intros [i free pl0 Hi _|i p err' s' pl0 Hi _ _|i pl0 Hi]; simpl.
  - pose proof (sum_insert steps_left _ i _ Working Hi) as E. simpl in E. lia.
  - pose proof (sum_insert steps_left _ i _ Finished Hi) as E. simpl in E. lia.
  - pose proof (sum_insert steps_left _ i _ Exited Hi) as E. simpl in E. lia.
Qed.

(** When all goroutines of [LoadAll] have exited, the command of every
    handle of the slice has been handed to the plugin client exactly once,
    and the errors collected are those of the handles that fail to load. *)
Lemma load_pool_complete l s pl :
  valid s l ->
  rtc (pool_step load_task l) (pool_start l None s) pl ->
  all_exited pl ->
  exists order,
    order ≡ₚ l /\
    execs (world pl) = execs s ++ cmds s order /\
    shared_err pl = aggregate (load_failures s order).
Proof.
  intros Hv Hrtc Hall.
  destruct (load_pool_state l None s pl Hv Hrtc) as (order & Hperm & Hex & Herr & _ & Hlen).
  exists order. rewrite (ran_all_exited _ _ Hlen Hall) in Hperm.
  split; [done|]. split; [done|].
  rewrite Herr. apply append_errors_aggregate, load_failures_flat.
Qed.

Lemma cmds_Permutation s l l' : l ≡ₚ l' -> cmds s l ≡ₚ cmds s l'.
Proof. intros H. unfold cmds. by rewrite H. Qed.

(** Loading a struct that has been loaded gives what loading it once gives,
    but for the client. *)
Lemma loaded_loaded p c c' pl : loaded p c (loaded p c' pl) = loaded p c pl.
Proof.
  unfold loaded.
  destruct (launch (Path pl) (Args pl)) as [e|e|meta [e|]] eqn:H; simpl;
    by rewrite ?H.
Qed.

(** The structs a load pass leaves: those of the handles of the pass are as
    [Load] leaves them, the others are untouched. *)
Lemma load_pass_loaded l : forall merr s r s',
  range_acc load_task l merr s = Returns r s' ->
  forall a pl, heap s !! a = Some pl ->
    (a ∉ l -> heap s' !! a = Some pl) /\
    (a ∈ l -> exists c, heap s' !! a = Some (loaded a c pl)).
Proof.
  induction l as [|p l IH]; intros merr s r s' H a pl Ha.
  - injection H as _ <-. split; [done|]. intros Hin. by apply elem_of_nil in Hin.
  - simpl in H. apply bind_inv in H as (merr1 & s1 & H1 & H2).
    apply load_task_inv in H1 as (plp & Hp & ->).
    destruct (decide (a = p)) as [->|Hne].
    + rewrite Hp in Ha. injection Ha as ->.
      destruct (IH _ _ _ _ H2 p (loaded p (length (execs s)) pl)) as [Hout Hin].
      { unfold after_Load. simpl. by eapply lookup_heap_insert. }
      split. { intros Hn. exfalso. apply Hn. apply elem_of_cons. by left. }
      intros _. destruct (decide (p ∈ l)) as [Hpl|Hpl].
      * destruct (Hin Hpl) as [c Hc]. exists c. by rewrite loaded_loaded in Hc.
      * eexists. by apply Hout.
    + destruct (IH _ _ _ _ H2 a pl) as [Hout Hin].
      { unfold after_Load. simpl. by rewrite list_lookup_insert_ne. }
      split.
      * intros Hn. apply Hout. intros Hin'. apply Hn. apply elem_of_cons. by right.
      * intros Hin'. apply Hin. apply elem_of_cons in Hin' as [?|?]; done.
Qed.

(** C5: [LoadAll] on a set of handles loads every handle of the set,
    whichever of them fail.  Whatever the interleaving of its goroutines,
    once all of them have exited the command of every handle of the set has
    been handed to the plugin client exactly once, in the order in which the
    goroutines ran, the struct of every handle is as [Load] leaves it, and
    the shared error is nil when no handle failed and otherwise one
    multierror that holds an error for each handle that failed.  The run of
    the goroutines one after the other, which is [LoadAll], is one of
    these: it returns the manager as it was together with that error (a
    load is taken to return: a child process that hangs has no counterpart
    in [Launch]).  When the slice was nil and [Discover] has succeeded,
    [LoadAll] goes on in this way on the set that was discovered. *)
Theorem LoadAll_attempts_every_handle m l s :
  plugins m = Some l ->
  valid s l ->
  (exists order r s',
     order ≡ₚ l /\
     LoadAll m s = Returns (m, r) s' /\
     execs s' = execs s ++ cmds s order /\
     length (cmds s order) = length l /\
     r = aggregate (load_failures s order) /\
     forall p plg, p ∈ l -> heap s !! p = Some plg ->
       exists c, heap s' !! p = Some (loaded p c plg)) /\
  (forall pl,
     rtc (pool_step load_task l) (pool_start l None s) pl ->
     all_exited pl ->
     exists order,
       order ≡ₚ l /\
       execs (world pl) = execs s ++ cmds s order /\
       length (cmds s order) = length l /\
       shared_err pl = aggregate (load_failures s order) /\
       forall p plg, p ∈ l -> heap s !! p = Some plg ->
         exists c, heap (world pl) !! p = Some (loaded p c plg)) /\
  (forall m0 s0,
     plugins m0 = None -> Discover m0 s0 = Returns (m, None) s ->
     LoadAll m0 s0 = LoadAll m s).
Proof.
  intros Hm Hv. split; [|split].
  - destruct (load_pass_spec l None s Hv) as (s' & Hrun & Hex & _).
    exists l, (aggregate (load_failures s l)), s'.
    split; [done|]. split.
    { rewrite (LoadAll_Some m l s Hm), (bind_Returns _ _ _ _ _ Hrun).
      unfold ret. do 2 f_equal.
      apply append_errors_aggregate, load_failures_flat. }
    split; [done|]. split; [by apply cmds_length|]. split; [done|].
    intros p plg Hin Hp.
    by apply (load_pass_loaded _ _ _ _ _ Hrun p plg Hp).
  - intros pl Hrtc Hall.
    destruct (pool_serial _ _ _ _ _ Hrtc) as (order & Hperm & Hrun & Hlen).
    rewrite (ran_all_exited _ _ Hlen Hall) in Hperm.
    assert (Hvo : valid s order).
    { eapply valid_Permutation; [symmetry; exact Hperm|done]. }
    destruct (load_pass_spec order None s Hvo) as (s' & Hrun' & Hex & _).
    rewrite Hrun in Hrun'. injection Hrun' as Herr Hw.
    exists order. split; [done|]. split; [by rewrite Hw|].
    split; [rewrite cmds_length; [by apply Permutation_length|done]|].
    split.
    { rewrite Herr. apply append_errors_aggregate, load_failures_flat. }
    intros p plg Hin Hp.
    apply (load_pass_loaded _ _ _ _ _ Hrun p plg Hp). by rewrite Hperm.
  - intros m0 s0 Hm0 HD.
    rewrite (LoadAll_None m0 s0 _ _ _ Hm0 HD), (LoadAll_Some m l s Hm).
    by rewrite Hm.
Qed.

(** ** What a call that returns tells about its arguments *)

(** ** More on [CalcMD5] *)

Lemma hex_digit_elem n : (n < 16)%N -> hex_digit n ∈ hex_digits.
Proof.
  intros Hn. unfold hex_digit. fold hex_digits.
  destruct (lookup_lt_is_Some_2 hex_digits (N.to_nat n)) as [c Hc].
  { change (length hex_digits) with 16. lia. }
  rewrite (nth_lookup_Some _ _ _ _ Hc). apply list_elem_of_lookup. by eexists.
Qed.

Lemma hex_EncodeToString_shape bs :
  String.length (hex_EncodeToString bs) = 2 * length bs /\
  Forall (fun c => c ∈ hex_digits)
         (String.list_ascii_of_string (hex_EncodeToString bs)).
Proof.
  induction bs as [|b bs [IHlen IHdig]]; [by split|].
  pose proof (Byte.to_N_bounded b) as Hb.
  change (hex_EncodeToString (b :: bs))
    with (String (hex_digit (Byte.to_N b / 16)%N)
            (String (hex_digit (Byte.to_N b mod 16)%N) (hex_EncodeToString bs))).
  split.
  - cbn [String.length]. rewrite IHlen. simpl. lia.
  - cbn [String.list_ascii_of_string]. constructor; [|constructor; [|exact IHdig]].
    + apply hex_digit_elem. apply N.Div0.div_lt_upper_bound. lia.
    + apply hex_digit_elem. apply N.mod_upper_bound. lia.
Qed.

(** X1: when [CalcMD5] returns an error, nothing has changed: the struct
    keeps the hash it had.  The error is that of [os.Open] when there is no
    file at the path, and that of the read when the path is a directory. *)
Theorem CalcMD5_error_changes_nothing p s e s' :
  CalcMD5 p s = Returns (Some e) s' ->
  s' = s /\
  exists pl, heap s !! p = Some pl /\
    ((fs s !! Path pl = None /\ e = ErrOpen (Path pl)) \/
     (fs s !! Path pl = Some Dir /\ e = ErrRead (Path pl))).
Proof.
  intros H. apply CalcMD5_inv in H as (pl & Hp & He & ->).
  unfold hash_error in He. unfold hashed.
  destruct (fs s !! Path pl) as [[data|]|] eqn:Hf; try done; injection He as ->.
  - split; [by rewrite list_insert_id, with_heap_id|]. exists pl. split; [done|].
    by right.
  - split; [by rewrite list_insert_id, with_heap_id|]. exists pl. split; [done|].
    by left.
Qed.

(** X2: when [CalcMD5] returns nil, the file at the path of the plugin was
    read and the only change is the [MD5] field of that plugin, which holds
    the digest of the content as 32 lower-case hexadecimal digits. *)
Theorem CalcMD5_stores_hex_digest p s s' :
  CalcMD5 p s = Returns None s' ->
  exists pl data,
    heap s !! p = Some pl /\ fs s !! Path pl = Some (File data) /\
    s' = with_heap (<[p := with_MD5 (hex_EncodeToString (md5_Sum data)) pl]> (heap s)) s /\
    String.length (hex_EncodeToString (md5_Sum data)) = 32 /\
    Forall (fun c => c ∈ hex_digits)
           (String.list_ascii_of_string (hex_EncodeToString (md5_Sum data))).
Proof.
  intros H. apply CalcMD5_inv in H as (pl & Hp & He & ->).
  unfold hash_error in He. unfold hashed.
  destruct (fs s !! Path pl) as [[data|]|] eqn:Hf; try done.
  exists pl, data. repeat split; try done.
  - destruct (hex_EncodeToString_shape (md5_Sum data)) as [-> _].
    by rewrite md5_Sum_length.
  - apply hex_EncodeToString_shape.
Qed.

(** X3: [CalcMD5] called again on the state it has left returns the same
    value and changes nothing. *)
Theorem CalcMD5_idempotent p s r s1 :
  CalcMD5 p s = Returns r s1 -> CalcMD5 p s1 = Returns r s1.
Proof.
  intros H. apply CalcMD5_inv in H as (pl & Hp & -> & ->).
  set (s1 := with_heap _ s).
  assert (Hp1 : heap s1 !! p = Some (hashed s pl)) by (by eapply lookup_heap_insert).
  rewrite (CalcMD5_spec p _ s1 Hp1).
  assert (Hpath : Path (hashed s pl) = Path pl).
  { unfold hashed. by destruct (fs s !! Path pl) as [[?|]|]. }
  assert (Hh : hashed s1 (hashed s pl) = hashed s pl).
  { unfold hashed at 1. rewrite Hpath. simpl. unfold hashed.
    by destruct (fs s !! Path pl) as [[?|]|]. }
  assert (He : hash_error s1 (hashed s pl) = hash_error s pl).
  { unfold hash_error. by rewrite Hpath. }
  rewrite Hh, He. f_equal. unfold s1. simpl.
  rewrite list_insert_insert_eq. by destruct s.
Qed.

(** ** More on [Load] and on the factories *)

(** X4: a [Load] that returns an error has handed the command of the plugin
    to the plugin client once and has changed no other struct.  The plugin
    keeps its path, arguments, hash, factory and used flag; its metadata
    changes only when the error is the one [Meta()] returned. *)
Theorem Load_failure_keeps_handle p s e s' :
  Load p s = Returns (Some e) s' ->
  exists pl pl',
    heap s !! p = Some pl /\
    s' = with_heap (<[p := pl']> (heap s)) (with_execs (execs s ++ [cmd pl]) s) /\
    Path pl' = Path pl /\ Args pl' = Args pl /\ MD5 pl' = MD5 pl /\
    App pl' = App pl /\ used pl' = used pl /\
    (pl' = pl \/
     exists meta, launch (Path pl) (Args pl) = MetaReturns meta (Some e) /\
                  AppMeta pl' = meta).
Proof.
  intros H. apply Load_inv in H as (pl & Hp & He & ->).
  exists pl, (loaded p (length (execs s)) pl). split; [done|]. split; [done|].
  unfold loaded, load_error in *.
  destruct (launch (Path pl) (Args pl)) as [e'|e'|meta [e'|]]; try done.
  - repeat split; try done. by left.
  - repeat split; try done. by left.
  - injection He as ->. repeat split; try done. right. by exists meta.
Qed.

(** X5: after a [Load] that returns nil the plugin is not marked as used and
    holds a factory of its own; a call of that factory marks the plugin, and
    nothing else, as used, and a second call changes nothing. *)
Theorem Load_then_call_marks_used p s s1 :
  Load p s = Returns None s1 ->
  Used p s1 = Returns false s1 /\
  exists pl1 f s2,
    heap s1 !! p = Some pl1 /\ App pl1 = Some f /\ fac_plugin f = p /\
    call (Some f) s1 = Returns (client_App (fac_client f)) s2 /\
    s2 = with_heap (<[p := with_used true pl1]> (heap s1)) s1 /\
    Used p s2 = Returns true s2 /\
    call (Some f) s2 = Returns (client_App (fac_client f)) s2.
Proof.
  intros H. apply Load_inv in H as (pl & Hp & He & ->).
  set (c := length (execs s)). set (pl1 := loaded p c pl).
  assert (Hp1 : heap (after_Load p pl s) !! p = Some pl1).
  { unfold after_Load. simpl. by eapply lookup_heap_insert. }
  assert (Hshape : used pl1 = false /\
                   App pl1 = Some {| fac_plugin := p; fac_client := c |}).
  { unfold pl1, loaded. unfold load_error in He.
    by destruct (launch (Path pl) (Args pl)) as [?|?|? [?|]]. }
  destruct Hshape as [Hu Hf].
  split. { rewrite (Used_spec p pl1 _ Hp1). by rewrite Hu. }
  set (s2 := with_heap (<[p := with_used true pl1]> (heap (after_Load p pl s)))
               (after_Load p pl s)).
  assert (Hp2 : heap s2 !! p = Some (with_used true pl1)).
  { unfold s2. simpl. by eapply lookup_heap_insert. }
  exists pl1, {| fac_plugin := p; fac_client := c |}, s2.
  split; [done|]. split; [done|]. split; [done|]. split; [|split; [done|split]].
  - simpl. by rewrite (update_bind _ _ _ _ _ Hp1).
  - by rewrite (Used_spec p _ _ Hp2).
  - simpl. rewrite (update_bind _ _ _ _ _ Hp2). unfold ret. f_equal.
    unfold s2 at 1 2. simpl. rewrite list_insert_insert_eq. done.
Qed.

(** ** Invariants of the operations *)

Lemma range_acc_invariant {A B} (I : State -> Prop) (body : A -> B -> M B) l :
  (forall x acc s acc' s', I s -> body x acc s = Returns acc' s' -> I s') ->
  forall acc s acc' s',
    I s -> range_acc body l acc s = Returns acc' s' -> I s'.
Proof.
  intros Hbody. induction l as [|x l IH]; intros acc s acc' s' HI H; simpl in H.
  - by injection H as _ <-.
  - apply bind_inv in H as (acc1 & s1 & H1 & H2).
    eapply IH; [|exact H2]. by eapply Hbody.
Qed.

Lemma own_factories_heap s s' :
  heap s' = heap s -> own_factories s -> own_factories s'.
Proof. unfold own_factories. intros ->. done. Qed.

Lemma own_factories_app s s' l :
  heap s' = heap s ++ l ->
  Forall (fun pl => App pl = None) l ->
  own_factories s -> own_factories s'.
Proof.
  unfold own_factories. intros -> Hl Hs p pl f Hp Hf.
  apply lookup_app_Some in Hp as [Hp|[_ Hp]]; [by eapply Hs|].
  rewrite Forall_forall in Hl. rewrite Hl in Hf; [done|].
  apply list_elem_of_lookup. by eexists.
Qed.

Lemma own_factories_insert s s' p pl pl' :
  heap s' = <[p := pl']> (heap s) ->
  heap s !! p = Some pl ->
  (App pl' = App pl \/ exists f, App pl' = Some f /\ fac_plugin f = p) ->
  own_factories s -> own_factories s'.
Proof.
  unfold own_factories. intros -> Hp Happ Hs a pla f Ha Hf.
  destruct (decide (a = p)) as [->|Hne].
  - rewrite (lookup_heap_insert _ _ _ _ Hp) in Ha. injection Ha as <-.
    destruct Happ as [E|(f' & E & Hf')].
    + rewrite E in Hf. by eapply Hs.
    + rewrite E in Hf. by injection Hf as <-.
  - rewrite list_lookup_insert_ne in Ha by done. by eapply Hs.
Qed.

Lemma load_pass_own_factories l merr s r s' :
  own_factories s -> range_acc load_task l merr s = Returns r s' -> own_factories s'.
Proof.
  apply (range_acc_invariant own_factories). clear.
  intros p merr s merr' s' Hs H.
  apply load_task_inv in H as (pl & Hp & ->).
  eapply (own_factories_insert s _ p pl); [reflexivity|done| |done].
  unfold loaded. destruct (launch (Path pl) (Args pl)) as [?|?|? [?|]]; try by left.
  right. by eexists.
Qed.

Lemma hash_pass_own_factories l err s r s' :
  own_factories s -> range_acc hash_task l err s = Returns r s' -> own_factories s'.
Proof.
  apply (range_acc_invariant own_factories). clear.
  intros p err s err' s' Hs H.
  apply hash_task_inv in H as (pl & Hp & _ & ->).
  eapply (own_factories_insert s _ p pl); [reflexivity|done| |done].
  left. unfold hashed. by destruct (fs s !! Path pl) as [[?|]|].
Qed.

Lemma Discover_own_factories m s m' r s' :
  own_factories s -> Discover m s = Returns (m', r) s' -> own_factories s'.
Proof.
  intros Hs HD.
  destruct (testingMode s) eqn:Ht; [|destruct (exe s) as [exePath|e] eqn:He].
  - rewrite (Discover_testing m s Ht) in HD. by injection HD as _ _ <-.
  - rewrite (Discover_spec m s exePath Ht He) in HD. injection HD as _ _ <-.
    eapply own_factories_app; [reflexivity| |exact Hs].
    apply Forall_fmap, Forall_true. done.
  - rewrite (Discover_no_executable m s e Ht He) in HD. by injection HD as _ _ <-.
Qed.

Lemma LoadAll_own_factories m s m' r s' :
  own_factories s -> LoadAll m s = Returns (m', r) s' -> own_factories s'.
Proof.
  intros Hs H. unfold LoadAll in H. apply bind_inv in H as ([m1 e1] & s1 & H1 & H2).
  assert (Hs1 : own_factories s1).
  { destruct (Plugins m); [by injection H1 as _ _ <-|].
    by eapply Discover_own_factories. }
  destruct e1 as [e|]; [by injection H2 as _ _ <-|].
  apply bind_inv in H2 as (merr & s2 & H2 & H3). injection H3 as _ _ <-.
  by eapply load_pass_own_factories.
Qed.

Lemma LoadUsed_own_factories m path s m' r s' :
  own_factories s -> LoadUsed m path s = Returns (m', r) s' -> own_factories s'.
Proof.
  intros Hs HL. unfold LoadUsed in HL.
  rewrite (bind_Returns _ _ _ _ _ (os_Open_spec path s)) in HL.
  destruct (fs s !! path) as [[data|]|] eqn:Hf;
    simpl in HL; try (by injection HL as _ _ <-).
  destruct (json_Decode data) as [doc|] eqn:Hd; [|by injection HL as _ _ <-].
  rewrite (bind_Returns _ _ _ _ _ (doc_to_wrapper_spec doc s)) in HL.
  simpl in HL. set (s1 := after_decode s doc) in HL.
  assert (Hs1 : own_factories s1).
  { eapply own_factories_app; [reflexivity| |exact Hs].
    apply Forall_fmap, Forall_true. done. }
  destruct (doc_version doc >? usedPluginVersion)%Z; [by injection HL as _ _ <-|].
  by eapply LoadAll_own_factories.
Qed.

Lemma StoreUsed_own_factories m path s r s' :
  own_factories s -> StoreUsed m path s = Returns r s' -> own_factories s'.
Proof.
  intros Hs H. pose proof (StoreUsed_valid _ _ _ _ _ H) as Hv.
  destruct (StoreUsed_spec m path s Hv) as (s2 & Hrun & Hst).
  pose proof (hash_pass_own_factories _ _ _ _ _ Hs Hrun) as Hs2.
  rewrite H in Hst.
  destruct (creatable s path); injection Hst as _ ->; try done;
    by eapply own_factories_heap.
Qed.

(** X6: every operation keeps the factories with their plugins: if each
    factory stored in a struct marks that very struct when called, the same
    holds after [Discover], [LoadAll], [LoadUsed], [StoreUsed],
    [ConfigureCore], [CalcMD5], [Load], [Used] or a call of a factory. *)
Theorem own_factories_kept op m s m' s' :
  own_factories s -> run op m s = Returns m' s' -> own_factories s'.
Proof.
  intros Hs Hrun. destruct op as [| |path|path|core|p|p|p|f]; simpl in Hrun;
    apply bind_inv in Hrun as (x & s1 & H1 & H2).
  - destruct x as [m1 e1]. injection H2 as _ <-. by eapply Discover_own_factories.
  - destruct x as [m1 e1]. injection H2 as _ <-. by eapply LoadAll_own_factories.
  - destruct x as [m1 e1]. injection H2 as _ <-. by eapply LoadUsed_own_factories.
  - injection H2 as _ <-. by eapply StoreUsed_own_factories.
  - injection H2 as _ <-. by rewrite (ConfigureCore_same_state _ _ _ _ _ H1).
  - injection H2 as _ <-. apply CalcMD5_inv in H1 as (pl & Hp & _ & ->).
    eapply (own_factories_insert s _ p pl); [reflexivity|done| |done].
    left. unfold hashed. by destruct (fs s !! Path pl) as [[?|]|].
  - injection H2 as _ <-. apply Load_inv in H1 as (pl & Hp & _ & ->).
    eapply (own_factories_insert s _ p pl); [reflexivity|done| |done].
    unfold loaded. destruct (launch (Path pl) (Args pl)) as [?|?|? [?|]]; try by left.
    right. by eexists.
  - injection H2 as _ <-. unfold Used in H1.
    apply bind_inv in H1 as (pl & s2 & H1 & H3).
    apply deref_same_state in H1 as ->. by injection H3 as _ <-.
  - injection H2 as _ <-. destruct f as [f|]; [|done]. simpl in H1.
    apply bind_inv in H1 as ([] & s2 & H1 & H3). injection H3 as _ <-.
    destruct (heap s !! fac_plugin f) as [pl|] eqn:Hp.
    + rewrite (update_Some _ _ _ _ Hp) in H1. injection H1 as <-.
      eapply (own_factories_insert s _ _ pl); [reflexivity|done| |done]. by left.
    + unfold update, bind, deref in H1. by rewrite Hp in H1.
Qed.

(** ** More on [ConfigureCore] *)

Lemma ConfigureCore_spec m core s pls :
  with_metadata s (elems (plugins m)) pls ->
  ConfigureCore m core s =
  Returns ({| Apps := Some (configure pls (default ∅ (Apps core))) |}, None) s.
Proof.
  intros H. unfold ConfigureCore, Plugins.
  erewrite bind_Returns; [reflexivity|].
  rewrite (configure_loop s _ pls H). by destruct (Apps core).
Qed.

Lemma configure_idempotent (pls : list Plugin) (apps : gmap Tuple (option Factory)) :
  configure pls (configure pls apps) = configure pls apps.
Proof.
  apply map_eq. intros T. rewrite !lookup_configure.
  by destruct (last (filter (fun pl => T ∈ tuples_of pl) pls)).
Qed.

(** X7: a factory that [ConfigureCore] has put into the table under a tuple
    is either the one the core already had there, no handle declaring the
    tuple, or the factory of a handle of the set that declares the tuple;
    calling it then marks that handle, and no other struct, as used. *)
Theorem configured_factory_marks_its_handle m core s pls :
  with_metadata s (elems (plugins m)) pls ->
  own_factories s ->
  exists table,
    ConfigureCore m core s = Returns ({| Apps := Some table |}, None) s /\
    forall (T : Tuple) f,
      table !! T = Some (Some f) ->
      (default ∅ (Apps core) !! T = Some (Some f) /\
       Forall (fun pl => T ∉ tuples_of pl) pls) \/
      (exists p pl s',
         p ∈ elems (plugins m) /\ heap s !! p = Some pl /\
         T ∈ tuples_of pl /\ App pl = Some f /\
         call (Some f) s = Returns (client_App (fac_client f)) s' /\
         is_used s' p = true /\
         forall a, a <> p -> heap s' !! a = heap s !! a).
Proof.
  intros Hmeta Hown. eexists. split; [by apply ConfigureCore_spec|].
  intros T f. rewrite lookup_configure.
  destruct (last (filter (fun pl => T ∈ tuples_of pl) pls)) as [pl|] eqn:E.
  - intros [= Hf]. right.
    apply last_Some_elem_of in E. apply list_elem_of_filter in E as [HT Hin].
    apply list_elem_of_lookup in Hin as [i Hi].
    destruct (Forall2_lookup_r _ _ _ _ _ Hmeta Hi) as (p & Hp & Hpl & _).
    pose proof (Hown p pl f Hpl Hf) as Hfp.
    exists p, pl, (with_heap (<[p := with_used true pl]> (heap s)) s).
    split; [apply list_elem_of_lookup; by exists i|].
    split; [done|]. split; [done|]. split; [done|]. split; [|split].
    + simpl. rewrite Hfp. by rewrite (update_bind _ _ _ _ _ Hpl).
    + rewrite (is_used_insert s p p pl _ Hpl). by rewrite decide_True.
    + intros a Ha. simpl. by rewrite list_lookup_insert_ne.
  - intros Hold. left. split; [done|].
    apply Forall_forall. intros pl Hin HT.
    assert (Hf : pl ∈ filter (fun pl => T ∈ tuples_of pl) pls)
      by (by apply list_elem_of_filter).
    apply last_None in E. rewrite E in Hf. by apply elem_of_nil in Hf.
Qed.

(** X8: [ConfigureCore] changes nothing but the core, and configuring the
    core it has returned once more returns the same core. *)
Theorem ConfigureCore_idempotent m core s pls :
  with_metadata s (elems (plugins m)) pls ->
  exists core',
    ConfigureCore m core s = Returns (core', None) s /\
    ConfigureCore m core' s = Returns (core', None) s.
Proof.
  intros H. eexists. split; [by apply ConfigureCore_spec|].
  rewrite (ConfigureCore_spec m _ s pls H). simpl.
  by rewrite configure_idempotent.
Qed.

(** ** More on [Discover] and [LoadAll] *)

(** X9: when the path of the running executable cannot be determined,
    [Discover] returns that error and replaces nothing; [LoadAll] on a
    manager that has never discovered returns the same error as it is, not
    inside a multierror, and launches nothing. *)
Theorem Discover_failure_replaces_nothing m s e :
  testingMode s = false -> exe s = Err e ->
  Discover m s = Returns (m, Some e) s /\
  (plugins m = None -> LoadAll m s = Returns (m, Some e) s).
Proof.
  intros Ht He. pose proof (Discover_no_executable m s e Ht He) as HD.
  split; [done|]. intros Hm. by rewrite (LoadAll_None m s _ _ _ Hm HD).
Qed.

(** X10: outside testing mode [Discover] appends the new structs behind the
    existing ones and logs one line for each, in the order of the new slice:
    the path of the executable followed by the arguments between brackets.
    It launches nothing and does not touch the files. *)
Theorem Discover_logs_in_handle_order m s exePath :
  testingMode s = false -> exe s = Val exePath ->
  exists keys s',
    keys ≡ₚ (map_to_list (PluginMap m)).*1 /\
    Discover m s =
      Returns (with_plugins (Some (seq (length (heap s)) (length keys))) m, None) s' /\
    heap s' = heap s ++ (builtin exePath <$> keys) /\
    logs s' = logs s ++
      ((fun k => "[DEBUG] Detected plugin: " +:+ exePath +:+
                 " [plugin-builtin " +:+ k +:+ "]") <$> keys) /\
    execs s' = execs s /\ fs s' = fs s.
Proof.
  intros Ht He. exists (range_keys (ranges s) (PluginMap m)), (after_Discover exePath m s).
  split; [apply range_keys_perm|]. split; [by apply Discover_spec|].
  repeat split.
Qed.


(** ** More on [StoreUsed] and [LoadUsed] *)

Lemma StoreUsed_full m path s :
  valid s (elems (plugins m)) ->
  exists s2,
    StoreUsed m path s =
      (if creatable s path
       then Returns None
              (with_fs (<[path := File (json_Encode
                             (manifest_of s2 (used_of s (elems (plugins m)))))]>
                          (fs s)) s2)
       else Returns (Some (ErrCreate path)) s2) /\
    s2 = with_heap (heap s2) s /\
    unhashed <$> heap s2 = unhashed <$> heap s /\
    (forall a pl, heap s !! a = Some pl ->
       exists pl', heap s2 !! a = Some pl' /\
         (a ∉ used_of s (elems (plugins m)) -> pl' = pl) /\
         (a ∈ used_of s (elems (plugins m)) ->
          forall data, fs s !! Path pl = Some (File data) ->
                       MD5 pl' = hex_EncodeToString (md5_Sum data))).
Proof.
  intros Hv.
  destruct (hash_pass_spec (used_of s (elems (plugins m))) None s)
    as (sh & Hrun & Hsh & Hun & Hheap); [by apply valid_used_of|].
  destruct (StoreUsed_spec m path s Hv) as (sh' & Hrun' & Hst).
  rewrite Hrun in Hrun'. injection Hrun' as <-. by exists sh.
Qed.

(** X12: when the destination is a directory, [StoreUsed] returns the error
    of [os.Create] and the files are as before; the hashes of the used
    plugins whose file can be read have been stored in their structs all the
    same, the hashing pass coming first. *)
Theorem StoreUsed_on_directory m path s :
  valid s (elems (plugins m)) ->
  fs s !! path = Some Dir ->
  exists s',
    StoreUsed m path s = Returns (Some (ErrCreate path)) s' /\
    fs s' = fs s /\
    unhashed <$> heap s' = unhashed <$> heap s /\
    forall p pl data,
      p ∈ used_of s (elems (plugins m)) -> heap s !! p = Some pl ->
      fs s !! Path pl = Some (File data) ->
      MD5 <$> heap s' !! p = Some (hex_EncodeToString (md5_Sum data)).
Proof.
  intros Hv Hdir. destruct (StoreUsed_full m path s Hv) as (s2 & Hst & Hs2 & Hun & Hheap).
  rewrite (creatable_Dir s path Hdir) in Hst.
  exists s2. split; [done|]. split; [by rewrite Hs2|].
  split; [done|]. intros p pl data Hin Hp Hdata.
  destruct (Hheap p pl Hp) as (pl' & Hpl' & _ & Hmd5).
  rewrite Hpl'. simpl. by rewrite (Hmd5 Hin data Hdata).
Qed.

(** X21: when [os.Create] is refused, whatever the reason (the destination
    is a directory, the directory it lies in does not exist, the process may
    not write there), [StoreUsed] returns its error and no file is created
    or changed; the hashes of the used plugins whose file can be read have
    been stored in their structs all the same, and no other field has
    changed. *)
Theorem StoreUsed_refused m path s :
  valid s (elems (plugins m)) ->
  creatable s path = false ->
  exists s',
    StoreUsed m path s = Returns (Some (ErrCreate path)) s' /\
    fs s' = fs s /\
    unhashed <$> heap s' = unhashed <$> heap s /\
    forall p pl data,
      p ∈ used_of s (elems (plugins m)) -> heap s !! p = Some pl ->
      fs s !! Path pl = Some (File data) ->
      MD5 <$> heap s' !! p = Some (hex_EncodeToString (md5_Sum data)).
Proof.
  intros Hv Hno. destruct (StoreUsed_full m path s Hv) as (s2 & Hst & Hs2 & Hun & Hheap).
  rewrite Hno in Hst.
  exists s2. split; [done|]. split; [by rewrite Hs2|].
  split; [done|]. intros p pl data Hin Hp Hdata.
  destruct (Hheap p pl Hp) as (pl' & Hpl' & _ & Hmd5).
  rewrite Hpl'. simpl. by rewrite (Hmd5 Hin data Hdata).
Qed.



(** X15: [LoadUsed] returns the error of [os.Open] when there is no file at
    the path, the error of the read when the path is a directory and the
    error of the decoder when the content is not a manifest; in all three
    cases the manager and the state are as before. *)
Theorem LoadUsed_error_changes_nothing m path s :
  (fs s !! path = None ->
   LoadUsed m path s = Returns (m, Some (ErrOpen path)) s) /\
  (fs s !! path = Some Dir ->
   LoadUsed m path s = Returns (m, Some (ErrRead path)) s) /\
  (forall data, fs s !! path = Some (File data) -> json_Decode data = None ->
   LoadUsed m path s = Returns (m, Some (ErrDecode path)) s).
Proof.
  unfold LoadUsed. rewrite (bind_Returns _ _ _ _ _ (os_Open_spec path s)).
  split; [|split].
  - by intros ->.
  - by intros ->.
  - intros data -> Hd. simpl. by rewrite Hd.
Qed.

Lemma objects_length es : length (objects es) <= length es.
Proof.
  unfold objects. induction es as [|[pd|] es IH]; csimpl; lia.
Qed.

(** A slice with a pointer to no struct makes the load pass panic. *)
Lemma LoadAll_nil_pointer m l s p :
  plugins m = Some l -> p ∈ l -> heap s !! p = None -> LoadAll m s = Panics.
Proof.
  intros Hm Hp Hnone. destruct (LoadAll m s) as [x s'|] eqn:HL; [|done].
  apply LoadAll_valid in HL. rewrite Hm in HL. simpl in HL.
  destruct (Forall_forall (fun p => is_Some (heap s !! p)) l) as [Hf _].
  destruct (Hf HL p Hp) as [pl Hpl]. congruence.
Qed.

(** X16: a manifest whose version is not above [usedPluginVersion], be it
    equal, lower or negative, is accepted.  When an entry of its list is
    [null], the slice holds a nil pointer and [LoadUsed] panics in the load
    pass.  When every entry is an object, [LoadUsed] replaces the slice by
    fresh handles, one for each entry and in the order of the list, with
    the path, the arguments and the hash of the entry; none of them is
    marked as used once they have been loaded, the command of each has been
    launched once, in an order that is the scheduler's, the structs that
    existed before are untouched and no file has changed. *)
Theorem LoadUsed_builds_handles_of_manifest m path s data doc entries :
  fs s !! path = Some (File data) ->
  json_Decode data = Some doc ->
  (doc_version doc <= usedPluginVersion)%Z ->
  doc_plugins doc = Some entries ->
  (None ∈ entries -> LoadUsed m path s = Panics) /\
  (forall docs, entries = Some <$> docs ->
   exists r s',
     LoadUsed m path s =
       Returns (with_plugins (Some (seq (length (heap s)) (length docs))) m, r) s' /\
     Forall2 (fun p d =>
                exists pl, heap s' !! p = Some pl /\
                  Path pl = doc_path d /\ Args pl = doc_args d /\
                  MD5 pl = doc_md5 d /\ used pl = false)
             (seq (length (heap s)) (length docs)) docs /\
     execs s' ≡ₚ execs s ++ ((fun d => (doc_path d, doc_args d)) <$> docs) /\
     (forall a pl, heap s !! a = Some pl -> heap s' !! a = Some pl) /\
     fs s' = fs s).
Proof.
  intros Hf Hd Hver Hes.
  assert (Hacc : (doc_version doc >? usedPluginVersion)%Z = false) by lia.
  split.
  { intros Hnull. rewrite (LoadUsed_decoded_any m path s data doc Hf Hd), Hacc.
    unfold decoded, after_decode. rewrite Hes. simpl.
    eapply LoadAll_nil_pointer; [reflexivity|by apply decoded_slice_null|].
    simpl. apply lookup_ge_None. rewrite length_app, length_fmap.
    pose proof (objects_length entries). lia. }
  intros docs ->.
  rewrite (LoadUsed_decoded m path s data doc (Some docs) Hf Hd Hes), Hacc.
  simpl. set (l := seq (length (heap s)) (length docs)).
  set (s1 := with_heap (heap s ++ (doc_to_plugin <$> docs)) s).
  rewrite (LoadAll_Some _ l s1) by done.
  pose proof (lookup_fresh (heap s) (doc_to_plugin <$> docs)) as Hfresh.
  rewrite length_fmap in Hfresh. fold l in Hfresh.
  assert (Hv : valid s1 l).
  { pose proof (valid_fresh (heap s) (doc_to_plugin <$> docs) s1 eq_refl) as V.
    by rewrite length_fmap in V. }
  destruct (load_pass_spec l None s1 Hv) as (s' & Hrun & Hex & Hid & Henv & Hheap).
  rewrite (bind_Returns _ _ _ _ _ Hrun). eexists _, s'. split; [reflexivity|].
  split; [|split; [|split]].
  - apply Forall2_same_length_lookup_2.
    { unfold l. by rewrite length_seq. }
    intros i p d Hp Hdi.
    assert (Hp1 : heap s1 !! p = Some (doc_to_plugin d)).
    { destruct (Forall2_lookup_l _ _ _ _ _ Hfresh Hp) as (pl & Hpl & Hlook).
      rewrite list_lookup_fmap, Hdi in Hpl. injection Hpl as <-. exact Hlook. }
    destruct (Hheap p _ Hp1) as (pl' & Hpl' & _ & Hused).
    exists pl'. split; [done|].
    pose proof (ident_lookup s1 s' p Hid) as E. rewrite Hpl', Hp1 in E.
    simpl in E. apply (inj Some) in E.
    destruct (ident_fields _ _ E) as (-> & -> & ->).
    repeat split. rewrite Hused by (apply list_elem_of_lookup; by exists i).
    by destruct (load_error (doc_to_plugin d)).
  - rewrite Hex. simpl. unfold cmds.
    rewrite (omap_structs cmd s1 l _ Hfresh), <- list_fmap_compose. done.
  - intros a pl Ha.
    assert (Ha1 : heap s1 !! a = Some pl) by (by apply lookup_app_l_Some).
    destruct (Hheap a pl Ha1) as (pl' & Hpl' & Hout & _).
    rewrite Hpl', Hout; [done|]. unfold l. intros Hin.
    apply elem_of_seq in Hin. apply lookup_lt_Some in Ha. lia.
  - by destruct Henv as (-> & _).
Qed.

(** X17: a manifest of an accepted version that has no list of plugins
    leaves the manager with a nil slice, so that [LoadUsed] is then
    [LoadAll] on a manager that has never discovered anything: outside
    testing mode the built-in plugins are discovered and loaded. *)
Theorem LoadUsed_without_list_discovers m path s data doc :
  fs s !! path = Some (File data) ->
  json_Decode data = Some doc ->
  (doc_version doc <= usedPluginVersion)%Z ->
  doc_plugins doc = None ->
  LoadUsed m path s = LoadAll (with_plugins None m) s /\
  forall exePath, testingMode s = false -> exe s = Val exePath ->
    exists l r s',
      LoadUsed m path s = Returns (with_plugins (Some l) m, r) s' /\
      length l = size (PluginMap m) /\
      execs s' = execs s ++ cmds s' l /\
      length (cmds s' l) = length l.
Proof.
  intros Hf Hd Hver Hnone.
  assert (E : LoadUsed m path s = LoadAll (with_plugins None m) s).
  { rewrite (LoadUsed_decoded m path s data doc None Hf Hd Hnone).
    assert ((doc_version doc >? usedPluginVersion)%Z = false) as -> by lia.
    simpl. by rewrite app_nil_r, with_heap_id. }
  split; [exact E|]. intros exePath Ht He. rewrite E.
  rewrite (LoadAll_None (with_plugins None m) s _ _ _ eq_refl
             (Discover_spec (with_plugins None m) s exePath Ht He)).
  simpl. set (keys := range_keys (ranges s) (PluginMap m)).
  set (l := seq (length (heap s)) (length keys)).
  destruct (load_pass_returns (with_plugins (Some l) m) l (after_Discover exePath m s))
    as (s' & Hrun & Hex & Hlen & _).
  { unfold l. erewrite <- (length_fmap (builtin exePath)). by eapply valid_fresh. }
  exists l, (aggregate (load_failures s' l)), s'.
  split; [exact Hrun|]. split; [|by split].
  unfold l, keys. by rewrite length_seq, range_keys_perm, length_fmap, length_map_to_list.
Qed.

(** ** What the operations leave alone *)

Lemma Discover_frame m s x s' :
  Discover m s = Returns x s' -> fs s' = fs s /\ execs s' = execs s.
Proof.
  intros HD. destruct x as [m' r].
  destruct (testingMode s) eqn:Ht; [|destruct (exe s) as [exePath|e] eqn:He].
  - rewrite (Discover_testing m s Ht) in HD. by injection HD as _ _ <-.
  - rewrite (Discover_spec m s exePath Ht He) in HD. by injection HD as _ _ <-.
  - rewrite (Discover_no_executable m s e Ht He) in HD. by injection HD as _ _ <-.
Qed.

Lemma load_pass_fs l merr s r s' :
  range_acc load_task l merr s = Returns r s' -> fs s' = fs s.
Proof.
  apply (range_acc_invariant (fun st => fs st = fs s)); [|done].
  intros p merr0 s0 merr' s0' Hs H.
  apply load_task_inv in H as (pl & _ & ->). done.
Qed.

Lemma LoadAll_fs m s x s' : LoadAll m s = Returns x s' -> fs s' = fs s.
Proof.
  intros H. unfold LoadAll in H. apply bind_inv in H as ([m1 e1] & s1 & H1 & H2).
  assert (Hs1 : fs s1 = fs s).
  { destruct (Plugins m); [by injection H1 as _ _ <-|].
    by apply Discover_frame in H1 as [? _]. }
  destruct e1 as [e|]; [by injection H2 as _ <-|].
  apply bind_inv in H2 as (merr & s2 & H2 & H3). injection H3 as _ <-.
  by rewrite (load_pass_fs _ _ _ _ _ H2).
Qed.

Lemma LoadUsed_fs m path s x s' : LoadUsed m path s = Returns x s' -> fs s' = fs s.
Proof.
  intros HL. unfold LoadUsed in HL.
  rewrite (bind_Returns _ _ _ _ _ (os_Open_spec path s)) in HL.
  destruct (fs s !! path) as [[data|]|] eqn:Hf;
    simpl in HL; try (by injection HL as _ <-).
  destruct (json_Decode data) as [doc|] eqn:Hd; [|by injection HL as _ <-].
  rewrite (bind_Returns _ _ _ _ _ (doc_to_wrapper_spec doc s)) in HL.
  simpl in HL.
  destruct (doc_version doc >? usedPluginVersion)%Z; [by injection HL as _ <-|].
  by rewrite (LoadAll_fs _ _ _ _ HL).
Qed.

(** X18: the operations keep to their own ground.  Only [StoreUsed] changes
    the files, and only the one at its destination; only [Load], [LoadAll]
    and [LoadUsed] launch commands. *)
Theorem operations_keep_to_their_ground op m s m' s' :
  run op m s = Returns m' s' ->
  match op with
  | OpLoad _ | OpLoadAll | OpLoadUsed _ => fs s' = fs s
  | OpStoreUsed path =>
      execs s' = execs s /\ forall q, q <> path -> fs s' !! q = fs s !! q
  | _ => fs s' = fs s /\ execs s' = execs s
  end.
Proof.
  intros Hrun. destruct op as [| |path|path|core|p|p|p|f]; simpl in Hrun;
    apply bind_inv in Hrun as (x & s1 & H1 & H2).
  - destruct x as [m1 e1]. injection H2 as _ <-. by eapply Discover_frame.
  - destruct x as [m1 e1]. injection H2 as _ <-. by eapply LoadAll_fs.
  - destruct x as [m1 e1]. injection H2 as _ <-. by eapply LoadUsed_fs.
  - injection H2 as _ <-. pose proof (StoreUsed_valid _ _ _ _ _ H1) as Hv.
    destruct (StoreUsed_full m path s Hv) as (s2 & Hst & Hs2 & _).
    rewrite H1 in Hst.
    assert (Hex : execs s2 = execs s) by (by rewrite Hs2).
    assert (Hfs : fs s2 = fs s) by (by rewrite Hs2).
    destruct (creatable s path); injection Hst as _ ->; simpl;
      (split; [done|]); intros q Hq; rewrite ?Hfs; try done;
      by rewrite lookup_insert_ne.
  - injection H2 as _ <-. by rewrite (ConfigureCore_same_state _ _ _ _ _ H1).
  - injection H2 as _ <-. by apply CalcMD5_inv in H1 as (pl & _ & _ & ->).
  - injection H2 as _ <-. by apply Load_inv in H1 as (pl & _ & _ & ->).
  - injection H2 as _ <-. unfold Used in H1.
    apply bind_inv in H1 as (pl & s2 & H1 & H3).
    apply deref_same_state in H1 as ->. by injection H3 as _ <-.
  - injection H2 as _ <-. destruct f as [f|]; [|done]. simpl in H1.
    apply bind_inv in H1 as ([] & s2 & H1 & H3). injection H3 as _ <-.
    unfold update in H1. apply bind_inv in H1 as (pl & s3 & H1 & H4).
    apply deref_same_state in H1 as ->. by injection H4 as <-.
Qed.

Lemma nsteps_remaining body l n pl pl' :
  nsteps (pool_step body l) n pl pl' -> n + remaining pl' = remaining pl.
Proof.
  induction 1 as [pl|n pl1 pl2 pl3 Hstep _ IH]; [done|].
  rewrite (pool_step_remaining _ _ _ _ Hstep). lia.
Qed.

Lemma remaining_start l err s : remaining (pool_start l err s) = 3 * length l.
Proof.
  unfold remaining, pool_start. simpl.
  induction (length l) as [|k IH]; [done|]. csimpl. lia.
Qed.

Lemma remaining_all_exited pl : all_exited pl -> remaining pl = 0.
Proof.
  unfold all_exited, remaining. induction 1 as [|ph ts -> _ IH]; [done|].
  csimpl. by rewrite IH.
Qed.

(** X11: [LoadAll] keeps no record of what it has launched.  On a slice that
    is not nil it can be repeated, and the second call launches every plugin
    once more: together the two calls have handed the command of every
    handle to the plugin client twice, while the slice and the path, the
    arguments and the hash of every struct are as before.  This holds of the
    run of the goroutines one after the other and of every interleaving of
    the goroutines of the two calls. *)
Theorem LoadAll_again_launches_again m l s :
  plugins m = Some l -> valid s l ->
  (exists r1 r2 s1 s2,
     LoadAll m s = Returns (m, r1) s1 /\
     LoadAll m s1 = Returns (m, r2) s2 /\
     execs s2 ≡ₚ execs s ++ cmds s l ++ cmds s l /\
     ident <$> heap s2 = ident <$> heap s) /\
  (forall pl1 pl2,
     rtc (pool_step load_task l) (pool_start l None s) pl1 ->
     all_exited pl1 ->
     rtc (pool_step load_task l) (pool_start l None (world pl1)) pl2 ->
     all_exited pl2 ->
     execs (world pl2) ≡ₚ execs s ++ cmds s l ++ cmds s l /\
     ident <$> heap (world pl2) = ident <$> heap s).
Proof.
  intros Hm Hv. split.
  - destruct (load_pass_returns m l s Hv) as (s1 & H1 & Hex1 & _ & Hid1 & _).
    assert (Hv1 : valid s1 l) by by eapply ident_valid.
    destruct (load_pass_returns m l s1 Hv1) as (s2 & H2 & Hex2 & _ & Hid2 & _).
    eexists _, _, s1, s2.
    rewrite !(LoadAll_Some m l _ Hm). split; [exact H1|]. split; [exact H2|].
    split; [|by rewrite Hid2].
    rewrite Hex2, Hex1, (ident_cmds _ _ _ Hid2), (ident_cmds _ _ _ Hid1).
    by rewrite <- app_assoc.
  - intros pl1 pl2 Hrtc1 Hall1 Hrtc2 Hall2.
    destruct (load_pool_state l None s pl1 Hv Hrtc1)
      as (o1 & Hp1 & Hex1 & _ & Hid1 & Hlen1).
    rewrite (ran_all_exited _ _ Hlen1 Hall1) in Hp1.
    assert (Hv1 : valid (world pl1) l) by by eapply ident_valid.
    destruct (load_pool_state l None (world pl1) pl2 Hv1 Hrtc2)
      as (o2 & Hp2 & Hex2 & _ & Hid2 & Hlen2).
    rewrite (ran_all_exited _ _ Hlen2 Hall2) in Hp2.
    split; [|by rewrite Hid2].
    rewrite Hex2, Hex1, (ident_cmds _ _ _ Hid1), <- app_assoc.
    by rewrite (cmds_Permutation s o1 l Hp1), (cmds_Permutation s o2 l Hp2).
Qed.


Lemma in_flight_all_exited pl : all_exited pl -> in_flight pl = 0.
Proof.
  unfold all_exited, in_flight. induction 1 as [|ph ts -> _ IH]; [done|].
  csimpl. by rewrite IH.
Qed.

Lemma pool_step_inv body (inv : State -> Prop) l pl pl' :
  (forall p err w, p ∈ l -> inv w ->
     exists err' w', body p err w = Returns err' w' /\ inv w') ->
  pool_step body l pl pl' -> inv (world pl) -> inv (world pl').
Proof.
  intros Hbody Hstep Hinv.
  destruct Hstep as [i free pl _ _|i p err' s' pl _ Hp Hrun|i pl _]; simpl; try done.
  destruct (Hbody p (shared_err pl) (world pl)) as (err'' & w'' & Hrun' & Hinv');
    [apply list_elem_of_lookup; by exists i|done|].
  rewrite Hrun in Hrun'. by injection Hrun' as _ ->.
Qed.

Lemma pool_inv body (inv : State -> Prop) l pl pl' :
  (forall p err w, p ∈ l -> inv w ->
     exists err' w', body p err w = Returns err' w' /\ inv w') ->
  rtc (pool_step body l) pl pl' -> inv (world pl) -> inv (world pl').
Proof.
  intros Hbody. induction 1 as [pl|pl1 pl2 pl3 Hstep _ IH]; [done|].
  intros Hinv. apply IH. by eapply pool_step_inv.
Qed.

(** X19: the goroutines of a pass cannot get stuck and cannot go on for
    ever, provided the body of every goroutine returns: for the load pass,
    provided no child process leaves [Load] hanging.  (A body that does not
    return never hands back its permit; nothing in the code makes up for
    it.)  The proviso is stated for the states that satisfy an invariant of
    the bodies.  Then after [n] steps of whatever interleaving, with at
    least one permit, [n] is at most three times the number of handles; as
    long as a goroutine has not exited, one of them can take a step; and
    once all have exited, [n] is exactly that bound and every permit is
    back. *)
Theorem goroutines_run_to_completion
        (body : addr -> option error -> M (option error))
        (inv : State -> Prop) l s n pl :
  0 < NumCPU ->
  inv s ->
  (forall p err w, p ∈ l -> inv w ->
     exists err' w', body p err w = Returns err' w' /\ inv w') ->
  nsteps (pool_step body l) n (pool_start l None s) pl ->
  n + remaining pl = 3 * length l /\
  inv (world pl) /\
  (~ all_exited pl -> exists pl', pool_step body l pl pl') /\
  (all_exited pl -> n = 3 * length l /\ sema pl = NumCPU).
Proof.
  intros HN Hs Hbody Hn.
  assert (Hrtc : rtc (pool_step body l) (pool_start l None s) pl)
    by (by eapply rtc_nsteps_2).
  pose proof (nsteps_remaining _ _ _ _ _ Hn) as Hcount.
  rewrite remaining_start in Hcount.
  pose proof (pool_permits _ _ _ _ _ Hrtc) as Hperm.
  pose proof (pool_inv body inv l _ _ Hbody Hrtc Hs) as Hinv.
  destruct (pool_serial _ _ _ _ _ Hrtc) as (_ & _ & _ & Hlen).
  split; [done|]. split; [done|]. split.
  - intros Hnot.
    destruct (decide (in_flight pl = 0)) as [Hzero|Hpos].
    + (* nobody holds a permit: a spawned goroutine acquires one *)
      apply not_Forall_Exists in Hnot; [|intros ph; destruct ph; (by left) || (by right)].
      apply Exists_exists in Hnot as (ph & Hin & Hph).
      pose proof (sum_list_zero holds _ ph Hzero Hin) as Hh.
      assert (ph = Spawned) as ->.
      { destruct ph; try done. exfalso. by apply Hph. }
      apply list_elem_of_lookup in Hin as [i Hi].
      destruct (sema pl) as [|free] eqn:Hsema; [lia|].
      eexists. eapply (step_Acquire _ _ i free); [done|]. by rewrite Hsema.
    + destruct (sum_list_pos holds (tasks pl)) as (i & ph & Hi & Hph);
        [unfold in_flight in Hpos; lia|].
      destruct ph; simpl in Hph; try lia.
      * (* a working goroutine finishes its body *)
        destruct (lookup_lt_is_Some_2 l i) as [p Hp].
        { rewrite <- Hlen. by eapply lookup_lt_Some. }
        destruct (Hbody p (shared_err pl) (world pl)) as (err' & w' & Hrun & _);
          [apply list_elem_of_lookup; by exists i|done|].
        eexists. by eapply (step_body _ _ i p).
      * (* a finished goroutine releases its permit *)
        eexists. by eapply (step_Release _ _ i).
  - intros Hall. split.
    + rewrite (remaining_all_exited pl Hall) in Hcount. lia.
    + rewrite (in_flight_all_exited pl Hall) in Hperm. lia.
Qed.

(** X20: whatever the interleaving of the goroutines of the hashing pass of
    [StoreUsed], once all have exited every handle of the pass whose file
    can be read holds the digest of that file, the structs outside the pass
    are untouched and no field other than the hash has changed. *)
Theorem hash_goroutines_any_order l s pl :
  valid s l ->
  rtc (pool_step hash_task l) (pool_start l None s) pl ->
  all_exited pl ->
  unhashed <$> heap (world pl) = unhashed <$> heap s /\
  forall a pl0, heap s !! a = Some pl0 ->
    exists pl', heap (world pl) !! a = Some pl' /\
      (a ∉ l -> pl' = pl0) /\
      (a ∈ l -> forall data, fs s !! Path pl0 = Some (File data) ->
                MD5 pl' = hex_EncodeToString (md5_Sum data)).
Proof.
  intros Hv Hrtc Hall.
  destruct (pool_serial _ _ _ _ _ Hrtc) as (order & Hperm & Hrun & Hlen).
  rewrite (ran_all_exited _ _ Hlen Hall) in Hperm.
  assert (Hvo : valid s order) by (eapply valid_Permutation; [symmetry|]; done).
  destruct (hash_pass_spec order None s Hvo) as (s' & Hrun' & _ & Hun & Hheap).
  rewrite Hrun in Hrun'. injection Hrun' as _ <-.
  split; [done|]. intros a pl0 Ha.
  destruct (Hheap a pl0 Ha) as (pl' & Hpl' & Hout & Hin).
  exists pl'. split; [done|]. split.
  - intros Hnin. apply Hout. by rewrite Hperm.
  - intros Hain. apply Hin. by rewrite Hperm.
Qed.

End Model.

(** ** The statements on the concrete environment *)

Lemma ex_range_keys_perm n (pm : gmap string ServeMux) :
  ex_range_keys n pm ≡ₚ (map_to_list pm).*1.
Proof. done. Qed.

Lemma ex_md5_Sum_length data : length (ex_md5_Sum data) = 16.
Proof. done. Qed.

Lemma ex_roundtrip d : ex_exact d -> ex_Decode (ex_Encode d) = Some d.
Proof. done. Qed.

(** The scenario of the specification: discovery finds the two built-in
    plugins, both load, and only the build plugin is used. *)
Lemma ex_scenario :
  LoadAll ex_range_keys ex_launch ex_manager ex_state =
    Returns (ex_loaded_manager, None) (ex_loaded_state false) /\
  call (Some {| fac_plugin := 0; fac_client := 0 |}) (ex_loaded_state false) =
    Returns (client_App 0) (ex_loaded_state true) /\
  StoreUsed ex_md5_Sum ex_Encode ex_loaded_manager "used.json" (ex_loaded_state true) =
    Returns None ex_stored_state.
Proof. repeat split; vm_compute; reflexivity. Qed.

(** C1: the code at a failing input.  The only used handle cannot be hashed,
    since its file is gone; [StoreUsed] nevertheless returns nil and writes a
    manifest in which the handle has no hash. *)
Theorem StoreUsed_writes_after_failed_hash :
  CalcMD5 ex_md5_Sum 0 ex_stale_state =
    Returns (Some (ErrOpen "/bin/gone")) ex_stale_state /\
  StoreUsed ex_md5_Sum ex_Encode ex_stale_manager "used.json" ex_stale_state =
    Returns None
      (with_fs (<["used.json" :=
                   File (ex_Encode
                           {| doc_version := usedPluginVersion;
                              doc_plugins := Some [Some {| doc_path := "/bin/gone";
                                                           doc_args := [];
                                                           doc_md5 := "" |}] |})]>
                  (fs ex_stale_state))
         ex_stale_state).
Proof. split; vm_compute; reflexivity. Qed.

(** C2: the code at a failing input.  The handle carries a hash, the file at
    its path hashes to another value, and [Load] succeeds and leaves the
    stored hash in place. *)
Theorem Load_accepts_diverged_hash :
  (exists s', CalcMD5 ex_md5_Sum 0 ex_pinned_state = Returns None s' /\
              MD5 <$> heap s' !! 0 = Some "04000000000000000000000000000000") /\
  MD5 ex_pinned = "d41d8cd98f00b204e9800998ecf8427e" /\
  exists s', Load ex_launch 0 ex_pinned_state = Returns None s' /\
             MD5 <$> heap s' !! 0 = Some "d41d8cd98f00b204e9800998ecf8427e".
Proof.
  split; [|split; [reflexivity|]]; eexists; split; vm_compute; reflexivity.
Qed.

(** C3 does not hold as stated: [LoadAll] has loaded the first handle and
    reported the failure of the second, and [ConfigureCore] then installs
    nothing and panics on the handle that has no metadata. *)
Lemma ConfigureCore_panics_after_failed_load :
  exists e s1,
    LoadAll ex_range_keys ex_launch ex_loaded_manager ex_mixed_state =
      Returns (ex_loaded_manager, Some e) s1 /\
    App <$> heap s1 !! 0 = Some (Some {| fac_plugin := 0; fac_client := 0 |}) /\
    AppMeta <$> heap s1 !! 1 = Some None /\
    ConfigureCore ex_loaded_manager {| Apps := None |} s1 = Panics.
Proof. eexists _, _. repeat split; vm_compute; reflexivity. Qed.

Lemma ConfigureCore_installs_last_wins_witness :
  with_metadata ex_rival_state (elems (plugins ex_loaded_manager))
                [ex_rival 0; ex_rival 1] /\
  exists table,
    ConfigureCore ex_loaded_manager {| Apps := None |} ex_rival_state =
      Returns ({| Apps := Some table |}, None) ex_rival_state /\
    forall T : Tuple,
      table !! T =
      match last (filter (fun pl => T ∈ tuples_of pl) [ex_rival 0; ex_rival 1]) with
      | Some pl => Some (App pl)
      | None => default ∅ (Apps {| Apps := None |}) !! T
      end.
Proof.
  assert (H : with_metadata ex_rival_state (elems (plugins ex_loaded_manager))
                [ex_rival 0; ex_rival 1]).
  { repeat constructor; by eexists. }
  split; [exact H|].
  exact (ConfigureCore_installs_last_wins ex_loaded_manager {| Apps := None |}
           ex_rival_state [ex_rival 0; ex_rival 1] H).
Defined.

Lemma LoadUsed_rejects_newer_version_witness :
  fs ex_newer_state !! "used.json" = Some (File (ex_Encode ex_newer_doc)) /\
  ex_Decode (ex_Encode ex_newer_doc) = Some ex_newer_doc /\
  (doc_version ex_newer_doc > usedPluginVersion)%Z /\
  exists s',
    LoadUsed ex_Decode ex_range_keys ex_launch ex_loaded_manager "used.json"
             ex_newer_state =
      Returns (ex_loaded_manager, Some ErrUsedVersion) s' /\
    heap ex_newer_state `prefix_of` heap s' /\
    (forall a pl, heap ex_newer_state !! a = Some pl -> heap s' !! a = Some pl) /\
    with_heap (heap ex_newer_state) s' = ex_newer_state.
Proof.
  assert (H1 : fs ex_newer_state !! "used.json" = Some (File (ex_Encode ex_newer_doc)))
    by (vm_compute; reflexivity).
  assert (H2 : ex_Decode (ex_Encode ex_newer_doc) = Some ex_newer_doc)
    by (vm_compute; reflexivity).
  assert (H3 : (doc_version ex_newer_doc > usedPluginVersion)%Z) by reflexivity.
  split; [exact H1|]. split; [exact H2|]. split; [exact H3|].
  exact (LoadUsed_rejects_newer_version ex_Decode ex_range_keys ex_launch
           ex_loaded_manager "used.json" ex_newer_state _ _ H1 H2 H3).
Defined.

Lemma LoadAll_attempts_every_handle_witness :
  plugins ex_loaded_manager = Some [0; 1] /\
  valid ex_mixed_state [0; 1] /\
  exists order r s',
    order ≡ₚ [0; 1] /\
    LoadAll ex_range_keys ex_launch ex_loaded_manager ex_mixed_state =
      Returns (ex_loaded_manager, r) s' /\
    execs s' = execs ex_mixed_state ++ cmds ex_mixed_state order /\
    length (cmds ex_mixed_state order) = length [0; 1] /\
    r = aggregate (load_failures ex_launch ex_mixed_state order) /\
    forall p plg, p ∈ [0; 1] -> heap ex_mixed_state !! p = Some plg ->
      exists c, heap s' !! p = Some (loaded ex_launch p c plg).
Proof.
  assert (H : valid ex_mixed_state [0; 1]).
  { repeat constructor; by eexists. }
  split; [reflexivity|]. split; [exact H|].
  exact (proj1 (LoadAll_attempts_every_handle ex_range_keys ex_launch 4
                  ex_loaded_manager [0; 1] ex_mixed_state eq_refl H)).
Defined.

(** C6 does not hold as stated: the build plugin has been used, and a
    second [LoadAll] resets its flag. *)
Lemma LoadAll_resets_used :
  call (Some {| fac_plugin := 0; fac_client := 0 |}) (ex_loaded_state false) =
    Returns (client_App 0) (ex_loaded_state true) /\
  is_used (ex_loaded_state true) 0 = true /\
  exists r s',
    LoadAll ex_range_keys ex_launch ex_loaded_manager (ex_loaded_state true) =
      Returns (ex_loaded_manager, r) s' /\
    is_used s' 0 = false.
Proof.
  split; [vm_compute; reflexivity|]. split; [reflexivity|].
  eexists _, _. split; vm_compute; reflexivity.
Qed.

Lemma used_kept_until_reloaded_witness :
  valid (ex_loaded_state false) (elems (plugins ex_loaded_manager)) /\
  run ex_md5_Sum ex_Encode ex_Decode ex_range_keys ex_launch
      (OpCall (Some {| fac_plugin := 0; fac_client := 0 |}))
      ex_loaded_manager (ex_loaded_state false) =
    Returns ex_loaded_manager (ex_loaded_state true) /\
  is_used (ex_loaded_state true) 0 = true.
Proof.
  assert (H1 : valid (ex_loaded_state false) (elems (plugins ex_loaded_manager))).
  { repeat constructor; by eexists. }
  assert (H2 : run ex_md5_Sum ex_Encode ex_Decode ex_range_keys ex_launch
                 (OpCall (Some {| fac_plugin := 0; fac_client := 0 |}))
                 ex_loaded_manager (ex_loaded_state false) =
               Returns ex_loaded_manager (ex_loaded_state true))
    by (vm_compute; reflexivity).
  split; [exact H1|]. split; [exact H2|].
  destruct (used_kept_until_reloaded ex_md5_Sum ex_Encode ex_Decode ex_range_keys
              ex_launch _ _ _ _ _ 0 H1 H2) as (_ & Hcall & _).
  exact (Hcall _ eq_refl eq_refl).
Defined.

(** C7 does not hold as stated: the path of the used plugin is not valid
    UTF-8.  Its file is hashed and the manifest is written, but with the
    path the encoder has made of it, so that the handle [LoadUsed] builds
    has another path than the handle that was used. *)
Lemma StoreUsed_LoadUsed_coerces_path :
  valid ex_odd_state (elems (plugins ex_stale_manager)) /\
  used_of ex_odd_state (elems (plugins ex_stale_manager)) = [0] /\
  (exists s', CalcMD5 ex_md5_Sum 0 ex_odd_state = Returns None s') /\
  exists s1 r s2 pl2,
    StoreUsed ex_md5_Sum utf8_Encode ex_stale_manager "used.json" ex_odd_state =
      Returns None s1 /\
    LoadUsed ex_Decode ex_range_keys ex_launch ex_manager "used.json" s1 =
      Returns (with_plugins (Some [1]) ex_manager, r) s2 /\
    heap s2 !! 1 = Some pl2 /\
    Path pl2 = "/bin/ott" +:+ utf8_coerce (String (ascii_of_nat 255) "") /\
    Path pl2 <> Path ex_odd.
Proof.
  split; [repeat constructor; by eexists|].
  split; [vm_compute; reflexivity|].
  split; [eexists; vm_compute; reflexivity|].
  eexists _, _, _, _.
  split; [vm_compute; reflexivity|].
  split; [vm_compute; reflexivity|].
  split; [vm_compute; reflexivity|].
  split; [vm_compute; reflexivity|].
  vm_compute. discriminate.
Qed.

Lemma StoreUsed_LoadUsed_roundtrip_witness :
  valid (ex_loaded_state true) (elems (plugins ex_loaded_manager)) /\
  Forall (fun p => exists s', CalcMD5 ex_md5_Sum p (ex_loaded_state true) = Returns None s')
         (used_of (ex_loaded_state true) (elems (plugins ex_loaded_manager))) /\
  StoreUsed ex_md5_Sum ex_Encode ex_loaded_manager "used.json" (ex_loaded_state true) =
    Returns None ex_stored_state /\
  ex_exact (manifest_of ex_stored_state
              (used_of (ex_loaded_state true) (elems (plugins ex_loaded_manager)))) /\
  exists l2 r s2,
    LoadUsed ex_Decode ex_range_keys ex_launch ex_manager "used.json" ex_stored_state =
      Returns (with_plugins (Some l2) ex_manager, r) s2 /\
    Forall2 (fun p2 p =>
               exists pl2 pl,
                 heap s2 !! p2 = Some pl2 /\ heap (ex_loaded_state true) !! p = Some pl /\
                 Path pl2 = Path pl /\ Args pl2 = Args pl /\ MD5 pl2 <> "")
            l2 (used_of (ex_loaded_state true) (elems (plugins ex_loaded_manager))).
Proof.
  assert (H1 : valid (ex_loaded_state true) (elems (plugins ex_loaded_manager))).
  { repeat constructor; by eexists. }
  assert (H2 : Forall (fun p => exists s',
                         CalcMD5 ex_md5_Sum p (ex_loaded_state true) = Returns None s')
                 (used_of (ex_loaded_state true) (elems (plugins ex_loaded_manager)))).
  { change (used_of _ _) with [0]. repeat constructor. eexists. vm_compute. reflexivity. }
  assert (H3 : StoreUsed ex_md5_Sum ex_Encode ex_loaded_manager "used.json"
                 (ex_loaded_state true) = Returns None ex_stored_state)
    by (vm_compute; reflexivity).
  assert (H4 : ex_exact (manifest_of ex_stored_state
                 (used_of (ex_loaded_state true) (elems (plugins ex_loaded_manager)))))
    by (vm_compute; reflexivity).
  split; [exact H1|]. split; [exact H2|]. split; [exact H3|]. split; [exact H4|].
  exact (StoreUsed_LoadUsed_roundtrip ex_md5_Sum ex_Encode ex_Decode ex_range_keys
           ex_launch ex_md5_Sum_length ex_exact ex_roundtrip
           ex_loaded_manager ex_manager "used.json" _ _ H1 H2 H3 H4).
Defined.

Lemma Discover_replaces_with_builtins_witness :
  testingMode ex_state = false /\ exe ex_state = Val "/bin/otto" /\
  exists l s',
    Discover ex_range_keys ex_manager ex_state =
      Returns (with_plugins (Some l) ex_manager, None) s' /\
    NoDup l /\
    (forall a, a ∈ l -> heap ex_state !! a = None) /\
    (fun a => heap s' !! a) <$> l
      ≡ₚ (fun k => Some (builtin "/bin/otto" k)) <$> (map_to_list (PluginMap ex_manager)).*1 /\
    NoDup (map_to_list (PluginMap ex_manager)).*1 /\
    length l = size (PluginMap ex_manager) /\
    exists l2 s2,
      Discover ex_range_keys (with_plugins (Some l) ex_manager) s' =
        Returns (with_plugins (Some l2) ex_manager, None) s2 /\
      (forall a, a ∈ l2 -> a ∉ l) /\
      (fun a => heap s2 !! a) <$> l2
        ≡ₚ (fun k => Some (builtin "/bin/otto" k)) <$> (map_to_list (PluginMap ex_manager)).*1 /\
      length l2 = length l.
Proof.
  split; [reflexivity|]. split; [reflexivity|].
  exact (Discover_replaces_with_builtins ex_range_keys ex_range_keys_perm
           ex_manager ex_state "/bin/otto" eq_refl eq_refl).
Defined.

Lemma passes_bounded_by_permits_witness :
  let pl := {| sema := 3; tasks := [Working; Spawned];
               shared_err := None; world := ex_mixed_state |} in
  (rtc (pool_step (load_task ex_launch) [0; 1]) (pool_start 4 [0; 1] None ex_mixed_state) pl \/
   rtc (pool_step (hash_task ex_md5_Sum) [0; 1]) (pool_start 4 [0; 1] None ex_mixed_state) pl) /\
  working pl <= 4 /\ sema pl + in_flight pl = 4.
Proof.
  intros pl.
  assert (H : rtc (pool_step (load_task ex_launch) [0; 1])
                (pool_start 4 [0; 1] None ex_mixed_state) pl).
  { apply rtc_once.
    exact (step_Acquire (load_task ex_launch) [0; 1] 0 3
             (pool_start 4 [0; 1] None ex_mixed_state) eq_refl eq_refl). }
  split; [by left|].
  exact (passes_bounded_by_permits ex_md5_Sum ex_launch 4 [0; 1] None
           ex_mixed_state pl (or_introl H)).
Defined.

Lemma LoadAll_discovers_iff_nil_witness :
  plugins (with_plugins (Some []) ex_manager) = Some [] /\
  LoadAll ex_range_keys ex_launch (with_plugins (Some []) ex_manager) ex_state =
    Returns (with_plugins (Some []) ex_manager, None) ex_state.
Proof.
  split; [reflexivity|].
  destruct (LoadAll_discovers_iff_nil ex_range_keys ex_launch
              (with_plugins (Some []) ex_manager) ex_state) as (_ & _ & H & _).
  exact (H eq_refl).
Defined.

(** ** The further statements on the concrete environment *)

Lemma ex_valid_loaded b : valid (ex_loaded_state b) (elems (plugins ex_loaded_manager)).
Proof. repeat constructor; by eexists. Qed.

Lemma ex_valid_mixed : valid ex_mixed_state [0; 1].
Proof. repeat constructor; by eexists. Qed.

Lemma ex_own_factories_loaded b : own_factories (ex_loaded_state b).
Proof.
  intros p pl f Hp Hf. destruct p as [|[|p]]; simpl in Hp; try done.
  - injection Hp as <-. by injection Hf as <-.
  - injection Hp as <-. by injection Hf as <-.
Qed.

Lemma ex_own_factories_rival : own_factories ex_rival_state.
Proof.
  intros p pl f Hp Hf. destruct p as [|[|p]]; simpl in Hp; try done.
  - injection Hp as <-. by injection Hf as <-.
  - injection Hp as <-. by injection Hf as <-.
Qed.

Lemma ex_rival_metadata :
  with_metadata ex_rival_state (elems (plugins ex_loaded_manager))
                [ex_rival 0; ex_rival 1].
Proof. repeat constructor; by eexists. Qed.

Lemma CalcMD5_error_changes_nothing_witness :
  CalcMD5 ex_md5_Sum 0 ex_stale_state =
    Returns (Some (ErrOpen "/bin/gone")) ex_stale_state /\
  exists pl, heap ex_stale_state !! 0 = Some pl /\
    ((fs ex_stale_state !! Path pl = None /\ ErrOpen "/bin/gone" = ErrOpen (Path pl)) \/
     (fs ex_stale_state !! Path pl = Some Dir /\ ErrOpen "/bin/gone" = ErrRead (Path pl))).
Proof.
  assert (H : CalcMD5 ex_md5_Sum 0 ex_stale_state =
              Returns (Some (ErrOpen "/bin/gone")) ex_stale_state)
    by (vm_compute; reflexivity).
  split; [exact H|].
  exact (proj2 (CalcMD5_error_changes_nothing ex_md5_Sum 0 ex_stale_state _ _ H)).
Defined.

Lemma CalcMD5_stores_hex_digest_witness :
  CalcMD5 ex_md5_Sum 0 ex_pinned_state =
    Returns None (with_heap [with_MD5 "04000000000000000000000000000000" ex_pinned]
                            ex_pinned_state) /\
  exists pl data,
    heap ex_pinned_state !! 0 = Some pl /\
    fs ex_pinned_state !! Path pl = Some (File data) /\
    with_heap [with_MD5 "04000000000000000000000000000000" ex_pinned] ex_pinned_state =
      with_heap (<[0 := with_MD5 (hex_EncodeToString (ex_md5_Sum data)) pl]>
                   (heap ex_pinned_state)) ex_pinned_state /\
    String.length (hex_EncodeToString (ex_md5_Sum data)) = 32 /\
    Forall (fun c => c ∈ hex_digits)
           (String.list_ascii_of_string (hex_EncodeToString (ex_md5_Sum data))).
Proof.
  assert (H : CalcMD5 ex_md5_Sum 0 ex_pinned_state =
              Returns None (with_heap [with_MD5 "04000000000000000000000000000000" ex_pinned]
                                      ex_pinned_state))
    by (vm_compute; reflexivity).
  split; [exact H|].
  exact (CalcMD5_stores_hex_digest ex_md5_Sum ex_md5_Sum_length 0 ex_pinned_state _ H).
Defined.

Lemma CalcMD5_idempotent_witness :
  let s1 := with_heap [with_MD5 "04000000000000000000000000000000" ex_pinned]
                      ex_pinned_state in
  CalcMD5 ex_md5_Sum 0 ex_pinned_state = Returns None s1 /\
  CalcMD5 ex_md5_Sum 0 s1 = Returns None s1.
Proof.
  intros s1.
  assert (H : CalcMD5 ex_md5_Sum 0 ex_pinned_state = Returns None s1)
    by (vm_compute; reflexivity).
  split; [exact H|].
  exact (CalcMD5_idempotent ex_md5_Sum 0 ex_pinned_state None s1 H).
Defined.

Lemma Load_failure_keeps_handle_witness :
  let e := ErrExternal "fork/exec: no such file or directory" in
  let s' := after_Load ex_launch 1 ex_missing ex_mixed_state in
  Load ex_launch 1 ex_mixed_state = Returns (Some e) s' /\
  exists pl pl',
    heap ex_mixed_state !! 1 = Some pl /\
    s' = with_heap (<[1 := pl']> (heap ex_mixed_state))
           (with_execs (execs ex_mixed_state ++ [cmd pl]) ex_mixed_state) /\
    Path pl' = Path pl /\ Args pl' = Args pl /\ MD5 pl' = MD5 pl /\
    App pl' = App pl /\ used pl' = used pl /\
    (pl' = pl \/
     exists meta, ex_launch (Path pl) (Args pl) = MetaReturns meta (Some e) /\
                  AppMeta pl' = meta).
Proof.
  intros e s'.
  assert (H : Load ex_launch 1 ex_mixed_state = Returns (Some e) s')
    by (vm_compute; reflexivity).
  split; [exact H|].
  exact (Load_failure_keeps_handle ex_launch 1 ex_mixed_state e s' H).
Defined.

Lemma Load_then_call_marks_used_witness :
  let s1 := after_Load ex_launch 0 (ex_good "build") ex_mixed_state in
  Load ex_launch 0 ex_mixed_state = Returns None s1 /\
  Used 0 s1 = Returns false s1.
Proof.
  intros s1.
  assert (H : Load ex_launch 0 ex_mixed_state = Returns None s1)
    by (vm_compute; reflexivity).
  split; [exact H|].
  exact (proj1 (Load_then_call_marks_used ex_launch 0 ex_mixed_state s1 H)).
Defined.

Lemma own_factories_kept_witness :
  own_factories (ex_loaded_state false) /\
  run ex_md5_Sum ex_Encode ex_Decode ex_range_keys ex_launch
      (OpStoreUsed "used.json") ex_loaded_manager (ex_loaded_state true) =
    Returns ex_loaded_manager ex_stored_state /\
  own_factories ex_stored_state.
Proof.
  assert (H : run ex_md5_Sum ex_Encode ex_Decode ex_range_keys ex_launch
                (OpStoreUsed "used.json") ex_loaded_manager (ex_loaded_state true) =
              Returns ex_loaded_manager ex_stored_state)
    by (vm_compute; reflexivity).
  split; [exact (ex_own_factories_loaded false)|]. split; [exact H|].
  exact (own_factories_kept ex_md5_Sum ex_Encode ex_Decode ex_range_keys ex_launch
           _ _ _ _ _ (ex_own_factories_loaded true) H).
Defined.

Lemma configured_factory_marks_its_handle_witness :
  with_metadata ex_rival_state (elems (plugins ex_loaded_manager))
                [ex_rival 0; ex_rival 1] /\
  own_factories ex_rival_state /\
  exists table,
    ConfigureCore ex_loaded_manager {| Apps := None |} ex_rival_state =
      Returns ({| Apps := Some table |}, None) ex_rival_state /\
    forall (T : Tuple) f,
      table !! T = Some (Some f) ->
      (default ∅ (Apps {| Apps := None |}) !! T = Some (Some f) /\
       Forall (fun pl => T ∉ tuples_of pl) [ex_rival 0; ex_rival 1]) \/
      (exists p pl s',
         p ∈ elems (plugins ex_loaded_manager) /\ heap ex_rival_state !! p = Some pl /\
         T ∈ tuples_of pl /\ App pl = Some f /\
         call (Some f) ex_rival_state = Returns (client_App (fac_client f)) s' /\
         is_used s' p = true /\
         forall a, a <> p -> heap s' !! a = heap ex_rival_state !! a).
Proof.
  split; [exact ex_rival_metadata|]. split; [exact ex_own_factories_rival|].
  exact (configured_factory_marks_its_handle ex_loaded_manager {| Apps := None |}
           ex_rival_state _ ex_rival_metadata ex_own_factories_rival).
Defined.

Lemma ConfigureCore_idempotent_witness :
  with_metadata ex_rival_state (elems (plugins ex_loaded_manager))
                [ex_rival 0; ex_rival 1] /\
  exists core',
    ConfigureCore ex_loaded_manager {| Apps := None |} ex_rival_state =
      Returns (core', None) ex_rival_state /\
    ConfigureCore ex_loaded_manager core' ex_rival_state =
      Returns (core', None) ex_rival_state.
Proof.
  split; [exact ex_rival_metadata|].
  exact (ConfigureCore_idempotent ex_loaded_manager {| Apps := None |}
           ex_rival_state _ ex_rival_metadata).
Defined.

Lemma Discover_failure_replaces_nothing_witness :
  let e := ErrExternal "readlink /proc/self/exe: no such file or directory" in
  testingMode ex_lost_state = false /\ exe ex_lost_state = Err e /\
  Discover ex_range_keys ex_manager ex_lost_state =
    Returns (ex_manager, Some e) ex_lost_state /\
  (plugins ex_manager = None ->
   LoadAll ex_range_keys ex_launch ex_manager ex_lost_state =
     Returns (ex_manager, Some e) ex_lost_state).
Proof.
  intros e. split; [reflexivity|]. split; [reflexivity|].
  exact (Discover_failure_replaces_nothing ex_range_keys ex_launch ex_manager
           ex_lost_state e eq_refl eq_refl).
Defined.

Lemma Discover_logs_in_handle_order_witness :
  testingMode ex_state = false /\ exe ex_state = Val "/bin/otto" /\
  exists keys s',
    keys ≡ₚ (map_to_list (PluginMap ex_manager)).*1 /\
    Discover ex_range_keys ex_manager ex_state =
      Returns (with_plugins (Some (seq (length (heap ex_state)) (length keys)))
                 ex_manager, None) s' /\
    heap s' = heap ex_state ++ (builtin "/bin/otto" <$> keys) /\
    logs s' = logs ex_state ++
      ((fun k => "[DEBUG] Detected plugin: " +:+ "/bin/otto" +:+
                 " [plugin-builtin " +:+ k +:+ "]") <$> keys) /\
    execs s' = execs ex_state /\ fs s' = fs ex_state.
Proof.
  split; [reflexivity|]. split; [reflexivity|].
  exact (Discover_logs_in_handle_order ex_range_keys ex_range_keys_perm ex_manager
           ex_state "/bin/otto" eq_refl eq_refl).
Defined.

Lemma LoadAll_again_launches_again_witness :
  plugins ex_loaded_manager = Some [0; 1] /\ valid ex_mixed_state [0; 1] /\
  exists r1 r2 s1 s2,
    LoadAll ex_range_keys ex_launch ex_loaded_manager ex_mixed_state =
      Returns (ex_loaded_manager, r1) s1 /\
    LoadAll ex_range_keys ex_launch ex_loaded_manager s1 =
      Returns (ex_loaded_manager, r2) s2 /\
    execs s2 ≡ₚ execs ex_mixed_state ++ cmds ex_mixed_state [0; 1]
                  ++ cmds ex_mixed_state [0; 1] /\
    ident <$> heap s2 = ident <$> heap ex_mixed_state.
Proof.
  split; [reflexivity|]. split; [exact ex_valid_mixed|].
  exact (proj1 (LoadAll_again_launches_again ex_range_keys ex_launch 4
                  ex_loaded_manager [0; 1] ex_mixed_state eq_refl ex_valid_mixed)).
Defined.

Lemma ex_dir_valid : valid ex_dir_state (elems (plugins ex_loaded_manager)).
Proof. repeat constructor; by eexists. Qed.

Lemma StoreUsed_on_directory_witness :
  valid ex_dir_state (elems (plugins ex_loaded_manager)) /\
  fs ex_dir_state !! "out" = Some Dir /\
  exists s',
    StoreUsed ex_md5_Sum ex_Encode ex_loaded_manager "out" ex_dir_state =
      Returns (Some (ErrCreate "out")) s' /\
    fs s' = fs ex_dir_state.
Proof.
  assert (H : fs ex_dir_state !! "out" = Some Dir) by (vm_compute; reflexivity).
  split; [exact ex_dir_valid|]. split; [exact H|].
  destruct (StoreUsed_on_directory ex_md5_Sum ex_Encode ex_loaded_manager "out"
              ex_dir_state ex_dir_valid H) as (s' & H1 & H2 & _).
  exists s'. by split.
Defined.



Lemma StoreUsed_refused_witness :
  valid (ex_loaded_state true) (elems (plugins ex_loaded_manager)) /\
  creatable (ex_loaded_state true) "nodir/used.json" = false /\
  exists s',
    StoreUsed ex_md5_Sum ex_Encode ex_loaded_manager "nodir/used.json"
              (ex_loaded_state true) =
      Returns (Some (ErrCreate "nodir/used.json")) s' /\
    fs s' = fs (ex_loaded_state true) /\
    MD5 <$> heap s' !! 0 = Some (hex_EncodeToString (ex_md5_Sum ex_binary)).
Proof.
  assert (H : creatable (ex_loaded_state true) "nodir/used.json" = false)
    by (vm_compute; reflexivity).
  split; [exact (ex_valid_loaded true)|]. split; [exact H|].
  destruct (StoreUsed_refused ex_md5_Sum ex_Encode ex_loaded_manager
              "nodir/used.json" (ex_loaded_state true) (ex_valid_loaded true) H)
    as (s' & H1 & H2 & _ & H3).
  exists s'. split; [exact H1|]. split; [exact H2|].
  apply (H3 0 (ex_loaded 0 "build" true) ex_binary);
    [vm_compute; by left|reflexivity|vm_compute; reflexivity].
Defined.

(** At a destination in a directory that does not exist, or that the
    process may not write to, [StoreUsed] returns the error of [os.Create]
    and writes nothing. *)
Lemma ex_destination_refused :
  (exists s',
     StoreUsed ex_md5_Sum ex_Encode ex_loaded_manager "nodir/used.json"
               (ex_loaded_state true) =
       Returns (Some (ErrCreate "nodir/used.json")) s' /\
     fs s' = fs (ex_loaded_state true)) /\
  (exists s',
     StoreUsed ex_md5_Sum ex_Encode ex_loaded_manager "used.json"
               {| heap := heap (ex_loaded_state true); fs := fs (ex_loaded_state true);
                  execs := []; logs := []; testingMode := false;
                  exe := Val "/bin/otto"; ranges := 1;
                  unwritable := {[ "used.json" ]} |} =
       Returns (Some (ErrCreate "used.json")) s' /\
     fs s' = fs (ex_loaded_state true)).
Proof. split; eexists; split; vm_compute; reflexivity. Qed.


Lemma LoadUsed_error_changes_nothing_witness :
  fs ex_state !! "used.json" = None /\
  LoadUsed ex_Decode ex_range_keys ex_launch ex_manager "used.json" ex_state =
    Returns (ex_manager, Some (ErrOpen "used.json")) ex_state.
Proof.
  assert (H : fs ex_state !! "used.json" = None) by (vm_compute; reflexivity).
  split; [exact H|].
  exact (proj1 (LoadUsed_error_changes_nothing ex_Decode ex_range_keys ex_launch
                  ex_manager "used.json" ex_state) H).
Defined.

Lemma LoadUsed_builds_handles_of_manifest_witness :
  fs ex_stored_state !! "used.json" = Some (File (ex_Encode ex_manifest)) /\
  ex_Decode (ex_Encode ex_manifest) = Some ex_manifest /\
  (doc_version ex_manifest <= usedPluginVersion)%Z /\
  exists r s',
    LoadUsed ex_Decode ex_range_keys ex_launch ex_manager "used.json" ex_stored_state =
      Returns (with_plugins (Some [2]) ex_manager, r) s' /\
    execs s' ≡ₚ execs ex_stored_state ++ [("/bin/otto", ["plugin-builtin"; "build"])].
Proof.
  assert (H1 : fs ex_stored_state !! "used.json" = Some (File (ex_Encode ex_manifest)))
    by (vm_compute; reflexivity).
  assert (H2 : ex_Decode (ex_Encode ex_manifest) = Some ex_manifest)
    by (vm_compute; reflexivity).
  assert (H3 : (doc_version ex_manifest <= usedPluginVersion)%Z) by done.
  split; [exact H1|]. split; [exact H2|]. split; [exact H3|].
  destruct (proj2 (LoadUsed_builds_handles_of_manifest ex_Decode ex_range_keys ex_launch
                     ex_manager "used.json" ex_stored_state _ _ _ H1 H2 H3 eq_refl)
                  [{| doc_path := "/bin/otto";
                      doc_args := ["plugin-builtin"; "build"];
                      doc_md5 := "04000000000000000000000000000000" |}] eq_refl)
    as (r & s' & HL & _ & Hex & _).
  exists r, s'. by split.
Defined.

(** A manifest whose list holds [null]: the load pass dereferences the nil
    pointer. *)
Lemma ex_null_entry :
  ex_Decode (ex_Encode ex_null_doc) = Some ex_null_doc /\
  LoadUsed ex_Decode ex_range_keys ex_launch ex_manager "used.json" ex_null_state = Panics.
Proof. split; vm_compute; reflexivity. Qed.

Lemma LoadUsed_without_list_discovers_witness :
  fs ex_listless_state !! "used.json" = Some (File (ex_Encode ex_listless_doc)) /\
  ex_Decode (ex_Encode ex_listless_doc) = Some ex_listless_doc /\
  (doc_version ex_listless_doc <= usedPluginVersion)%Z /\
  doc_plugins ex_listless_doc = None /\
  LoadUsed ex_Decode ex_range_keys ex_launch ex_loaded_manager "used.json"
           ex_listless_state =
    LoadAll ex_range_keys ex_launch (with_plugins None ex_loaded_manager)
            ex_listless_state.
Proof.
  assert (H1 : fs ex_listless_state !! "used.json"
               = Some (File (ex_Encode ex_listless_doc)))
    by (vm_compute; reflexivity).
  assert (H2 : ex_Decode (ex_Encode ex_listless_doc) = Some ex_listless_doc)
    by (vm_compute; reflexivity).
  assert (H3 : (doc_version ex_listless_doc <= usedPluginVersion)%Z) by done.
  split; [exact H1|]. split; [exact H2|]. split; [exact H3|]. split; [reflexivity|].
  exact (proj1 (LoadUsed_without_list_discovers ex_Decode ex_range_keys ex_launch
                  ex_range_keys_perm ex_loaded_manager "used.json" ex_listless_state
                  _ _ H1 H2 H3 eq_refl)).
Defined.

Lemma operations_keep_to_their_ground_witness :
  run ex_md5_Sum ex_Encode ex_Decode ex_range_keys ex_launch
      (OpStoreUsed "used.json") ex_loaded_manager (ex_loaded_state true) =
    Returns ex_loaded_manager ex_stored_state /\
  execs ex_stored_state = execs (ex_loaded_state true) /\
  forall q, q <> "used.json" ->
            fs ex_stored_state !! q = fs (ex_loaded_state true) !! q.
Proof.
  assert (H : run ex_md5_Sum ex_Encode ex_Decode ex_range_keys ex_launch
                (OpStoreUsed "used.json") ex_loaded_manager (ex_loaded_state true) =
              Returns ex_loaded_manager ex_stored_state)
    by (vm_compute; reflexivity).
  split; [exact H|].
  exact (operations_keep_to_their_ground ex_md5_Sum ex_Encode ex_Decode ex_range_keys
           ex_launch (OpStoreUsed "used.json") _ _ _ _ H).
Defined.

Lemma ex_load_task_returns p err w :
  p ∈ [0; 1] -> valid w [0; 1] ->
  exists err' w', load_task ex_launch p err w = Returns err' w' /\ valid w' [0; 1].
Proof.
  intros Hp Hv.
  destruct (Forall_forall (fun p => is_Some (heap w !! p)) [0; 1]) as [Hf _].
  destruct (Hf Hv p Hp) as [plg Hplg].
  eexists _, _. split; [by apply load_task_spec|].
  eapply ident_valid; [|exact Hv]. by apply ident_after_Load.
Qed.

Lemma goroutines_run_to_completion_witness :
  let pl := {| sema := 3; tasks := [Working; Spawned];
               shared_err := None; world := ex_mixed_state |} in
  0 < 4 /\ valid ex_mixed_state [0; 1] /\
  nsteps (pool_step (load_task ex_launch) [0; 1]) 1
         (pool_start 4 [0; 1] None ex_mixed_state) pl /\
  1 + remaining pl = 3 * length [0; 1] /\
  (~ all_exited pl -> exists pl', pool_step (load_task ex_launch) [0; 1] pl pl').
Proof.
  intros pl.
  assert (H : nsteps (pool_step (load_task ex_launch) [0; 1]) 1
                (pool_start 4 [0; 1] None ex_mixed_state) pl).
  { apply nsteps_once.
    exact (step_Acquire (load_task ex_launch) [0; 1] 0 3
             (pool_start 4 [0; 1] None ex_mixed_state) eq_refl eq_refl). }
  assert (HN : 0 < 4) by lia.
  split; [exact HN|]. split; [exact ex_valid_mixed|]. split; [exact H|].
  destruct (goroutines_run_to_completion 4 (load_task ex_launch)
              (fun w => valid w [0; 1]) [0; 1] ex_mixed_state 1 pl
              HN ex_valid_mixed ex_load_task_returns H) as (H1 & _ & H2 & _).
  by split.
Defined.

Lemma hash_goroutines_any_order_witness :
  valid ex_trio_state [2; 0] /\
  exists pl,
    rtc (pool_step (hash_task ex_md5_Sum) [2; 0])
        (pool_start 4 [2; 0] None ex_trio_state) pl /\
    all_exited pl /\
    unhashed <$> heap (world pl) = unhashed <$> heap ex_trio_state /\
    forall a pl0, heap ex_trio_state !! a = Some pl0 ->
      exists pl', heap (world pl) !! a = Some pl' /\
        (a ∉ [2; 0] -> pl' = pl0) /\
        (a ∈ [2; 0] -> forall data, fs ex_trio_state !! Path pl0 = Some (File data) ->
                       MD5 pl' = hex_EncodeToString (ex_md5_Sum data)).
Proof.
  assert (Hv : valid ex_trio_state [2; 0]) by (repeat constructor; by eexists).
  split; [exact Hv|].
  (* the goroutine of the second handle of the slice runs its body first *)
  assert (Hrun : exists pl,
             rtc (pool_step (hash_task ex_md5_Sum) [2; 0])
                 (pool_start 4 [2; 0] None ex_trio_state) pl /\ all_exited pl).
  { eexists. split.
    - eapply rtc_l; [eapply (step_Acquire _ _ 1 3); reflexivity|]. simpl.
      eapply rtc_l; [eapply (step_Acquire _ _ 0 2); reflexivity|]. simpl.
      eapply rtc_l;
        [eapply (step_body _ _ 1 0); [reflexivity|reflexivity|reflexivity]|]. simpl.
      eapply rtc_l;
        [eapply (step_body _ _ 0 2); [reflexivity|reflexivity|reflexivity]|]. simpl.
      eapply rtc_l; [eapply (step_Release _ _ 0); reflexivity|]. simpl.
      eapply rtc_l; [eapply (step_Release _ _ 1); reflexivity|]. simpl.
      apply rtc_refl.
    - repeat constructor. }
  destruct Hrun as (pl & Hrtc & Hall).
  exists pl. split; [exact Hrtc|]. split; [exact Hall|].
  exact (hash_goroutines_any_order ex_md5_Sum 4 [2; 0] ex_trio_state pl Hv Hrtc Hall).
Defined.
